(** * ebs-autoscale: the volume lifecycle engine of [ebs_autoscale/volume.go]

    A shallow embedding of the Go package [ebs_autoscale] (volume.go and the
    helper [Md5String]) together with the properties its specification
    states about it. The monitor (monitor.go), the log writer, the
    construction of the host (ec2_host.go), [PascalCaseString] and the
    [Stat] of the btrfs backend are embedded as well, with properties of
    theirs.

    Conventions of the embedding.
    - [int32] values are [Z] with the wrap-around of Go's arithmetic
      written out ([Go.wrap32]).
    - [float32] and [float64] values are [spec_float] at the binary32 and
      binary64 formats, with the IEEE-754 operations of [SpecFloat].
    - Pointer fields of the AWS SDK that the code dereferences ([*mv.Size],
      [*t.Key], [*vol.VolumeId]) are [option]s; dereferencing [None] is a
      run-time panic, which the model keeps as an outcome of its own.
    - Every interaction with the outside (EC2 API, [os.Stat], the clock, the
      filesystem backend) appends the call to a trace and takes its answer
      from an oracle that sees the trace so far, so that two calls with the
      same arguments may be answered differently. *)

From Stdlib Require Import ZArith List String Ascii Bool Lia.
From Stdlib Require Import Floats.SpecFloat.
Import ListNotations.

Local Open Scope Z_scope.

(** ** Go primitives *)

Module Go.

(** [int32(x)]: two's complement wrap-around. *)
Definition wrap32 (z : Z) : Z := (z + 2 ^ 31) mod 2 ^ 32 - 2 ^ 31.

Definition add32 (a b : Z) : Z := wrap32 (a + b).
Definition sub32 (a b : Z) : Z := wrap32 (a - b).

(** [int32(len(l))]. *)
Definition len32 {A : Type} (l : list A) : Z := wrap32 (Z.of_nat (List.length l)).

Definition in_int32 (z : Z) : bool := (- 2 ^ 31 <=? z) && (z <=? 2 ^ 31 - 1).

(** [strings.HasPrefix(s, p)]. *)
Definition HasPrefix (s p : string) : bool := String.prefix p s.

End Go.

(** [float32], as used by [TotalUsagePercent]. *)
Module float32.
Definition prec : Z := 24.
Definition emax : Z := 128.
Definition zero : spec_float := S754_zero false.
(** [float32(n)] for an unsigned integer, rounded to nearest even. *)
Definition of_uint64 (n : Z) : spec_float := binary_normalize prec emax n 0 false.
Definition const (n : Z) : spec_float := binary_normalize prec emax n 0 false.
Definition div : spec_float -> spec_float -> spec_float := SFdiv prec emax.
Definition mul : spec_float -> spec_float -> spec_float := SFmul prec emax.
End float32.

(** [float64], as used by [calculateSizeIncreasePerVolume]. *)
Module float64.
Definition prec : Z := 53.
Definition emax : Z := 1024.
(** [float64(x)] for an [int32]: exact. *)
Definition of_int32 (x : Z) : spec_float := binary_normalize prec emax x 0 false.
Definition div : spec_float -> spec_float -> spec_float := SFdiv prec emax.

(** The integer [floor (m * 2^e)], for a signed mantissa. *)
Definition floorZ (s : bool) (m : positive) (e : Z) : Z :=
  Z.shiftl (if s then Z.neg m else Z.pos m) e.

(** [math.Floor]: infinities, NaN and zeros are returned as they are. *)
Definition Floor (f : spec_float) : spec_float :=
  match f with
  | S754_finite s m e =>
      if 0 <=? e then f else binary_normalize prec emax (floorZ s m e) 0 false
  | _ => f
  end.

(** The integer [trunc (m * 2^e)] (rounding toward zero). *)
Definition truncZ (s : bool) (m : positive) (e : Z) : Z :=
  let a := Z.shiftl (Z.pos m) e in if s then - a else a.

(** [int32(f)]. Go truncates toward zero; when the value does not fit
    [int32] (or is an infinity or NaN) "the conversion succeeds but the
    result value is implementation-dependent": [unrepresentable] is what
    the platform yields then. *)
Definition to_int32 (unrepresentable : spec_float -> Z) (f : spec_float) : Z :=
  match f with
  | S754_zero _ => 0
  | S754_finite s m e =>
      let z := truncZ s m e in
      if Go.in_int32 z then z else unrepresentable f
  | _ => unrepresentable f
  end.
End float64.

(** ** Errors

    The package builds its errors with [fmt.Errorf] and [errors.New]; one
    constructor stands for each site, carrying the formatted arguments. *)

#[local] Set Warnings "-register-all".

Inductive error : Type :=
  (** an error value made outside the package: SDK, OS, filesystem backend *)
  | ExternalError (msg : string)
  (** an [os] error for which [errors.Is(err, os.ErrNotExist)] holds *)
  | PathNotExist (path : string)
  (** "calculateSizeIncreasePerVolume: Cannot grow, the volume size is
      already at or beyond max size" *)
  | ErrCannotGrow
  (** "createAndAttachEbsVolume: MaxLogicalSizeGb exceeded: max:%dGb observed:%dGb" *)
  | ErrMaxLogicalSizeGbExceeded (max observed : Z)
  (** "createAndAttachEbsVolume: MaxCreatedVolumes reached: max:%d observed:%d" *)
  | ErrMaxCreatedVolumesReached (max observed : Z)
  (** "createAndAttachEbsVolume: MaxAttachedVolumes exceeded: max:%d observed:%d" *)
  | ErrMaxAttachedVolumesExceeded (max observed : Z)
  (** "Volume.getNextLogicalDevice: Could not determine the next logical device" *)
  | ErrNoLogicalDevice
  (** "isAvailable: unexpected error from os.Stat: %w" *)
  | ErrUnexpectedStat (inner : error)
  (** "localVolAvailabilityWaiter: waiting for device: %s appears to have timed out" *)
  | ErrLocalWaitTimeout (device : string)
  (** the value of [errors.Join] on a list with a non-nil element *)
  | JoinError (errs : list error).

Module errors.

(** [errors.Join(errs...)]: nil arguments are dropped; nil when nothing is left. *)
Fixpoint nonNil (errs : list (option error)) : list error :=
  match errs with
  | [] => []
  | None :: rest => nonNil rest
  | Some e :: rest => e :: nonNil rest
  end.

Definition Join (errs : list (option error)) : option error :=
  match nonNil errs with
  | [] => None
  | es => Some (JoinError es)
  end.

(** [errors.Is(err, os.ErrNotExist)]: follows [%w] wrapping and joins. *)
Fixpoint IsNotExist (e : error) : bool :=
  match e with
  | PathNotExist _ => true
  | ErrUnexpectedStat inner => IsNotExist inner
  | JoinError es => existsb IsNotExist es
  | _ => false
  end.

End errors.

(** What a Go function returning [(T, error)] can do: return a value,
    return an error, or panic. *)
Inductive outcome (A : Type) : Type :=
  | Ok (a : A)
  | Err (e : error)
  | Panic.
Arguments Ok {A} a.
Arguments Err {A} e.
Arguments Panic {A}.

(** The names the specification gives to the failures of the engine. *)
Inductive ErrorKind : Type :=
  | InvalidCapacityConfig
  | CapacityExceeded
  | NoDeviceAvailable
  | TimeoutError
  | OtherError.

Definition errorKind (e : error) : ErrorKind :=
  match e with
  | ErrCannotGrow => InvalidCapacityConfig
  | ErrMaxLogicalSizeGbExceeded _ _ => CapacityExceeded
  | ErrMaxCreatedVolumesReached _ _ => CapacityExceeded
  | ErrMaxAttachedVolumesExceeded _ _ => CapacityExceeded
  | ErrNoLogicalDevice => NoDeviceAvailable
  | ErrLocalWaitTimeout _ => TimeoutError
  | _ => OtherError
  end.

(** ** MD5 and hexadecimal rendering ([crypto/md5], [encoding/hex]) *)

Module md5.

Definition mask32 (z : Z) : Z := z mod 2 ^ 32.

Definition rotl32 (x : Z) (c : Z) : Z :=
  mask32 (Z.lor (Z.shiftl x c) (Z.shiftr x (32 - c))).

Definition not32 (x : Z) : Z := Z.lxor x (2 ^ 32 - 1).

Definition shifts : list Z :=
  [7; 12; 17; 22; 7; 12; 17; 22; 7; 12; 17; 22; 7; 12; 17; 22;
   5;  9; 14; 20; 5;  9; 14; 20; 5;  9; 14; 20; 5;  9; 14; 20;
   4; 11; 16; 23; 4; 11; 16; 23; 4; 11; 16; 23; 4; 11; 16; 23;
   6; 10; 15; 21; 6; 10; 15; 21; 6; 10; 15; 21; 6; 10; 15; 21].

Definition K : list Z :=
  [0xd76aa478; 0xe8c7b756; 0x242070db; 0xc1bdceee;
   0xf57c0faf; 0x4787c62a; 0xa8304613; 0xfd469501;
   0x698098d8; 0x8b44f7af; 0xffff5bb1; 0x895cd7be;
   0x6b901122; 0xfd987193; 0xa679438e; 0x49b40821;
   0xf61e2562; 0xc040b340; 0x265e5a51; 0xe9b6c7aa;
   0xd62f105d; 0x02441453; 0xd8a1e681; 0xe7d3fbc8;
   0x21e1cde6; 0xc33707d6; 0xf4d50d87; 0x455a14ed;
   0xa9e3e905; 0xfcefa3f8; 0x676f02d9; 0x8d2a4c8a;
   0xfffa3942; 0x8771f681; 0x6d9d6122; 0xfde5380c;
   0xa4beea44; 0x4bdecfa9; 0xf6bb4b60; 0xbebfbc70;
   0x289b7ec6; 0xeaa127fa; 0xd4ef3085; 0x04881d05;
   0xd9d4d039; 0xe6db99e5; 0x1fa27cf8; 0xc4ac5665;
   0xf4292244; 0x432aff97; 0xab9423a7; 0xfc93a039;
   0x655b59c3; 0x8f0ccc92; 0xffeff47d; 0x85845dd1;
   0x6fa87e4f; 0xfe2ce6e0; 0xa3014314; 0x4e0811a1;
   0xf7537e82; 0xbd3af235; 0x2ad7d2bb; 0xeb86d391].

(** Little-endian bytes of a word, and back. *)
Fixpoint le_bytes (n : nat) (z : Z) : list Z :=
  match n with
  | O => []
  | S n' => (z mod 256) :: le_bytes n' (z / 256)
  end.

Fixpoint le_word (bs : list Z) : Z :=
  match bs with
  | [] => 0
  | b :: rest => b + 256 * le_word rest
  end.

(** Padding: a 1 bit, zeros up to 56 mod 64, the bit length on 64 bits. *)
Definition pad (msg : list Z) : list Z :=
  let n := Z.of_nat (List.length msg) in
  let zeros := Z.to_nat ((55 - n) mod 64) in
  msg ++ [0x80] ++ repeat 0 zeros ++ le_bytes 8 ((8 * n) mod 2 ^ 64).

Fixpoint words (n : nat) (bs : list Z) : list Z :=
  match n with
  | O => []
  | S n' => le_word (firstn 4 bs) :: words n' (skipn 4 bs)
  end.

Fixpoint blocks (n : nat) (bs : list Z) : list (list Z) :=
  match n with
  | O => []
  | S n' => words 16 (firstn 64 bs) :: blocks n' (skipn 64 bs)
  end.

Record state : Type := mkState { sa : Z; sb : Z; sc : Z; sd : Z }.

Definition init : state :=
  mkState 0x67452301 0xefcdab89 0x98badcfe 0x10325476.

Definition round (M : list Z) (st : state) (i : nat) : state :=
  let iz := Z.of_nat i in
  let '(mkState a b c d) := st in
  let '(f, g) :=
    if iz <? 16 then (Z.lor (Z.land b c) (Z.land (not32 b) d), iz)
    else if iz <? 32 then (Z.lor (Z.land d b) (Z.land (not32 d) c), (5 * iz + 1) mod 16)
    else if iz <? 48 then (Z.lxor (Z.lxor b c) d, (3 * iz + 5) mod 16)
    else (Z.lxor c (Z.lor b (not32 d)), (7 * iz) mod 16) in
  let f' := mask32 (f + a + nth i K 0 + nth (Z.to_nat g) M 0) in
  mkState d (mask32 (b + rotl32 f' (nth i shifts 0))) b c.

Definition block (st : state) (M : list Z) : state :=
  let st' := fold_left (round M) (seq 0 64) st in
  mkState (mask32 (sa st + sa st')) (mask32 (sb st + sb st'))
          (mask32 (sc st + sc st')) (mask32 (sd st + sd st')).

(** [md5.Sum(data)]: the 16 bytes of the digest. *)
Definition Sum (data : list Z) : list Z :=
  let padded := pad data in
  let st := fold_left block (blocks (List.length padded / 64) padded) init in
  le_bytes 4 (sa st) ++ le_bytes 4 (sb st) ++ le_bytes 4 (sc st) ++ le_bytes 4 (sd st).

End md5.

Module hex.

Definition digit (z : Z) : ascii :=
  if z <? 10 then ascii_of_nat (Z.to_nat (48 + z))
  else ascii_of_nat (Z.to_nat (87 + z)).

(** [hex.EncodeToString]: two lower-case digits per byte. *)
Fixpoint EncodeToString (bs : list Z) : string :=
  match bs with
  | [] => EmptyString
  | b :: rest => String (digit (b / 16)) (String (digit (b mod 16)) (EncodeToString rest))
  end.

End hex.

(** [[]byte(s)]. *)
Definition bytes_of_string (s : string) : list Z :=
  map (fun c => Z.of_nat (nat_of_ascii c)) (list_ascii_of_string s).

(** [Md5String] returns the MD5 hex of the given string. *)
Definition Md5String (s : string) : string :=
  hex.EncodeToString (md5.Sum (bytes_of_string s)).

(** ** Data model *)

(** [time.Time], observed only through its [String] method. *)
Record Time : Type := mkTime { TimeString : string }.

(** The SDK's [types] package. *)
Module types.

Record Tag : Type := mkTag {
  Key : option string;
  Value : option string
}.

(** [type VolumeType string]. *)
Definition VolumeType : Type := string.
Definition VolumeTypeIo1 : VolumeType := "io1"%string.
Definition VolumeTypeIo2 : VolumeType := "io2"%string.
Definition VolumeTypeGp3 : VolumeType := "gp3"%string.

Record Volume : Type := mkVolume {
  Attachments : list string;
  AvailabilityZone : option string;
  CreateTime : option Time;
  Encrypted : option bool;
  FastRestored : option bool;
  Iops : option Z;
  KmsKeyId : option string;
  MultiAttachEnabled : option bool;
  OutpostArn : option string;
  Size : option Z;
  SnapshotId : option string;
  SseType : string;
  State : string;
  Tags : list Tag;
  Throughput : option Z;
  VolumeId : option string;
  VolumeType_ : VolumeType
}.

End types.

(** The SDK's [ec2] package: inputs and outputs of the calls the engine makes. *)
Module ec2.

Record CreateVolumeInput : Type := mkCreateVolumeInput {
  AvailabilityZone : option string;
  VolumeType_ : types.VolumeType;
  Size : option Z;
  Iops : option Z;
  Throughput : option Z;
  Encrypted : option bool;
  (** one [TagSpecification], of resource type volume *)
  TagSpecifications : list types.Tag
}.

Record CreateVolumeOutput : Type := mkCreateVolumeOutput {
  oAttachments : list string;
  oAvailabilityZone : option string;
  oCreateTime : option Time;
  oEncrypted : option bool;
  oFastRestored : option bool;
  oIops : option Z;
  oKmsKeyId : option string;
  oMultiAttachEnabled : option bool;
  oOutpostArn : option string;
  oSize : option Z;
  oSnapshotId : option string;
  oSseType : string;
  oState : string;
  oTags : list types.Tag;
  oThroughput : option Z;
  oVolumeId : option string;
  oVolumeType : types.VolumeType
}.

End ec2.

(** What the engine does to the outside, in the order it does it. *)
Inductive Call : Type :=
  | LoadDefaultConfig (region : string)
  (** [DescribeVolumes] filtered on [attachment.instance-id] *)
  | DescribeVolumes (instanceId : string)
  | CreateVolumeCall (input : ec2.CreateVolumeInput)
  (** [NewVolumeAvailableWaiter(...).Wait], with its maximal wait in seconds *)
  | WaitVolumeAvailable (volumeId : string) (maxWaitSec : Z)
  | AttachVolume (device : string) (instanceId : string) (volumeId : string)
  (** [ModifyInstanceAttribute] setting [DeleteOnTermination] on a mapping *)
  | ModifyInstanceAttribute (instanceId : string) (device : string)
                            (deleteOnTermination : bool) (volumeId : string)
  | DetachVolume (volumeId : string)
  | DeleteVolume (volumeId : string)
  | OsStat (path : string)
  | TimeNow
  | FsStat
  | FsCreateFileSystem (device : string)
  | FsGrowFileSystem (device : string).

Definition trace : Type := list Call.

(** The calls that reach the cloud provider. *)
Definition isRemote (c : Call) : bool :=
  match c with
  | DescribeVolumes _ | CreateVolumeCall _ | WaitVolumeAvailable _ _
  | AttachVolume _ _ _ | ModifyInstanceAttribute _ _ _ _
  | DetachVolume _ | DeleteVolume _ => true
  | _ => false
  end.

(** The outside, as an oracle: each answer may depend on the calls made so
    far. [ticksBeforeTimeout] is the number of ticks of the 50 ms ticker
    that [localVolAvailabilityWaiter] receives before its deadline (or a
    cancellation) fires; [int32OfUnrepresentable] is the platform's result
    for [int32(f)] when [f] does not fit. *)
Record World : Type := mkWorld {
  loadDefaultConfig : trace -> string -> option error;
  describeVolumes : trace -> string -> list types.Volume + error;
  createVolume : trace -> ec2.CreateVolumeInput -> ec2.CreateVolumeOutput + error;
  waitVolumeAvailable : trace -> string -> Z -> option error;
  attachVolume : trace -> string -> string -> string -> option error;
  modifyInstanceAttribute : trace -> string -> string -> bool -> string -> option error;
  detachVolume : trace -> string -> option error;
  deleteVolume : trace -> string -> option error;
  osStat : trace -> string -> option error;
  timeNow : trace -> Time;
  ticksBeforeTimeout : trace -> Z -> nat;
  int32OfUnrepresentable : spec_float -> Z
}.

(** [filesystem.FileSystem]: the interface, as the record of its methods.
    [Stat] returns its three sizes together with the error. *)
Module filesystem.

Record FileSystem : Type := mkFileSystem {
  CreateFileSystem : trace -> string -> option error;
  GrowFileSystem : trace -> string -> option error;
  GetMountPoint : string;
  Stat : trace -> Z * Z * Z * option error
}.

End filesystem.

Record Ec2Host : Type := mkEc2Host {
  InstanceId : string;
  InstanceArn : string;
  AvailabilityZone : string;
  Region : string;
  Tags : list types.Tag
}.

Record VolumeCfg : Type := mkVolumeCfg {
  MountPoint : string;
  cfgEbsType : string;
  EbsThroughput : option Z;
  EbsIops : option Z;
  cfgInitialSizeGb : Z;
  MaxSizeGb : Z;
  EbsMaxAttachedVolumes : Z;
  EbsMaxCreatedVolumes : Z
}.

Record Volume : Type := mkVolume {
  Host : Ec2Host;
  Fs : filesystem.FileSystem;
  Id : string;
  EbsType : string;
  ThroughPut : option Z;
  Iops : option Z;
  InitialSizeGb : Z;
  MaxLogicalSizeGb : Z;
  MaxAttachedVolumes : Z;
  MaxCreatedVolumes : Z;
  ManagedVolumes : list types.Volume
}.

(** [v.ManagedVolumes = mvs]. *)
Definition setManagedVolumes (v : Volume) (mvs : list types.Volume) : Volume :=
  mkVolume (Host v) (Fs v) (Id v) (EbsType v) (ThroughPut v) (Iops v)
           (InitialSizeGb v) (MaxLogicalSizeGb v) (MaxAttachedVolumes v)
           (MaxCreatedVolumes v) mvs.

(** The package-level map [volumeTypes], filled by [init]. *)
Definition volumeTypes : list (string * types.VolumeType) :=
  [ ("io1"%string, types.VolumeTypeIo1);
    ("io2"%string, types.VolumeTypeIo2);
    ("gp3"%string, types.VolumeTypeGp3) ].

(** [volumeTypes[k]]: [None] is the nil interface of a missing key. *)
Fixpoint mapIndex {V : Type} (m : list (string * V)) (k : string) : option V :=
  match m with
  | [] => None
  | (k', x) :: rest => if String.eqb k' k then Some x else mapIndex rest k
  end.

(** ** The monad of traced calls *)

Definition M (A : Type) : Type := trace -> A * trace.

Definition ret {A : Type} (a : A) : M A := fun t => (a, t).

Definition bind {A B : Type} (m : M A) (k : A -> M B) : M B :=
  fun t => let (a, t') := m t in k a t'.

(** Issue call [c], answered by [answer] on the trace so far. *)
Definition perform {R : Type} (c : Call) (answer : trace -> R) : M R :=
  fun t => (answer t, t ++ [c]).

Declare Scope traced_scope.
Delimit Scope traced_scope with traced.
Notation "x <- m ;; k" := (bind m (fun x => k))
  (at level 100, m at next level, right associativity) : traced_scope.
Notation "' p <- m ;; k" := (bind m (fun x => match x with p => k end))
  (at level 100, p pattern, m at next level, right associativity) : traced_scope.
Local Open Scope traced_scope.

(** ** The engine ([volume.go]) *)

Section Engine.

Variable w : World.

(** [managedVolumeSizeGb] returns the total size of the managed volumes,
    in Gb. [None]: a record without size was dereferenced. *)
Fixpoint sumSizes (totalVolumeSize : Z) (mvs : list types.Volume) : option Z :=
  match mvs with
  | [] => Some totalVolumeSize
  | mv :: rest =>
      match types.Size mv with
      | None => None
      | Some size => sumSizes (Go.add32 totalVolumeSize size) rest
      end
  end.

Definition managedVolumeSizeGb (v : Volume) : option Z :=
  sumSizes 0 (ManagedVolumes v).

(** [TotalUsagePercent] returns the usage as a percentage, with the error. *)
Definition TotalUsagePercent (v : Volume) : M (spec_float * option error) :=
  let usagePercent := float32.zero in
  ' (total, used, _, err) <- perform FsStat (filesystem.Stat (Fs v)) ;;
  match err with
  | Some e => ret (usagePercent, Some e)
  | None =>
      if total =? 0 then ret (usagePercent, None)
      else
        let usagePercent :=
          float32.mul (float32.div (float32.of_uint64 used) (float32.of_uint64 total))
                      (float32.const 100) in
        ret (usagePercent, None)
  end.

(** [calculateSizeIncreasePerVolume]: the value and the error it returns. *)
Definition calculateSizeIncreasePerVolume (v : Volume) : Z * option error :=
  let difference := Go.sub32 (MaxLogicalSizeGb v) (InitialSizeGb v) in
  if difference <=? 0 then (0, Some ErrCannotGrow)
  else
    let sizeIncreasePerVolume :=
      float64.to_int32 (int32OfUnrepresentable w)
        (float64.Floor
           (float64.div (float64.of_int32 difference)
                        (float64.of_int32 (Go.sub32 (MaxCreatedVolumes v) 1)))) in
    (sizeIncreasePerVolume, None).

(** [isAvailable]: true when [path] does not exist. *)
Definition isAvailable (path : string) : M (bool * option error) :=
  err <- perform (OsStat path) (fun t => osStat w t path) ;;
  match err with
  | None => ret (false, None)
  | Some e =>
      if errors.IsNotExist e then ret (true, None)
      else ret (false, Some (ErrUnexpectedStat e))
  end.

(** The runes of [for i := 'a'; i <= 'z'; i++]. *)
Definition deviceLetters : list ascii := map ascii_of_nat (seq 97 26).

Definition devicePath (i : ascii) : string := ("/dev/xvdb" ++ String i EmptyString)%string.

Fixpoint scanDevices (letters : list ascii) : M (outcome string) :=
  match letters with
  | [] => ret (Err ErrNoLogicalDevice)
  | i :: rest =>
      let device := devicePath i in
      ' (b, err) <- isAvailable device ;;
      match err with
      | Some e => ret (Err e)
      | None => if b then ret (Ok device) else scanDevices rest
      end
  end.

(** [getNextLogicalDevice]: the next free name in /dev/xvdba .. /dev/xvdbz. *)
Definition getNextLogicalDevice (v : Volume) : M (outcome string) :=
  scanDevices deviceLetters.

(** [removeVolume]: best-effort removal of an attached volume. *)
Definition removeVolume (v : Volume) (volumeId : string) : M (option error) :=
  let errList : list error := [] in
  err <- perform (DetachVolume volumeId) (fun t => detachVolume w t volumeId) ;;
  let errList := match err with Some e => errList ++ [e] | None => errList end in
  err <- perform (WaitVolumeAvailable volumeId 20)
                 (fun t => waitVolumeAvailable w t volumeId 20) ;;
  let errList := match err with Some e => errList ++ [e] | None => errList end in
  err <- perform (DeleteVolume volumeId) (fun t => deleteVolume w t volumeId) ;;
  let errList := match err with Some e => errList ++ [e] | None => errList end in
  ret (errors.Join (map Some errList)).

(** [instanceHasCapacity]: whether the instance accepts one more volume,
    and the number of volumes observed. *)
Definition instanceHasCapacity (v : Volume) : M (bool * Z * option error) :=
  out <- perform (DescribeVolumes (InstanceId (Host v)))
                 (fun t => describeVolumes w t (InstanceId (Host v))) ;;
  match out with
  | inr err => ret (false, 0, Some err)
  | inl volumes =>
      let count := Z.of_nat (List.length volumes) in
      if Go.wrap32 count >? MaxAttachedVolumes v then ret (false, count, None)
      else ret (true, count, None)
  end.

Fixpoint awaitDevice (ticks : nat) (device : string) : M (option error) :=
  match ticks with
  | O => ret (Some (ErrLocalWaitTimeout device))
  | S ticks' =>
      ' (b, err) <- isAvailable device ;;
      match err with
      | Some e => ret (Some e)
      | None => if negb b then ret None else awaitDevice ticks' device
      end
  end.

(** [localVolAvailabilityWaiter]: probe on every tick until the device
    appears under /dev or the time limit expires. *)
Definition localVolAvailabilityWaiter (device : string) (timeoutSec : Z) : M (option error) :=
  fun t => awaitDevice (ticksBeforeTimeout w t timeoutSec) device t.

Fixpoint appendHostTags (volumeTags hostTags : list types.Tag) : option (list types.Tag) :=
  match hostTags with
  | [] => Some volumeTags
  | t :: rest =>
      match types.Key t with
      | None => None
      | Some key =>
          if negb (Go.HasPrefix key "aws:") then appendHostTags (volumeTags ++ [t]) rest
          else appendHostTags volumeTags rest
      end
  end.

(** [buildVolumeTags] builds the tags of a new volume. [None]: a host tag
    without key was dereferenced. *)
Definition buildVolumeTags (v : Volume) (now : unit -> Time) : option (list types.Tag) :=
  let volumeTags :=
    [ types.mkTag (Some "source-instance"%string) (Some (InstanceId (Host v)));
      types.mkTag (Some "source-instance-arn"%string) (Some (InstanceArn (Host v)));
      types.mkTag (Some "ebs-autoscale-id"%string) (Some (Id v));
      types.mkTag (Some "ebs-autoscale-creation-time"%string) (Some (TimeString (now tt))) ] in
  appendHostTags volumeTags (Tags (Host v)).

(** [createVolumeOutputToVolume]: from [ec2.CreateVolumeOutput] to [types.Volume]. *)
Definition createVolumeOutputToVolume (o : ec2.CreateVolumeOutput) : types.Volume :=
  types.mkVolume
    (ec2.oAttachments o) (ec2.oAvailabilityZone o) (ec2.oCreateTime o)
    (ec2.oEncrypted o) (ec2.oFastRestored o) (ec2.oIops o) (ec2.oKmsKeyId o)
    (ec2.oMultiAttachEnabled o) (ec2.oOutpostArn o) (ec2.oSize o)
    (ec2.oSnapshotId o) (ec2.oSseType o) (ec2.oState o) (ec2.oTags o)
    (ec2.oThroughput o) (ec2.oVolumeId o) (ec2.oVolumeType o).

(** [createAndAttachEbsVolume] creates and attaches a volume of the given
    size. It returns the device, and the receiver as the call leaves it. *)
Definition createAndAttachEbsVolume (v : Volume) (sizeGb : Z) : M (outcome string * Volume) :=
  match managedVolumeSizeGb v with
  | None => ret (Panic, v)
  | Some volSize =>
  if volSize >? MaxLogicalSizeGb v then
    ret (Err (ErrMaxLogicalSizeGbExceeded (MaxLogicalSizeGb v) volSize), v)
  else
  if Go.len32 (ManagedVolumes v) =? MaxCreatedVolumes v then
    ret (Err (ErrMaxCreatedVolumesReached (MaxCreatedVolumes v)
                (Z.of_nat (List.length (ManagedVolumes v)))), v)
  else
  (* the attached volumes could have changed since we last looked *)
  ' (c, totalVolumes, err) <- instanceHasCapacity v ;;
  match err with
  | Some e => ret (Err e, v)
  | None =>
  if negb c then
    ret (Err (ErrMaxAttachedVolumesExceeded (MaxAttachedVolumes v) totalVolumes), v)
  else
  dev <- getNextLogicalDevice v ;;
  match dev with
  | Err e => ret (Err e, v)
  | Panic => ret (Panic, v)
  | Ok device =>
  match mapIndex volumeTypes (EbsType v) with
  | None => ret (Panic, v)
  | Some volumeType =>
  now <- perform TimeNow (timeNow w) ;;
  match buildVolumeTags v (fun _ => now) with
  | None => ret (Panic, v)
  | Some tags =>
  let input :=
    ec2.mkCreateVolumeInput (Some (AvailabilityZone (Host v))) volumeType
      (Some sizeGb) (Iops v) (ThroughPut v) None tags in
  created <- perform (CreateVolumeCall input) (fun t => createVolume w t input) ;;
  match created with
  | inr e => ret (Err e, v)
  | inl vol =>
  match ec2.oVolumeId vol with
  | None => ret (Panic, v)
  | Some volumeId =>
  (* wait till the volume is available *)
  err <- perform (WaitVolumeAvailable volumeId 20)
                 (fun t => waitVolumeAvailable w t volumeId 20) ;;
  match err with
  | Some e =>
      err2 <- removeVolume v volumeId ;;
      match err2 with
      | Some e2 => ret (Err (JoinError [e; e2]), v)
      | None => ret (Err e, v)
      end
  | None =>
  err <- perform (AttachVolume device (InstanceId (Host v)) volumeId)
                 (fun t => attachVolume w t device (InstanceId (Host v)) volumeId) ;;
  match err with
  | Some e =>
      err2 <- removeVolume v volumeId ;;
      match err2 with
      | Some e2 => ret (Err (JoinError [e; e2]), v)
      | None => ret (Err e, v)
      end
  | None =>
  let v := setManagedVolumes v (ManagedVolumes v ++ [createVolumeOutputToVolume vol]) in
  (* set the volume to be deleted on termination *)
  err <- perform (ModifyInstanceAttribute (InstanceId (Host v)) device true volumeId)
                 (fun t => modifyInstanceAttribute w t (InstanceId (Host v)) device true volumeId) ;;
  match err with
  | Some e =>
      err2 <- removeVolume v volumeId ;;
      match err2 with
      | Some e2 => ret (Err (JoinError [e; e2]), v)
      | None => ret (Err e, v)
      end
  | None =>
  (* wait till the device is actually available in /dev *)
  err <- localVolAvailabilityWaiter device 50 ;;
  match err with
  | Some e => ret (Err e, v)
  | None => ret (Ok device, v)
  end end end end end end end end end end end.

(** [CreateVolume] creates the volume and the filesystem. *)
Definition CreateVolume (v : Volume) : M (outcome unit * Volume) :=
  ' (device, v) <- createAndAttachEbsVolume v (InitialSizeGb v) ;;
  match device with
  | Err e => ret (Err e, v)
  | Panic => ret (Panic, v)
  | Ok device =>
      err <- perform (FsCreateFileSystem device)
                     (fun t => filesystem.CreateFileSystem (Fs v) t device) ;;
      match err with
      | Some e => ret (Err e, v)
      | None => ret (Ok tt, v)
      end
  end.

(** [GrowVolume] grows the volume by the calculated increase. *)
Definition GrowVolume (v : Volume) : M (outcome unit * Volume) :=
  let (sizeIncreasePerVolume, err) := calculateSizeIncreasePerVolume v in
  match err with
  | Some e => ret (Err e, v)
  | None =>
  ' (device, v) <- createAndAttachEbsVolume v sizeIncreasePerVolume ;;
  match device with
  | Err e => ret (Err e, v)
  | Panic => ret (Panic, v)
  | Ok device =>
      (* after attaching, expand the filesystem across the new device *)
      err <- perform (FsGrowFileSystem device)
                     (fun t => filesystem.GrowFileSystem (Fs v) t device) ;;
      match err with
      | Some e => ret (Err e, v)
      | None => ret (Ok tt, v)
      end
  end end.

(** The inner loop of [NewVolume]: does a tag of the volume carry the id?
    [None]: a tag without key, or a matching key without value. *)
Fixpoint hasAutoscaleTag (ebsAutoscaleId : string) (tags : list types.Tag) : option bool :=
  match tags with
  | [] => Some false
  | t :: rest =>
      match types.Key t with
      | None => None
      | Some key =>
          if String.eqb key "ebs-autoscale-id" then
            match types.Value t with
            | None => None
            | Some value =>
                if String.eqb value ebsAutoscaleId then Some true
                else hasAutoscaleTag ebsAutoscaleId rest
            end
          else hasAutoscaleTag ebsAutoscaleId rest
      end
  end.

(** The outer loop of [NewVolume]: the volumes created by this config. *)
Fixpoint findManaged (ebsAutoscaleId : string) (managedVolumes attachedVolumes : list types.Volume)
  : option (list types.Volume) :=
  match attachedVolumes with
  | [] => Some managedVolumes
  | v :: rest =>
      match hasAutoscaleTag ebsAutoscaleId (types.Tags v) with
      | None => None
      | Some true => findManaged ebsAutoscaleId (managedVolumes ++ [v]) rest
      | Some false => findManaged ebsAutoscaleId managedVolumes rest
      end
  end.

(** [NewVolume]: rebuild the engine's state from the provider. *)
Definition NewVolume (host : Ec2Host) (fs : filesystem.FileSystem) (cfg : VolumeCfg)
  : M (outcome Volume) :=
  err <- perform (LoadDefaultConfig (Region host)) (fun t => loadDefaultConfig w t (Region host)) ;;
  match err with
  | Some e => ret (Err e)
  | None =>
  (* get a list of all attached volumes *)
  out <- perform (DescribeVolumes (InstanceId host))
                 (fun t => describeVolumes w t (InstanceId host)) ;;
  match out with
  | inr e => ret (Err e)
  | inl attachedVolumes =>
  (* find the volumes created by this config *)
  let ebsAutoscaleId := Md5String (filesystem.GetMountPoint fs) in
  match findManaged ebsAutoscaleId [] attachedVolumes with
  | None => ret Panic
  | Some managedVolumes =>
      ret (Ok (mkVolume host fs ebsAutoscaleId (cfgEbsType cfg) (EbsThroughput cfg)
                 (EbsIops cfg) (cfgInitialSizeGb cfg) (MaxSizeGb cfg)
                 (EbsMaxAttachedVolumes cfg) (EbsMaxCreatedVolumes cfg) managedVolumes))
  end end end.

End Engine.

(** ** Scenarios: concrete hosts, filesystems, volumes and worlds *)

Module Scenario.

Definition host : Ec2Host :=
  mkEc2Host "bob" "arn:bob" "eu-west-1a" "eu-west-1"
    [ types.mkTag (Some "HostName"%string) (Some "Mock Host Name 1"%string);
      types.mkTag (Some "aws:HostLabel"%string) (Some "excluded"%string);
      types.mkTag (Some "HostLabel"%string) (Some "Mock Host label 1"%string) ].

(** The mock filesystem of the tests: fixed sizes, one error for all methods. *)
Definition mockFS (size used free : Z) (err : option error) : filesystem.FileSystem :=
  filesystem.mkFileSystem (fun _ _ => err) (fun _ _ => err) "/mnt/ebs-autoscale"
    (fun _ => (size, used, free, err)).

Definition fs : filesystem.FileSystem := mockFS 200 100 100 None.

(** A volume as the provider reports it, of the given id, size and tags. *)
Definition ebsVolume (id : string) (size : Z) (tags : list types.Tag) : types.Volume :=
  types.mkVolume [] None None None None None None None None (Some size) None
    ""%string "in-use"%string tags None (Some id) "gp3"%string.

Definition idTag (id : string) : types.Tag :=
  types.mkTag (Some "ebs-autoscale-id"%string) (Some id).

(** The engine's state for the configuration 50 Gb initial, 200 Gb
    maximum, 16 attached and [maxCreated] created volumes at most. *)
Definition volume (maxCreated : Z) (managed : list types.Volume) : Volume :=
  mkVolume host fs "vol_id" "gp3" None None 50 200 16 maxCreated managed.

(** What the provider answers to a create call: the requested size and
    tags, under the id [vol-new]. *)
Definition created (input : ec2.CreateVolumeInput) : ec2.CreateVolumeOutput :=
  ec2.mkCreateVolumeOutput [] (ec2.AvailabilityZone input) None None None
    (ec2.Iops input) None None None (ec2.Size input) None ""%string
    "creating"%string (ec2.TagSpecifications input) (ec2.Throughput input)
    (Some "vol-new"%string) (ec2.VolumeType_ input).

(** A device node exists once the volume has been attached to it. *)
Fixpoint attachedTo (path : string) (t : trace) : bool :=
  match t with
  | [] => false
  | AttachVolume device _ _ :: rest => String.eqb device path || attachedTo path rest
  | _ :: rest => attachedTo path rest
  end.

(** A cooperative world: every call succeeds, the instance has the
    volumes [attached], the paths [nodes] exist under /dev, and
    [markError] is what [ModifyInstanceAttribute] answers. *)
Definition world (attached : list types.Volume) (nodes : list string)
                 (markError : option error) : World :=
  mkWorld
    (fun _ _ => None)
    (fun _ _ => inl attached)
    (fun _ input => inl (created input))
    (fun _ _ _ => None)
    (fun _ _ _ _ => None)
    (fun _ _ _ _ _ => markError)
    (fun _ _ => None)
    (fun _ _ => None)
    (fun t path =>
       if existsb (String.eqb path) nodes || attachedTo path t then None
       else Some (PathNotExist path))
    (fun _ => mkTime "2024-01-01 00:00:00 +0000 UTC")
    (fun _ _ => 1000%nat)
    (fun _ => - 2 ^ 31).

(** What [os.Stat] answers when exactly the paths [nodes] exist. *)
Definition devProbe (nodes : list string) (path : string) : option error :=
  if existsb (String.eqb path) nodes then None else Some (PathNotExist path).

(** A world at rest: as [world], on a /dev that holds exactly [nodes]. *)
Definition quiet (nodes : list string) : World :=
  mkWorld
    (fun _ _ => None)
    (fun _ _ => inl [])
    (fun _ input => inl (created input))
    (fun _ _ _ => None)
    (fun _ _ _ _ => None)
    (fun _ _ _ _ _ => None)
    (fun _ _ => None)
    (fun _ _ => None)
    (fun _ path => devProbe nodes path)
    (fun _ => mkTime "2024-01-01 00:00:00 +0000 UTC")
    (fun _ _ => 1000%nat)
    (fun _ => - 2 ^ 31).

(** A world in which the calls to the provider fail as [fails] tells, on
    an instance without other volumes and a /dev without other nodes. *)
Definition faulty (fails : Call -> option error) : World :=
  mkWorld
    (fun _ _ => None)
    (fun _ _ => inl [])
    (fun _ input => inl (created input))
    (fun _ volumeId maxWait => fails (WaitVolumeAvailable volumeId maxWait))
    (fun _ device instanceId volumeId => fails (AttachVolume device instanceId volumeId))
    (fun _ instanceId device flag volumeId =>
       fails (ModifyInstanceAttribute instanceId device flag volumeId))
    (fun _ volumeId => fails (DetachVolume volumeId))
    (fun _ volumeId => fails (DeleteVolume volumeId))
    (fun t path => if attachedTo path t then None else Some (PathNotExist path))
    (fun _ => mkTime "2024-01-01 00:00:00 +0000 UTC")
    (fun _ _ => 1000%nat)
    (fun _ => - 2 ^ 31).

(** The marking for deletion on termination is refused. *)
Definition markFails (c : Call) : option error :=
  match c with
  | ModifyInstanceAttribute _ _ _ _ => Some (ExternalError "mark refused")
  | _ => None
  end.

(** The attachment is refused, and so is the deletion that follows. *)
Definition attachAndDeleteFail (c : Call) : option error :=
  match c with
  | AttachVolume _ _ _ => Some (ExternalError "attach refused")
  | DeleteVolume _ => Some (ExternalError "delete refused")
  | _ => None
  end.

(** The state after the initial volume and two growths of 75 Gb. *)
Definition grown : list types.Volume :=
  [ ebsVolume "vol-1" 50 []; ebsVolume "vol-2" 75 []; ebsVolume "vol-3" 75 [] ].

(** Seventeen volumes attached to the instance. *)
Definition crowded : list types.Volume :=
  repeat (ebsVolume "vol-other" 8 []) 17.

Definition cfg : VolumeCfg :=
  mkVolumeCfg "/mnt/ebs-autoscale" "gp3" None None 50 200 16 3.

(** Four volumes of 75 Gb left by earlier runs on this mount point, and the
    root volume of the instance. *)
Definition leftovers : list types.Volume :=
  [ ebsVolume "vol-root" 8 [types.mkTag (Some "Name"%string) (Some "root"%string)];
    ebsVolume "vol-1" 75 [idTag (Md5String "/mnt/ebs-autoscale")];
    ebsVolume "vol-2" 75 [idTag (Md5String "/mnt/ebs-autoscale")];
    ebsVolume "vol-3" 75 [idTag (Md5String "/mnt/ebs-autoscale")];
    ebsVolume "vol-4" 75 [idTag (Md5String "/mnt/ebs-autoscale")] ].

End Scenario.

(** ** Predicates of the statements *)

(** The last stage of [binary_round_aux] at binary64: the mantissa is
    normalised once more after the rounding. *)
Definition finish (sx : bool) (m : Z) (e : Z) : spec_float :=
  let '(mrs, e') := shr_fexp 53 1024 m e loc_Exact in
  match shr_m mrs with
  | Z0 => S754_zero sx
  | Zpos m' => if e' <=? 1024 - 53 then S754_finite sx m' e' else S754_infinity sx
  | _ => S754_nan
  end.

(** Does the key of the tag begin with the prefix reserved by the provider? *)
Definition reservedKey (t : types.Tag) : bool :=
  match types.Key t with
  | Some key => Go.HasPrefix key "aws:"
  | None => false
  end.

Definition keyed (t : types.Tag) : Prop := types.Key t <> None.

Definition populated (t : types.Tag) : Prop :=
  types.Key t <> None /\ types.Value t <> None.

(** Is [t] the tag [ebs-autoscale-id = id]? *)
Definition isIdTag (id : string) (t : types.Tag) : bool :=
  match types.Key t, types.Value t with
  | Some key, Some value => String.eqb key "ebs-autoscale-id" && String.eqb value id
  | _, _ => false
  end.

(** Does the volume carry the tag [ebs-autoscale-id = id]? *)
Definition carriesId (id : string) (vol : types.Volume) : bool :=
  existsb (isIdTag id) (types.Tags vol).

(** A view of /dev that does not change: what [os.Stat] answers on a path. *)
Definition nodeExists (probe : string -> option error) (path : string) : Prop :=
  probe path = None.

Definition nodeAbsent (probe : string -> option error) (path : string) : Prop :=
  exists e, probe path = Some e /\ errors.IsNotExist e = true.

(** The 26 candidates of the device allocator, in the order of the scan. *)
Definition candidates : list string :=
  [ "/dev/xvdba"; "/dev/xvdbb"; "/dev/xvdbc"; "/dev/xvdbd"; "/dev/xvdbe";
    "/dev/xvdbf"; "/dev/xvdbg"; "/dev/xvdbh"; "/dev/xvdbi"; "/dev/xvdbj";
    "/dev/xvdbk"; "/dev/xvdbl"; "/dev/xvdbm"; "/dev/xvdbn"; "/dev/xvdbo";
    "/dev/xvdbp"; "/dev/xvdbq"; "/dev/xvdbr"; "/dev/xvdbs"; "/dev/xvdbt";
    "/dev/xvdbu"; "/dev/xvdbv"; "/dev/xvdbw"; "/dev/xvdbx"; "/dev/xvdby";
    "/dev/xvdbz" ]%string.

(** ** The runs of the create-and-attach protocol *)

Section Runs.

Variable w : World.

(** The capacity probe. *)
Definition probeCall (v : Volume) : Call := DescribeVolumes (InstanceId (Host v)).

(** The probe, issued on trace [t], let the attempt go on. *)
Definition probePassed (v : Volume) (t : trace) : Prop :=
  exists volumes,
    describeVolumes w t (InstanceId (Host v)) = inl volumes
    /\ Go.wrap32 (Z.of_nat (List.length volumes)) <= MaxAttachedVolumes v.

(** The trace on which the create call is issued: the probe, the scan of
    /dev and the reading of the clock have been made. *)
Definition atCreate (v : Volume) (t : trace) (paths : list string) : trace :=
  t ++ probeCall v :: map OsStat paths ++ [TimeNow].

(** What the provider answers to a step of the protocol issued on [t]. *)
Definition stepError (t : trace) (step : Call) : option error :=
  match step with
  | WaitVolumeAvailable volumeId maxWait => waitVolumeAvailable w t volumeId maxWait
  | AttachVolume device instanceId volumeId => attachVolume w t device instanceId volumeId
  | ModifyInstanceAttribute instanceId device flag volumeId =>
      modifyInstanceAttribute w t instanceId device flag volumeId
  | _ => None
  end.

(** [errors.Join(err, err2)] when the rollback returned [err2], else [err]. *)
Definition withRollback (e : error) (rollback : option error) : error :=
  match rollback with
  | Some e2 => JoinError [e; e2]
  | None => e
  end.

(** The receiver once the record of [vol] has been appended. *)
Definition appended (v : Volume) (vol : ec2.CreateVolumeOutput) : Volume :=
  setManagedVolumes v (ManagedVolumes v ++ [createVolumeOutputToVolume vol]).

Definition notOk {A : Type} (r : outcome A) : Prop := forall a, r <> Ok a.

(** The steps [steps], issued in turn after [before], all succeed. *)
Fixpoint allSucceed (before : trace) (steps : list Call) : Prop :=
  match steps with
  | [] => True
  | step :: rest => stepError before step = None /\ allSucceed (before ++ [step]) rest
  end.

(** The steps that follow the creation of volume [volumeId] for [device]:
    the steps already made, the step now made, and the receiver then. *)
Inductive protocolStep (v : Volume) (vol : ec2.CreateVolumeOutput) (device volumeId : string)
  : list Call -> Call -> Volume -> Prop :=
  | stepWait :
      protocolStep v vol device volumeId
        [] (WaitVolumeAvailable volumeId 20) v
  | stepAttach :
      protocolStep v vol device volumeId
        [WaitVolumeAvailable volumeId 20]
        (AttachVolume device (InstanceId (Host v)) volumeId) v
  | stepMark :
      protocolStep v vol device volumeId
        [WaitVolumeAvailable volumeId 20; AttachVolume device (InstanceId (Host v)) volumeId]
        (ModifyInstanceAttribute (InstanceId (Host v)) device true volumeId)
        (appended v vol).

(** The ways an attempt started on trace [t] ends: result, receiver, trace. *)
Inductive attempt (v : Volume) (sizeGb : Z) (t : trace)
  : outcome string -> Volume -> trace -> Prop :=
  (** refused by a pre-check (or stopped by a record without size) *)
  | attempt_refused r :
      notOk r ->
      attempt v sizeGb t r v t
  (** stopped between the probe and the create call *)
  | attempt_not_created r paths clock :
      notOk r ->
      clock = [] \/ clock = [TimeNow] ->
      attempt v sizeGb t r v (t ++ probeCall v :: map OsStat paths ++ clock)
  (** the create call failed, or answered without volume id *)
  | attempt_create_failed r paths input :
      probePassed v t ->
      ec2.Size input = Some sizeGb ->
      match createVolume w (atCreate v t paths) input with
      | inr e => r = Err e
      | inl vol => ec2.oVolumeId vol = None /\ r = Panic
      end ->
      attempt v sizeGb t r v (atCreate v t paths ++ [CreateVolumeCall input])
  (** a step after the creation failed, and the volume was rolled back *)
  | attempt_rolled_back paths input vol device volumeId made step v' e rollback t' :
      probePassed v t ->
      ec2.Size input = Some sizeGb ->
      createVolume w (atCreate v t paths) input = inl vol ->
      ec2.oVolumeId vol = Some volumeId ->
      protocolStep v vol device volumeId made step v' ->
      allSucceed (atCreate v t paths ++ [CreateVolumeCall input]) made ->
      stepError (atCreate v t paths ++ CreateVolumeCall input :: made) step = Some e ->
      removeVolume w v' volumeId (atCreate v t paths ++ CreateVolumeCall input :: made ++ [step])
        = (rollback, t') ->
      attempt v sizeGb t (Err (withRollback e rollback)) v' t'
  (** created, available, attached and marked: the device is awaited *)
  | attempt_attached r paths input vol device volumeId probes :
      probePassed v t ->
      ec2.Size input = Some sizeGb ->
      createVolume w (atCreate v t paths) input = inl vol ->
      ec2.oVolumeId vol = Some volumeId ->
      allSucceed (atCreate v t paths ++ [CreateVolumeCall input])
        [ WaitVolumeAvailable volumeId 20;
          AttachVolume device (InstanceId (Host v)) volumeId;
          ModifyInstanceAttribute (InstanceId (Host v)) device true volumeId ] ->
      r = Ok device \/ (exists e, r = Err e) ->
      attempt v sizeGb t r (appended v vol)
        (atCreate v t paths
           ++ [ CreateVolumeCall input;
                WaitVolumeAvailable volumeId 20;
                AttachVolume device (InstanceId (Host v)) volumeId;
                ModifyInstanceAttribute (InstanceId (Host v)) device true volumeId ]
           ++ map OsStat probes).

(** The calls of the compensation. *)
Definition isCompensation (c : Call) : bool :=
  match c with
  | DetachVolume _ | DeleteVolume _ => true
  | _ => false
  end.

End Runs.

(** ** Further predicates, and the rest of the package *)

(** The attempt started on [t] passes the pre-checks and the probe, finds
    [device] free, and creates by the call [input], issued on [tc], the
    volume [vol] of id [volumeId]. *)
Definition createdFor (w : World) (v : Volume) (sizeGb : Z) (t : trace)
    (device : string) (tc : trace) (input : ec2.CreateVolumeInput)
    (vol : ec2.CreateVolumeOutput) (volumeId : string) : Prop :=
  exists total volumes scanned volumeType tags,
    managedVolumeSizeGb v = Some total
    /\ total <= MaxLogicalSizeGb v
    /\ Go.len32 (ManagedVolumes v) <> MaxCreatedVolumes v
    /\ describeVolumes w t (InstanceId (Host v)) = inl volumes
    /\ Go.wrap32 (Z.of_nat (List.length volumes)) <= MaxAttachedVolumes v
    /\ scanDevices w deviceLetters (t ++ [probeCall v]) = (Ok device, scanned)
    /\ mapIndex volumeTypes (EbsType v) = Some volumeType
    /\ buildVolumeTags v (fun _ => timeNow w scanned) = Some tags
    /\ tc = scanned ++ [TimeNow]
    /\ input = ec2.mkCreateVolumeInput (Some (AvailabilityZone (Host v))) volumeType
                 (Some sizeGb) (Iops v) (ThroughPut v) None tags
    /\ createVolume w tc input = inl vol
    /\ ec2.oVolumeId vol = Some volumeId.

(** The sizes of the records, in order; [None] when a record has none. *)
Fixpoint recordedSizes (mvs : list types.Volume) : option (list Z) :=
  match mvs with
  | [] => Some []
  | mv :: rest =>
      match types.Size mv, recordedSizes rest with
      | Some size, Some sizes => Some (size :: sizes)
      | _, _ => None
      end
  end.

(** The sum of the sizes, as an integer without bound. *)
Definition sumZ (sizes : list Z) : Z := fold_right Z.add 0 sizes.

(** The trace after [k] probes of [device] issued from [t]. *)
Definition afterProbes (t : trace) (device : string) (k : nat) : trace :=
  t ++ repeat (OsStat device) k.

(** The first [k] probes of [device] issued from [t] found no node. *)
Definition foundNoNode (w : World) (t : trace) (device : string) (k : nat) : Prop :=
  forall j, (j < k)%nat ->
    exists e, osStat w (afterProbes t device j) device = Some e /\ errors.IsNotExist e = true.

(** [v'] is [v] with the records [new] appended, and nothing else changed. *)
Definition extendedBy (v : Volume) (new : list types.Volume) (v' : Volume) : Prop :=
  v' = setManagedVolumes v (ManagedVolumes v ++ new).

(** The calls to the filesystem backend that change it. *)
Definition isFsChange (c : Call) : bool :=
  match c with
  | FsCreateFileSystem _ | FsGrowFileSystem _ => true
  | _ => false
  end.

(** The attempt ended without device, and the operation ends as it did. *)
Definition sameFailure (attempt : outcome string) (r : outcome unit) : Prop :=
  (exists e, attempt = Err e /\ r = Err e) \/ (attempt = Panic /\ r = Panic).

(** The calls of an attempt that succeeds. *)
Definition quietCall (c : Call) : bool := negb (isFsChange c) && negb (isCompensation c).

(** The provider reports a volume it creates with the tags it was given. *)
Definition echoesTags (w : World) : Prop :=
  forall t input vol,
    createVolume w t input = inl vol -> ec2.oTags vol = ec2.TagSpecifications input.

(** Every record is recognised by the discovery under the id of [v]. *)
Definition allDiscoverable (v : Volume) : Prop :=
  Forall (fun vol => hasAutoscaleTag (Id v) (types.Tags vol) = Some true) (ManagedVolumes v).

(** ** The monitor ([monitor.go]) *)

Record MonitorVolume : Type := mkMonitorVolume {
  Volume_ : Volume;
  PollIntervalSec : Z;
  PercentageFull : spec_float
}.

Definition NewMonitor (volume : Volume) (pollIntervalSec : Z) (percentageFull : spec_float)
  : MonitorVolume :=
  mkMonitorVolume volume pollIntervalSec percentageFull.

(** [a >= b] on floats: false when either is a NaN. *)
Definition geFloat32 (a b : spec_float) : bool := SFleb b a.

(** What the [select] of [Run] receives: a tick of the ticker, or the end
    of the context. *)
Inductive Wake : Type :=
  | TickerC
  | CtxDone.

Section Monitor.

Variable w : World.

(** [assessAndGrow] checks the filesystem usage and grows the underlying
    volume if required. The receiver is a value: [GrowVolume] works on the
    copy of [m.Volume] that this call holds, and the records it appends
    are gone with the copy when the call returns. *)
Definition assessAndGrow (m : MonitorVolume) : M (outcome unit) :=
  ' (usage, err) <- TotalUsagePercent (Volume_ m) ;;
  match err with
  | Some e => ret (Err e)
  | None =>
      if geFloat32 usage (PercentageFull m) then
        ' (r, _) <- GrowVolume w (Volume_ m) ;;
        match r with
        | Err e => ret (Err e)
        | Panic => ret Panic
        | Ok _ => ret (Ok tt)
        end
      else ret (Ok tt)
  end.

(** The loop of [Run] on the wake-ups it receives. [None]: the loop is
    still waiting when they have all been received. *)
Fixpoint monitorLoop (m : MonitorVolume) (wakes : list Wake) : M (option (outcome unit)) :=
  match wakes with
  | [] => ret None
  | TickerC :: rest =>
      r <- assessAndGrow m ;;
      match r with
      | Err e => ret (Some (Err e))
      | Panic => ret (Some Panic)
      | Ok _ => monitorLoop m rest
      end
  | CtxDone :: _ => ret (Some (Ok tt))
  end.

(** [Run] assesses the file system usage on every tick. [time.NewTicker]
    panics on an interval that is not positive. *)
Definition Run (m : MonitorVolume) (wakes : list Wake) : M (option (outcome unit)) :=
  if PollIntervalSec m <=? 0 then ret (Some Panic)
  else monitorLoop m wakes.

End Monitor.

(** The inputs of the create calls of a trace, in order. *)
Fixpoint createCalls (t : trace) : list ec2.CreateVolumeInput :=
  match t with
  | [] => []
  | CreateVolumeCall input :: rest => input :: createCalls rest
  | _ :: rest => createCalls rest
  end.

(** The number of ticks among the wake-ups. *)
Definition ticksOf (wakes : list Wake) : nat :=
  List.length (filter (fun k => match k with TickerC => true | CtxDone => false end) wakes).

(** Usage is at or above the threshold of [m] at every poll. *)
Definition alwaysFull (m : MonitorVolume) : Prop :=
  forall t, exists usage,
    fst (TotalUsagePercent (Volume_ m) t) = (usage, None)
    /\ geFloat32 usage (PercentageFull m) = true.

(** An instance: the volume of the scenarios with one record of 50 Gb and
    at most three volumes, polled every 3 seconds, grown from 50 percent. *)
Module MonitorScenario.

Definition monitor : MonitorVolume :=
  NewMonitor (Scenario.volume 3 [Scenario.ebsVolume "vol-1" 50 []]) 3
    (float32.const 50).

End MonitorScenario.

(** The digits of the lower-case hexadecimal notation. *)
Definition isLowerHex (c : ascii) : bool :=
  existsb (Ascii.eqb c) (list_ascii_of_string "0123456789abcdef").

(** ** Calls traced over any vocabulary *)

Definition Traced (C A : Type) : Type := list C -> A * list C.

Definition retT {C A : Type} (a : A) : Traced C A := fun t => (a, t).

Definition bindT {C A B : Type} (m : Traced C A) (k : A -> Traced C B) : Traced C B :=
  fun t => let (a, t') := m t in k a t'.

Definition performT {C R : Type} (c : C) (answer : list C -> R) : Traced C R :=
  fun t => (answer t, t ++ [c]).

Declare Scope calls_scope.
Delimit Scope calls_scope with calls.
Notation "x <- m ;; k" := (bindT m (fun x => k))
  (at level 100, m at next level, right associativity) : calls_scope.
Notation "' p <- m ;; k" := (bindT m (fun x => match x with p => k end))
  (at level 100, p pattern, m at next level, right associativity) : calls_scope.

(** ** The CloudWatch log writer *)

(** The SDK's [cloudwatchlogs/types.InputLogEvent]. *)
Record InputLogEvent : Type := mkInputLogEvent {
  Message : option string;
  Timestamp : option Z
}.

(** What the writer does to the outside. [ErrChannelSend] is the send
    [c.ErrChannel <- err], which is taken to complete: the channel has
    room, or a reader. *)
Inductive LogCall : Type :=
  | ClockNow
  | UuidNew
  | CreateLogStream (logGroupName logStreamName : string)
  | PutLogEvents (logEvents : list InputLogEvent) (logGroupName logStreamName : string)
  | ErrChannelSend (err : error).

(** The outside of the writer: the clock in nanoseconds since the epoch,
    the generator of UUIDs, and the two calls of the log service. *)
Record LogWorld : Type := mkLogWorld {
  unixNano : list LogCall -> Z;
  uuidString : list LogCall -> string;
  createLogStreamAnswer : list LogCall -> string -> string -> option error;
  putLogEventsAnswer : list LogCall -> list InputLogEvent -> string -> string -> option error
}.

Record CwLogWriter : Type := mkCwLogWriter {
  LogGroupName : string;
  PollInterval : Z;
  MaxBatchSize : Z
}.

(** [eventsBuffer]: the events, under a mutex that a sequential run does
    not observe. *)
Record eventsBuffer : Type := mkEventsBuffer { events : list InputLogEvent }.

Definition add (b : eventsBuffer) (event : InputLogEvent) : eventsBuffer :=
  mkEventsBuffer (events b ++ [event]).

(** [clear] returns the events and leaves the buffer empty. *)
Definition clear (b : eventsBuffer) : list InputLogEvent * eventsBuffer :=
  (events b, mkEventsBuffer []).

Definition size (b : eventsBuffer) : Z := Z.of_nat (List.length (events b)).

(** The line feed. *)
Definition LF : ascii := ascii_of_nat 10.

(** [bufio.Reader.ReadBytes(delim)] on a reader over the bytes [r]: the
    bytes up to and including the first [delim], the reader after them,
    and whether the end was met before a [delim] ([io.EOF]). *)
Fixpoint ReadBytes (delim : ascii) (r : list ascii) : list ascii * list ascii * bool :=
  match r with
  | [] => ([], [], true)
  | c :: rest =>
      if Ascii.eqb c delim then ([c], rest, false)
      else let '(b, r', eof) := ReadBytes delim rest in (c :: b, r', eof)
  end.

(** What one select of [processLogs] receives. *)
Inductive Received : Type :=
  | Expire
  | Done
  | LogLine (logLine : list ascii)
  | Closed.

Section LogWriter.

Variable w : LogWorld.

Local Open Scope calls_scope.

(** The loop of [buffer]; every round but the last consumes a byte of the
    reader at least, so that [fuel] above the length of [r] is never used up. *)
Fixpoint bufferLoop (fuel : nat) (r : list ascii) (evs : eventsBuffer) (bytesRead : Z)
  : Traced LogCall (eventsBuffer * Z) :=
  match fuel with
  | O => retT (evs, bytesRead)
  | S fuel' =>
      let '(b, r', eof) := ReadBytes LF r in
      match b with
      | [] => if eof then retT (evs, bytesRead) else bufferLoop fuel' r' evs bytesRead
      | _ =>
          now <- performT ClockNow (unixNano w) ;;
          let evs :=
            add evs (mkInputLogEvent (Some (string_of_list_ascii b))
                                     (Some (Z.quot now 1000000))) in
          let bytesRead := bytesRead + Z.of_nat (List.length b) in
          if eof then retT (evs, bytesRead) else bufferLoop fuel' r' evs bytesRead
      end
  end.

(** [buffer] splits up input into individual log events and inserts them
    into the supplied buffer; it returns the buffer and the bytes read. *)
Definition buffer (b : list ascii) (evs : eventsBuffer) : Traced LogCall (eventsBuffer * Z) :=
  bufferLoop (S (List.length b)) b evs 0.

(** [createLogStream] makes a new log stream with a UUID in its name. *)
Definition createLogStream (c : CwLogWriter) : Traced LogCall (string * option error) :=
  u <- performT UuidNew (uuidString w) ;;
  let name := ("ebs-autoscale-" ++ u)%string in
  err <- performT (CreateLogStream (LogGroupName c) name)
                  (fun t => createLogStreamAnswer w t (LogGroupName c) name) ;;
  retT (name, err).

(** [writeLogs] writes the logs to the given stream, which it creates
    first when the name is empty; it returns the name of the stream. *)
Definition writeLogs (c : CwLogWriter) (logs : list InputLogEvent) (logStreamName : string)
  : Traced LogCall (string * option error) :=
  ' (logStreamName, err) <-
      (if String.eqb logStreamName "" then createLogStream c
       else retT (logStreamName, None)) ;;
  match err with
  | Some e => retT (logStreamName, Some e)
  | None =>
      err <- performT (PutLogEvents logs (LogGroupName c) logStreamName)
                      (fun t => putLogEventsAnswer w t logs (LogGroupName c) logStreamName) ;;
      match err with
      | Some e => retT (logStreamName, Some e)
      | None => retT (logStreamName, None)
      end
  end.

(** The inner loop of [processLogs]: the batch gathered, whether the main
    loop goes on, and what is still to be received. [None]: the loop is
    still waiting when everything has been received. *)
Fixpoint gather (c : CwLogWriter) (currentBatch : eventsBuffer) (received : list Received)
  : Traced LogCall (option (eventsBuffer * bool * list Received)) :=
  match received with
  | [] => retT None
  | Expire :: rest => retT (Some (currentBatch, true, rest))
  | Done :: rest => retT (Some (currentBatch, false, rest))
  | Closed :: rest =>
      ' (currentBatch, _) <- buffer [] currentBatch ;;
      retT (Some (currentBatch, false, rest))
  | LogLine logLine :: rest =>
      ' (currentBatch, _) <- buffer logLine currentBatch ;;
      if size currentBatch mod 2 ^ 32 =? MaxBatchSize c
      then retT (Some (currentBatch, true, rest))
      else gather c currentBatch rest
  end.

(** The main loop of [processLogs]; every round receives once at least.
    [Some tt]: the function returned; [None]: it is still waiting. *)
Fixpoint processLoop (fuel : nat) (c : CwLogWriter) (logStreamName : string)
                     (received : list Received) : Traced LogCall (option unit) :=
  match fuel with
  | O => retT None
  | S fuel' =>
      g <- gather c (mkEventsBuffer []) received ;;
      match g with
      | None => retT None
      | Some (currentBatch, mainProcessLoop, rest) =>
          logStreamName <-
            (if size currentBatch >? 0 then
               ' (l, err) <- writeLogs c (events currentBatch) logStreamName ;;
               _ <- match err with
                    | Some e => performT (ErrChannelSend e) (fun _ => tt)
                    | None => retT tt
                    end ;;
               (* keep track of the log stream and reuse it *)
               retT l
             else retT logStreamName) ;;
          if mainProcessLoop then processLoop fuel' c logStreamName rest
          else retT (Some tt)
      end
  end.

(** [processLogs] consumes the log lines, batches them and submits the
    batches to the log group. *)
Definition processLogs (c : CwLogWriter) (received : list Received)
  : Traced LogCall (option unit) :=
  processLoop (S (List.length received)) c "" received.

End LogWriter.

(** The bytes of the message of an event. *)
Definition messageBytes (e : InputLogEvent) : list ascii :=
  match Message e with
  | Some s => list_ascii_of_string s
  | None => []
  end.

(** A line with its terminator, and the rest of an input after its last
    terminator. *)
Definition isLine (l : list ascii) : Prop :=
  exists body, l = body ++ [LF] /\ ~ In LF body.

Definition isTail (l : list ascii) : Prop := l <> [] /\ ~ In LF l.

(** The pieces are lines, followed by one rest at most. *)
Definition linesThenTail (pieces : list (list ascii)) : Prop :=
  exists lines rest,
    pieces = lines ++ rest
    /\ Forall isLine lines
    /\ (rest = [] \/ exists l, rest = [l] /\ isTail l).

(** The [i]-th of the events [new], counted from 0, carries the reading of
    the clock made after [i] readings from [t], in milliseconds. *)
Definition stampedFrom (w : LogWorld) (t : list LogCall) (new : list InputLogEvent) : Prop :=
  forall i e,
    nth_error new i = Some e ->
    Timestamp e = Some (Z.quot (unixNano w (t ++ repeat ClockNow i)) 1000000).

(** The bytes of the log lines among what was received. *)
Fixpoint bytesOf (received : list Received) : list ascii :=
  match received with
  | [] => []
  | LogLine logLine :: rest => logLine ++ bytesOf rest
  | _ :: rest => bytesOf rest
  end.

(** The bytes of the messages of a batch. *)
Definition batchBytes (logs : list InputLogEvent) : list ascii :=
  List.concat (map messageBytes logs).

(** The bytes submitted to the log service by the calls of a trace. *)
Fixpoint putBytes (t : list LogCall) : list ascii :=
  match t with
  | [] => []
  | PutLogEvents logs _ _ :: rest => batchBytes logs ++ putBytes rest
  | _ :: rest => putBytes rest
  end.

(** The receptions that end [processLogs]. *)
Definition terminates (r : Received) : bool :=
  match r with
  | Done | Closed => true
  | _ => false
  end.

(** The calls keep to one stream: a stream is created only while none is
    known ([name] is empty), and every batch goes to the stream known. *)
Fixpoint oneStream (name : string) (t : list LogCall) : Prop :=
  match t with
  | [] => True
  | CreateLogStream _ created :: rest =>
      name = ""%string /\ created <> ""%string /\ oneStream created rest
  | PutLogEvents logs _ stream :: rest =>
      stream = name /\ name <> ""%string /\ logs <> [] /\ oneStream name rest
  | _ :: rest => oneStream name rest
  end.

Definition isCreateLogStream (c : LogCall) : bool :=
  match c with
  | CreateLogStream _ _ => true
  | _ => false
  end.

(** The stream known after the calls of [t], when [name] was known before. *)
Fixpoint nameAfter (name : string) (t : list LogCall) : string :=
  match t with
  | [] => name
  | CreateLogStream _ created :: rest => nameAfter created rest
  | _ :: rest => nameAfter name rest
  end.

Definition goesOn (r : Received) : bool := negb (terminates r).

(** An instance: a log service that accepts everything, a clock that
    advances with every call, and a writer with batches of 100 events. *)
Module LogScenario.

Definition world : LogWorld :=
  mkLogWorld
    (fun t => 1700000000000000000 + 1000000 * Z.of_nat (List.length t))
    (fun _ => "3b1f8e0c-5a0e-4c58-9d0a-6f1f5f2f7a11"%string)
    (fun _ _ _ => None)
    (fun _ _ _ _ => None).

(** The log service refuses the creation of streams. *)
Definition noStream : LogWorld :=
  mkLogWorld
    (fun t => 1700000000000000000 + 1000000 * Z.of_nat (List.length t))
    (fun _ => "3b1f8e0c-5a0e-4c58-9d0a-6f1f5f2f7a11"%string)
    (fun _ _ _ => Some (ExternalError "AccessDeniedException"))
    (fun _ _ _ _ => None).

Definition writer (maxBatchSize : Z) : CwLogWriter :=
  mkCwLogWriter "ebs-autoscale" 5 maxBatchSize.

Definition bytes (s : string) : list ascii := list_ascii_of_string s.

(** Two lines in one write, the expiry of the timer, a line without
    terminator, and the end of the context. *)
Definition received : list Received :=
  [ LogLine (bytes "one" ++ [LF] ++ bytes "two" ++ [LF]); Expire; LogLine (bytes "three"); Done ].

End LogScenario.

(** ** The btrfs backend ([filesystem/btrfs.go]) *)

(** [golang.org/x/sys/unix]: the fields of [Statfs_t] that the backend
    reads. On Linux [Bsize] is an [int64]; [Blocks] and [Bfree] are
    [uint64]. *)
Module unix.

Record Statfs_t : Type := mkStatfs_t {
  Bsize : Z;
  Blocks : Z;
  Bfree : Z
}.

End unix.

Module btrfs.

(** [uint64(x)], and the product and difference of [uint64]. *)
Definition uint64 (z : Z) : Z := z mod 2 ^ 64.
Definition mul64 (a b : Z) : Z := uint64 (a * b).
Definition sub64 (a b : Z) : Z := uint64 (a - b).

Record BtrfsFileSystem : Type := mkBtrfsFileSystem { MountPoint : string }.

Definition GetMountPoint (fs : BtrfsFileSystem) : string := MountPoint fs.

(** [Stat] stats the underlying file system: total, used and free space
    in bytes. [statfs] is what [unix.Statfs] answers on a path. *)
Definition Stat (statfs : string -> unix.Statfs_t + error) (fs : BtrfsFileSystem)
  : Z * Z * Z * option error :=
  match statfs (GetMountPoint fs) with
  | inr err => (0, 0, 0, Some err)
  | inl stat =>
      let freeSpace := mul64 (unix.Bfree stat) (uint64 (unix.Bsize stat)) in
      let totalSpace := mul64 (unix.Blocks stat) (uint64 (unix.Bsize stat)) in
      let usage := sub64 totalSpace freeSpace in
      (totalSpace, usage, freeSpace, None)
  end.

End btrfs.

(** ** [PascalCaseString] and the functions of [strings] it calls *)

(** The packages [strings] and [unicode/utf8], on strings as sequences of bytes. *)
Module strings.

(** [s[:n]] and [s[n:]], for [n] within the length of [s]. *)
Fixpoint take (n : nat) (s : string) : string :=
  match n, s with
  | S n', String c rest => String c (take n' rest)
  | _, _ => EmptyString
  end.

Fixpoint drop (n : nat) (s : string) : string :=
  match n, s with
  | S n', String _ rest => drop n' rest
  | _, _ => s
  end.

(** [strings.Index(s, substr)]: the offset of the first instance of
    [substr] in [s]; [None] is -1. *)
Fixpoint Index (s substr : string) : option nat :=
  if String.prefix substr s then Some O
  else
    match s with
    | EmptyString => None
    | String _ rest => option_map S (Index rest substr)
    end.

(** The loop of [strings.Count] for a non-empty [substr]; each round
    consumes a byte of [s] at least. *)
Fixpoint countLoop (fuel : nat) (s substr : string) : nat :=
  match fuel with
  | O => O
  | S fuel' =>
      match Index s substr with
      | None => O
      | Some i => S (countLoop fuel' (drop (i + String.length substr) s) substr)
      end
  end.

Definition Count (s substr : string) : nat := countLoop (String.length s) s substr.

(** The width of the first UTF-8 sequence of [s], as
    [utf8.DecodeRuneInString] returns it: 1 for a byte that begins no
    well-formed sequence. *)
Definition continuation (lo hi : nat) (s : string) (i : nat) : bool :=
  match String.get i s with
  | Some c => (lo <=? nat_of_ascii c)%nat && (nat_of_ascii c <=? hi)%nat
  | None => false
  end.

Definition DecodeSize (s : string) : nat :=
  match s with
  | EmptyString => 0
  | String c _ =>
      let b := nat_of_ascii c in
      if (b <? 128)%nat then 1
      else if (b <? 194)%nat then 1
      else if (b <? 224)%nat then
        if continuation 128 191 s 1 then 2 else 1
      else if (b <? 240)%nat then
        let lo := if (b =? 224)%nat then 160%nat else 128%nat in
        let hi := if (b =? 237)%nat then 159%nat else 191%nat in
        if continuation lo hi s 1 && continuation 128 191 s 2 then 3 else 1
      else if (b <? 245)%nat then
        let lo := if (b =? 240)%nat then 144%nat else 128%nat in
        let hi := if (b =? 244)%nat then 143%nat else 191%nat in
        if continuation lo hi s 1 && continuation 128 191 s 2 && continuation 128 191 s 3
        then 4 else 1
      else 1
  end%nat.

(** [utf8.RuneCountInString]. *)
Fixpoint runeCountLoop (fuel : nat) (s : string) : nat :=
  match fuel, s with
  | S fuel', String _ _ => S (runeCountLoop fuel' (drop (DecodeSize s) s))
  | _, _ => O
  end.

Definition RuneCountInString (s : string) : nat := runeCountLoop (String.length s) s.

(** [explode] splits [s] into its UTF-8 sequences, [n] of them. *)
Fixpoint explodeLoop (n : nat) (s : string) : list string :=
  match n with
  | O => []
  | S O => [s]
  | S n' => take (DecodeSize s) s :: explodeLoop n' (drop (DecodeSize s) s)
  end.

Definition explode (s : string) : list string := explodeLoop (RuneCountInString s) s.

(** The loop of [genSplit], which cuts [n] times at most. *)
Fixpoint splitLoop (n : nat) (s sep : string) : list string :=
  match n with
  | O => [s]
  | S n' =>
      match Index s sep with
      | None => [s]
      | Some m => take m s :: splitLoop n' (drop (m + String.length sep) s) sep
      end
  end.

(** [strings.Split(s, sep)]. *)
Definition Split (s sep : string) : list string :=
  if String.eqb sep "" then explode s
  else splitLoop (Nat.min (Count s sep) (String.length s)) s sep.

(** [strings.ToUpper] on the string of the one byte [c]: an ASCII letter
    is mapped to its upper case, another ASCII byte to itself, and a byte
    above 127, which is no UTF-8 sequence on its own, to U+FFFD. *)
Definition ToUpperByte (c : ascii) : string :=
  let b := nat_of_ascii c in
  if (b <? 128)%nat then
    if (97 <=? b)%nat && (b <=? 122)%nat
    then String (ascii_of_nat (b - 32)) EmptyString
    else String c EmptyString
  else String (ascii_of_nat 239) (String (ascii_of_nat 191) (String (ascii_of_nat 189) EmptyString)).

End strings.

(** The body of the loop of [PascalCaseString]. *)
Definition appendWord (ret word : string) : string :=
  match word with
  | EmptyString => ret
  | String c rest => (ret ++ (strings.ToUpperByte c ++ rest))%string
  end.

(** [PascalCaseString] takes a string, splits it by a separator and
    returns it in Pascal format. *)
Definition PascalCaseString (str sep : string) : string :=
  fold_left appendWord (strings.Split str sep) EmptyString.

Definition isLowerLetter (c : ascii) : bool :=
  (97 <=? nat_of_ascii c)%nat && (nat_of_ascii c <=? 122)%nat.

Definition isASCII (c : ascii) : bool := (nat_of_ascii c <? 128)%nat.

(** ** The host ([ec2_host.go]) *)

(** The SDK's [types.TagDescription], as far as it is read. *)
Record TagDescription : Type := mkTagDescription {
  tdKey : option string;
  tdValue : option string
}.

(** What the construction of the host does to the outside. *)
Inductive HostCall : Type :=
  (** [config.LoadDefaultConfig], with the default region when one is given *)
  | ConfigLoad (defaultRegion : option string)
  | GetMetadata (path : string)
  (** [io.ReadAll] on the content of the answer for [path] *)
  | ReadAll (path : string)
  | GetCallerIdentity
  (** [DescribeTags] filtered on [resource-id] *)
  | DescribeTags (resourceId : string).

(** The outside of the construction. [callerAccount] answers with the
    pointer [Account] of the identity. *)
Record HostWorld : Type := mkHostWorld {
  configLoad : list HostCall -> option string -> option error;
  getMetadata : list HostCall -> string -> option error;
  readAll : list HostCall -> string -> string + error;
  callerAccount : list HostCall -> option string + error;
  describeTags : list HostCall -> string -> list TagDescription + error
}.

Section Host.

Variable w : HostWorld.

Local Open Scope calls_scope.

(** [GetAWSEc2Metadata] gets a value of the instance metadata. *)
Definition GetAWSEc2Metadata (path : string) : Traced HostCall (string * option error) :=
  err <- performT (GetMetadata path) (fun t => getMetadata w t path) ;;
  match err with
  | Some e => retT (EmptyString, Some e)
  | None =>
      bytes <- performT (ReadAll path) (fun t => readAll w t path) ;;
      match bytes with
      | inr e => retT (EmptyString, Some e)
      | inl resp => retT (resp, None)
      end
  end.

(** The tags of the instance, as tags for a volume. *)
Definition hostTags (tags : list TagDescription) : list types.Tag :=
  fold_left (fun volumeTags t => volumeTags ++ [types.mkTag (tdKey t) (tdValue t)]) tags [].

Definition NewEc2Host : Traced HostCall (outcome Ec2Host) :=
  (* the region is not needed for the calls to the metadata service *)
  err <- performT (ConfigLoad None) (fun t => configLoad w t None) ;;
  match err with
  | Some e => retT (Err e)
  | None =>
  ' (_, err) <- GetAWSEc2Metadata "instance-id" ;;
  match err with
  | Some e => retT (Err e)
  | None =>
  ' (instanceId, err) <- GetAWSEc2Metadata "instance-id" ;;
  match err with
  | Some e => retT (Err e)
  | None =>
  ' (availabilityZone, err) <- GetAWSEc2Metadata "placement/availability-zone" ;;
  match err with
  | Some e => retT (Err e)
  | None =>
  (* availabilityZone[:len(availabilityZone)-1] *)
  if (String.length availabilityZone =? 0)%nat then retT Panic
  else
  let region := strings.take (String.length availabilityZone - 1) availabilityZone in
  err <- performT (ConfigLoad (Some region)) (fun t => configLoad w t (Some region)) ;;
  match err with
  | Some e => retT (Err e)
  | None =>
  callerID <- performT GetCallerIdentity (callerAccount w) ;;
  match callerID with
  | inr e => retT (Err e)
  | inl None => retT Panic
  | inl (Some account) =>
  let instanceArn :=
    ("arn:aws:ec2:" ++ region ++ ":" ++ account ++ ":instance/" ++ instanceId)%string in
  tagsOutput <- performT (DescribeTags instanceId) (fun t => describeTags w t instanceId) ;;
  match tagsOutput with
  | inr e => retT (Err e)
  | inl tags =>
      retT (Ok (mkEc2Host instanceId instanceArn availabilityZone region (hostTags tags)))
  end end end end end end end.

End Host.

(** An instance: the metadata service of an instance in [zone]. *)
Module HostScenario.

Definition world (zone : string) : HostWorld :=
  mkHostWorld
    (fun _ _ => None)
    (fun _ _ => None)
    (fun _ path => inl (if String.eqb path "instance-id" then "i-0abc"%string else zone))
    (fun _ => inl (Some "123456789012"%string))
    (fun _ _ => inl [ mkTagDescription (Some "Name"%string) (Some "worker"%string);
                      mkTagDescription (Some "aws:autoscaling:groupName"%string)
                                       (Some "workers"%string) ]).

End HostScenario.

(** * Properties *)

(** ** The hash and the arithmetic agree with the known values *)

Example Md5String_empty : Md5String "" = "d41d8cd98f00b204e9800998ecf8427e"%string.
Proof. vm_compute. reflexivity. Qed.

Example Md5String_abc : Md5String "abc" = "900150983cd24fb0d6963f7d28e17f72"%string.
Proof. vm_compute. reflexivity. Qed.

Example Md5String_two_blocks :
  Md5String "12345678901234567890123456789012345678901234567890123456789012345678901234567890"
  = "57edf4a22be3c955ac49da2e2107b67a"%string.
Proof. vm_compute. reflexivity. Qed.

(** The cases of [TestManagedVolumeSizeGb]. *)
Example managedVolumeSizeGb_tests :
  managedVolumeSizeGb (Scenario.volume 3 [Scenario.ebsVolume "a" 51 []]) = Some 51
  /\ managedVolumeSizeGb
       (Scenario.volume 3 [Scenario.ebsVolume "a" 51 []; Scenario.ebsVolume "b" 10 []]) = Some 61
  /\ managedVolumeSizeGb (Scenario.volume 3 []) = Some 0.
Proof. repeat split. Qed.

(** ** Two's complement and binary64 arithmetic *)

Lemma wrap32_range (z : Z) : - 2 ^ 31 <= Go.wrap32 z <= 2 ^ 31 - 1.
Proof.
  unfold Go.wrap32.
  pose proof (Z.mod_pos_bound (z + 2 ^ 31) (2 ^ 32) ltac:(lia)). lia.
Qed.

Lemma wrap32_small (z : Z) : - 2 ^ 31 <= z <= 2 ^ 31 - 1 -> Go.wrap32 z = z.
Proof.
  intros H. unfold Go.wrap32. rewrite Z.mod_small; lia.
Qed.

Lemma digits2_pos_bounds (p : positive) :
  2 ^ (Z.pos (digits2_pos p) - 1) <= Z.pos p < 2 ^ Z.pos (digits2_pos p).
Proof.
  induction p as [p IH|p IH|]; cbn [digits2_pos].
  - rewrite Pos2Z.inj_succ.
    replace (Z.succ (Z.pos (digits2_pos p)) - 1) with (Z.succ (Z.pos (digits2_pos p) - 1)) by lia.
    rewrite !Z.pow_succ_r by lia. lia.
  - rewrite Pos2Z.inj_succ.
    replace (Z.succ (Z.pos (digits2_pos p)) - 1) with (Z.succ (Z.pos (digits2_pos p) - 1)) by lia.
    rewrite !Z.pow_succ_r by lia. lia.
  - simpl. lia.
Qed.

Lemma digits2_pos_unique (p : positive) (k : Z) :
  2 ^ (k - 1) <= Z.pos p < 2 ^ k -> Z.pos (digits2_pos p) = k.
Proof.
  intros [Hlo Hhi]. pose proof (digits2_pos_bounds p) as [Blo Bhi].
  set (d := Z.pos (digits2_pos p)) in *.
  assert (0 < d) by (subst d; lia).
  destruct (Z.lt_trichotomy d k) as [Hlt|[Heq|Hgt]]; [|assumption|].
  - exfalso. assert (2 ^ d <= 2 ^ (k - 1)) by (apply Z.pow_le_mono_r; lia). lia.
  - exfalso. destruct (Z_lt_le_dec k 0).
    + rewrite Z.pow_neg_r in Hhi by assumption. lia.
    + assert (2 ^ k <= 2 ^ (d - 1)) by (apply Z.pow_le_mono_r; lia). lia.
Qed.

Lemma iter_xO (p : positive) (n : positive) :
  Z.pos (Pos.iter xO p n) = Z.pos p * 2 ^ Z.pos n.
Proof.
  induction n as [|n IH] using Pos.peano_ind.
  - simpl. lia.
  - rewrite Pos.iter_succ, Pos2Z.inj_succ, Z.pow_succ_r by lia.
    rewrite Pos2Z.inj_xO, IH. lia.
Qed.

Lemma shr_fexp_keep (m : positive) (e : Z) (l : location) :
  Z.pos (digits2_pos m) = 53 -> -1074 <= e ->
  shr_fexp 53 1024 (Z.pos m) e l = (shr_record_of_loc (Z.pos m) l, e).
Proof.
  intros Hd He. unfold shr_fexp, Zdigits2, fexp, emin. rewrite Hd.
  replace (Z.max (53 + e - 53) (3 - 1024 - 53) - e) with 0 by lia.
  reflexivity.
Qed.

Lemma shr_fexp_shift (m : positive) (e : Z) (l : location) :
  Z.pos (digits2_pos m) = 54 -> -1075 <= e ->
  shr_fexp 53 1024 (Z.pos m) e l = (shr_1 (shr_record_of_loc (Z.pos m) l), e + 1).
Proof.
  intros Hd He. unfold shr_fexp, Zdigits2, fexp, emin. rewrite Hd.
  replace (Z.max (54 + e - 53) (3 - 1024 - 53) - e) with 1 by lia.
  reflexivity.
Qed.

Lemma shr_m_of_loc (m : Z) (l : location) : shr_m (shr_record_of_loc m l) = m.
Proof. destruct l as [|[]]; reflexivity. Qed.

Lemma shr_m_shr_1 (m : positive) (l : location) :
  shr_m (shr_1 (shr_record_of_loc (Z.pos m) l)) = Z.pos m / 2.
Proof.
  assert (H : shr_m (shr_1 (shr_record_of_loc (Z.pos m) l))
              = match m with xH => 0 | xO p | xI p => Z.pos p end)
    by (destruct l as [|[]]; destruct m; reflexivity).
  rewrite H. destruct m as [p|p|].
  - apply Z.div_unique with 1; lia.
  - apply Z.div_unique with 0; lia.
  - reflexivity.
Qed.

Lemma round_nearest_even_bounds (m : Z) (l : location) :
  m <= round_nearest_even m l <= m + 1.
Proof.
  destruct l as [|[]]; cbn [round_nearest_even]; try lia.
  destruct (Z.even m); lia.
Qed.

Lemma binary_round_aux_finish (sx : bool) (mx ex : Z) (lx : location) :
  binary_round_aux 53 1024 sx mx ex lx
  = finish sx (round_nearest_even (shr_m (fst (shr_fexp 53 1024 mx ex lx)))
                 (loc_of_shr_record (fst (shr_fexp 53 1024 mx ex lx))))
      (snd (shr_fexp 53 1024 mx ex lx)).
Proof.
  unfold binary_round_aux, finish.
  destruct (shr_fexp 53 1024 mx ex lx) as [mrs' e']. reflexivity.
Qed.

Lemma finish_spec (sx : bool) (m1 : Z) (e1 : Z) :
  2 ^ 52 <= m1 <= 2 ^ 53 -> -1074 <= e1 <= 960 ->
  exists m e,
    finish sx m1 e1 = S754_finite sx m e
    /\ e1 <= e <= e1 + 1
    /\ Z.pos m * 2 ^ (e - e1) = m1.
Proof.
  intros Hm He. destruct m1 as [|p|p]; try lia.
  destruct (Z_lt_le_dec (Z.pos p) (2 ^ 53)) as [Hlt|Hge].
  - assert (Hd : Z.pos (digits2_pos p) = 53) by (apply digits2_pos_unique; simpl; lia).
    unfold finish. rewrite shr_fexp_keep by (assumption || lia).
    cbn [shr_record_of_loc shr_m].
    destruct (Z.leb_spec e1 (1024 - 53)) as [_|H]; [|lia].
    exists p, e1. split; [reflexivity|]. split; [lia|].
    rewrite Z.sub_diag. simpl. lia.
  - assert (Hp : p = (2 ^ 53)%positive) by lia. subst p.
    unfold finish. rewrite shr_fexp_shift by (reflexivity || lia).
    cbn [shr_record_of_loc shr_1 shr_m orb].
    destruct (Z.leb_spec (e1 + 1) (1024 - 53)) as [_|H]; [|lia].
    exists (2 ^ 52)%positive, (e1 + 1). split; [reflexivity|]. split; [lia|].
    replace (e1 + 1 - e1) with 1 by lia. reflexivity.
Qed.

Lemma binary_round_aux_spec (sx : bool) (q : Z) (e' : Z) (l : location) :
  2 ^ 52 <= q < 2 ^ 54 -> -1074 <= e' <= 900 ->
  exists m e,
    binary_round_aux 53 1024 sx q e' l = S754_finite sx m e
    /\ e' <= e <= e' + 2
    /\ 2 * (q / 2) <= Z.pos m * 2 ^ (e - e') <= q + 2.
Proof.
  intros Hq He. destruct q as [|p|p]; try lia.
  rewrite binary_round_aux_finish.
  destruct (Z_lt_le_dec (Z.pos p) (2 ^ 53)) as [Hlt|Hge].
  - assert (Hd : Z.pos (digits2_pos p) = 53) by (apply digits2_pos_unique; simpl; lia).
    rewrite shr_fexp_keep by (assumption || lia). cbn [fst snd].
    rewrite shr_m_of_loc.
    pose proof (round_nearest_even_bounds (Z.pos p) (loc_of_shr_record (shr_record_of_loc (Z.pos p) l))) as Hr.
    set (m1 := round_nearest_even _ _) in *.
    destruct (finish_spec sx m1 e' ltac:(lia) ltac:(lia)) as (m & e & Hf & Hrange & Hval).
    exists m, e. split; [exact Hf|]. split; [lia|]. rewrite Hval.
    pose proof (Z.mul_div_le (Z.pos p) 2 ltac:(lia)). lia.
  - assert (Hd : Z.pos (digits2_pos p) = 54) by (apply digits2_pos_unique; simpl; lia).
    rewrite shr_fexp_shift by (assumption || lia). cbn [fst snd].
    rewrite shr_m_shr_1.
    pose proof (round_nearest_even_bounds (Z.pos p / 2)
                  (loc_of_shr_record (shr_1 (shr_record_of_loc (Z.pos p) l)))) as Hr.
    set (m1 := round_nearest_even _ _) in *.
    assert (Hhalf : 2 ^ 52 <= Z.pos p / 2 < 2 ^ 53).
    { split; [apply Z.div_le_lower_bound; lia | apply Z.div_lt_upper_bound; lia]. }
    destruct (finish_spec sx m1 (e' + 1) ltac:(lia) ltac:(lia)) as (m & e & Hf & Hrange & Hval).
    exists m, e. split; [exact Hf|]. split; [lia|].
    replace (e - e') with (1 + (e - (e' + 1))) by lia.
    rewrite Z.pow_add_r by lia. change (2 ^ 1) with 2.
    replace (Z.pos m * (2 * 2 ^ (e - (e' + 1)))) with (2 * (Z.pos m * 2 ^ (e - (e' + 1)))) by lia.
    rewrite Hval.
    pose proof (Z.mul_div_le (Z.pos p) 2 ltac:(lia)). lia.
Qed.

Lemma finish_keep (sx : bool) (m : positive) (e : Z) :
  Z.pos (digits2_pos m) = 53 -> -1074 <= e <= 971 ->
  finish sx (Z.pos m) e = S754_finite sx m e.
Proof.
  intros Hd He. unfold finish. rewrite shr_fexp_keep by (assumption || lia).
  cbn [shr_record_of_loc shr_m].
  destruct (Z.leb_spec e (1024 - 53)) as [_|H]; [reflexivity | lia].
Qed.

(** [float64(a)] for a positive [int32]: the 53-bit mantissa and its exponent. *)
Lemma of_int32_pos (a : positive) :
  Z.pos a < 2 ^ 31 ->
  exists m,
    float64.of_int32 (Z.pos a) = S754_finite false m (Z.pos (digits2_pos a) - 53)
    /\ Z.pos m = Z.pos a * 2 ^ (53 - Z.pos (digits2_pos a))
    /\ Z.pos (digits2_pos m) = 53.
Proof.
  intros Ha. pose proof (digits2_pos_bounds a) as [Blo Bhi].
  set (d := Z.pos (digits2_pos a)) in *.
  assert (Hd : 1 <= d <= 31).
  { split; [subst d; lia|].
    destruct (Z_le_gt_dec d 31) as [|Hgt]; [assumption|exfalso].
    assert (2 ^ 31 <= 2 ^ (d - 1)) by (apply Z.pow_le_mono_r; lia). lia. }
  unfold float64.of_int32, binary_normalize, binary_round.
  fold d. unfold fexp, emin, float64.prec, float64.emax.
  replace (Z.max (d + 0 - 53) (3 - 1024 - 53)) with (d - 53) by lia.
  unfold shl_align.
  destruct (d - 53 - 0) as [|k|k] eqn:Hk; try lia.
  assert (Hm : Z.pos (Pos.iter xO a k) = Z.pos a * 2 ^ (53 - d)).
  { rewrite iter_xO. f_equal. f_equal. lia. }
  assert (Hdm : Z.pos (digits2_pos (Pos.iter xO a k)) = 53).
  { apply digits2_pos_unique. rewrite Hm.
    assert (Hlo : 2 ^ (53 - 1) = 2 ^ (d - 1) * 2 ^ (53 - d))
      by (rewrite <- Z.pow_add_r by lia; f_equal; lia).
    assert (Hhi : 2 ^ 53 = 2 ^ d * 2 ^ (53 - d))
      by (rewrite <- Z.pow_add_r by lia; f_equal; lia).
    rewrite Hlo, Hhi. split.
    - apply Z.mul_le_mono_nonneg_r; [apply Z.pow_nonneg; lia | exact Blo].
    - apply Z.mul_lt_mono_pos_r; [apply Z.pow_pos_nonneg; lia | exact Bhi]. }
  exists (Pos.iter xO a k). split; [|split; assumption].
  rewrite binary_round_aux_finish.
  rewrite shr_fexp_keep by (assumption || lia). cbn [fst snd shr_record_of_loc shr_m loc_of_shr_record round_nearest_even].
  apply finish_keep; [assumption | lia].
Qed.

(** The quotient of two 53-bit mantissas, before rounding. *)
Lemma div_53 (ma mb : positive) (ea eb : Z) :
  Z.pos (digits2_pos ma) = 53 -> Z.pos (digits2_pos mb) = 53 ->
  -60 <= ea - eb <= 60 ->
  float64.div (S754_finite false ma ea) (S754_finite false mb eb)
  = binary_round_aux 53 1024 false ((Z.pos ma * 2 ^ 53) / Z.pos mb) (ea - eb - 53)
      (new_location (Z.pos mb) ((Z.pos ma * 2 ^ 53) mod Z.pos mb)).
Proof.
  intros Ha Hb He.
  unfold float64.div, SFdiv, SFdiv_core_binary, Zdigits2, fexp, emin, float64.prec, float64.emax.
  rewrite Ha, Hb.
  replace (Z.min (Z.max (53 + ea - (53 + eb) - 53) (3 - 1024 - 53)) (ea - eb)) with (ea - eb - 53)
    by lia.
  replace (ea - eb - (ea - eb - 53)) with 53 by lia.
  rewrite Z.shiftl_mul_pow2 by lia.
  unfold Z.div, Z.modulo.
  destruct (Z.div_eucl (Z.pos ma * 2 ^ 53) (Z.pos mb)) as [q r]. reflexivity.
Qed.

Lemma quotient_53_bounds (ma mb : Z) :
  2 ^ 52 <= ma < 2 ^ 53 -> 2 ^ 52 <= mb < 2 ^ 53 ->
  2 ^ 52 <= (ma * 2 ^ 53) / mb < 2 ^ 54.
Proof.
  intros Ha Hb. split.
  - apply Z.div_le_lower_bound; nia.
  - apply Z.div_lt_upper_bound; nia.
Qed.

(** [int32(float64(z))] gives [z] back. *)
Lemma to_int32_of_int32 (u : spec_float -> Z) (z : Z) :
  0 <= z < 2 ^ 31 ->
  float64.to_int32 u (float64.of_int32 z) = z.
Proof.
  intros Hz. destruct z as [|a|a]; try lia; [reflexivity|].
  destruct (of_int32_pos a ltac:(lia)) as (m & -> & Hm & _).
  pose proof (digits2_pos_bounds a) as [Blo Bhi].
  set (d := Z.pos (digits2_pos a)) in *.
  assert (Hd : 1 <= d <= 31).
  { split; [subst d; lia|].
    destruct (Z_le_gt_dec d 31) as [|Hgt]; [assumption|exfalso].
    assert (2 ^ 31 <= 2 ^ (d - 1)) by (apply Z.pow_le_mono_r; lia). lia. }
  unfold float64.to_int32, float64.truncZ.
  replace (Z.shiftl (Z.pos m) (d - 53)) with (Z.pos a).
  - unfold Go.in_int32.
    destruct (Z.leb_spec (- 2 ^ 31) (Z.pos a)); [|lia].
    destruct (Z.leb_spec (Z.pos a) (2 ^ 31 - 1)); [reflexivity|lia].
  - replace (d - 53) with (- (53 - d)) by lia.
    rewrite Z.shiftl_opp_r, Z.shiftr_div_pow2 by lia.
    rewrite Hm. symmetry. apply Z.div_mul. apply Z.pow_nonzero; lia.
Qed.

Lemma digits_int32 (a : positive) :
  Z.pos a < 2 ^ 31 -> 1 <= Z.pos (digits2_pos a) <= 31.
Proof.
  intros Ha. pose proof (digits2_pos_bounds a) as [Blo Bhi].
  split; [lia|].
  destruct (Z_le_gt_dec (Z.pos (digits2_pos a)) 31) as [|Hgt]; [assumption|exfalso].
  assert (2 ^ 31 <= 2 ^ (Z.pos (digits2_pos a) - 1)) by (apply Z.pow_le_mono_r; lia). lia.
Qed.

(** The arithmetic of the rounding: a mantissa within two units of the
    scaled quotient has the integer quotient as its integer part. *)
Lemma scaled_quotient_floor (a b N M : Z) :
  0 < a -> 0 < b -> 0 < N -> 2 * b < N -> (exists N2, N = 2 * N2) ->
  2 * (((a * N) / b) / 2) <= M <= (a * N) / b + 2 ->
  (a / b) * N <= M < (a / b + 1) * N.
Proof.
  intros Ha Hb HN Hsmall [N2 HN2] [Hlo Hhi].
  set (Q := a / b). set (q := (a * N) / b) in *.
  assert (Hdiv : a = b * Q + a mod b) by (apply Z.div_mod; lia).
  assert (Hmod : 0 <= a mod b < b) by (apply Z.mod_pos_bound; lia).
  assert (HQ : 0 <= Q) by (apply Z.div_pos; lia).
  assert (Hq1 : Q * N <= q).
  { apply Z.div_le_lower_bound; [lia|]. nia. }
  assert (Hq2 : b * q <= a * N) by (apply Z.mul_div_le; lia).
  split.
  - assert (Q * N2 <= q / 2) by (apply Z.div_le_lower_bound; lia).
    nia.
  - assert (H : b * (q + 2) < b * ((Q + 1) * N)) by nia.
    assert (q + 2 < (Q + 1) * N) by (apply Z.mul_lt_mono_pos_l with b; lia).
    lia.
Qed.

(** On positive [int32] operands, the floored [float64] quotient, as an
    [int32], is the integer quotient. *)
Lemma floor_quotient (u : spec_float -> Z) (a b : positive) :
  Z.pos a < 2 ^ 31 -> Z.pos b < 2 ^ 31 ->
  float64.to_int32 u
    (float64.Floor (float64.div (float64.of_int32 (Z.pos a)) (float64.of_int32 (Z.pos b))))
  = Z.pos a / Z.pos b.
Proof.
  intros Ha Hb.
  destruct (of_int32_pos a Ha) as (ma & -> & Hma & Hda).
  destruct (of_int32_pos b Hb) as (mb & -> & Hmb & Hdb).
  pose proof (digits_int32 a Ha) as Hra. pose proof (digits_int32 b Hb) as Hrb.
  pose proof (digits2_pos_bounds b) as [Bblo Bbhi].
  set (da := Z.pos (digits2_pos a)) in *. set (db := Z.pos (digits2_pos b)) in *.
  rewrite div_53 by (assumption || lia).
  pose proof (digits2_pos_bounds ma) as Bma. rewrite Hda in Bma.
  pose proof (digits2_pos_bounds mb) as Bmb. rewrite Hdb in Bmb.
  set (q := (Z.pos ma * 2 ^ 53) / Z.pos mb).
  set (e' := da - 53 - (db - 53) - 53).
  destruct (binary_round_aux_spec false q e'
              (new_location (Z.pos mb) ((Z.pos ma * 2 ^ 53) mod Z.pos mb))
              (quotient_53_bounds _ _ Bma Bmb) ltac:(subst e'; lia))
    as (m & e & -> & He & Hval).
  unfold float64.Floor.
  destruct (Z.leb_spec 0 e) as [Hpos|Hneg]; [subst e'; lia|].
  change (binary_normalize float64.prec float64.emax (float64.floorZ false m e) 0 false)
    with (float64.of_int32 (float64.floorZ false m e)).
  assert (HQ : float64.floorZ false m e = Z.pos a / Z.pos b).
  { unfold float64.floorZ.
    replace e with (- (- e)) by lia.
    rewrite Z.shiftl_opp_r, Z.shiftr_div_pow2 by lia.
    set (N := 2 ^ (- e')). set (K := 2 ^ (e - e')) in *. set (P := 2 ^ (- e)).
    assert (HK : 0 < K) by (apply Z.pow_pos_nonneg; lia).
    assert (HP : 0 < P) by (apply Z.pow_pos_nonneg; lia).
    assert (HN : N = P * K).
    { unfold N, P, K. rewrite <- Z.pow_add_r by lia. f_equal. lia. }
    assert (Hq : q = (Z.pos a * N) / Z.pos b).
    { unfold q. rewrite Hma, Hmb.
      replace (Z.pos a * 2 ^ (53 - da) * 2 ^ 53) with ((Z.pos a * N) * 2 ^ (53 - db)).
      - apply Z.div_mul_cancel_r; [lia | apply Z.pow_nonzero; lia].
      - unfold N. rewrite <- !Z.mul_assoc, <- !Z.pow_add_r by (subst e'; lia).
        f_equal. f_equal. subst e'. lia. }
    assert (Hsmall : 2 * Z.pos b < N).
    { unfold N. replace (- e') with (db + (53 - da)) by (subst e'; lia).
      rewrite Z.pow_add_r by lia.
      assert (2 ^ 22 <= 2 ^ (53 - da)) by (apply Z.pow_le_mono_r; lia).
      assert (0 < 2 ^ db) by (apply Z.pow_pos_nonneg; lia).
      change (2 ^ 22) with 4194304 in *. nia. }
    assert (Heven : exists N2, N = 2 * N2).
    { exists (2 ^ (- e' - 1)). unfold N.
      replace (- e') with (Z.succ (- e' - 1)) at 1 by lia.
      apply Z.pow_succ_r. subst e'. lia. }
    rewrite Hq in Hval.
    destruct (scaled_quotient_floor (Z.pos a) (Z.pos b) N (Z.pos m * K)
                ltac:(lia) ltac:(lia) ltac:(lia) Hsmall Heven Hval) as [Hlo Hhi].
    rewrite HN in Hlo, Hhi.
    symmetry. apply Z.div_unique with (Z.pos m - P * (Z.pos a / Z.pos b)); [|lia].
    left. split; nia. }
  rewrite HQ. apply to_int32_of_int32.
  split; [apply Z.div_pos; lia|].
  apply Z.le_lt_trans with (Z.pos a); [|assumption].
  apply Z.div_le_upper_bound; [lia|]. nia.
Qed.

(** ** Growth increment *)

Section Increment.

Variable w : World.

Lemma calculateSizeIncreasePerVolume_error (v : Volume) :
  Go.sub32 (MaxLogicalSizeGb v) (InitialSizeGb v) <= 0 ->
  calculateSizeIncreasePerVolume w v = (0, Some ErrCannotGrow).
Proof.
  intros H. unfold calculateSizeIncreasePerVolume.
  destruct (Z.leb_spec (Go.sub32 (MaxLogicalSizeGb v) (InitialSizeGb v)) 0); [reflexivity | lia].
Qed.

Lemma calculateSizeIncreasePerVolume_no_error (v : Volume) :
  Go.sub32 (MaxLogicalSizeGb v) (InitialSizeGb v) > 0 ->
  snd (calculateSizeIncreasePerVolume w v) = None.
Proof.
  intros H. unfold calculateSizeIncreasePerVolume.
  destruct (Z.leb_spec (Go.sub32 (MaxLogicalSizeGb v) (InitialSizeGb v)) 0); [lia | reflexivity].
Qed.

(** The first two cases of [TestCalculateSizeIncreasePerVolume]. *)
Example calculateSizeIncreasePerVolume_valid :
  calculateSizeIncreasePerVolume w (Scenario.volume 3 []) = (75, None).
Proof. vm_compute. reflexivity. Qed.

Example calculateSizeIncreasePerVolume_at_max :
  calculateSizeIncreasePerVolume w
    (mkVolume Scenario.host Scenario.fs "vol_id" "gp3" None None 200 200 16 3 [])
  = (0, Some ErrCannotGrow).
Proof. vm_compute. reflexivity. Qed.

(** With a positive difference and a positive number of further volumes,
    the increment is the integer quotient, rounded down. *)
Lemma calculateSizeIncreasePerVolume_floor (v : Volume) :
  0 < Go.sub32 (MaxLogicalSizeGb v) (InitialSizeGb v) ->
  0 < Go.sub32 (MaxCreatedVolumes v) 1 ->
  calculateSizeIncreasePerVolume w v
  = (Go.sub32 (MaxLogicalSizeGb v) (InitialSizeGb v) / Go.sub32 (MaxCreatedVolumes v) 1, None).
Proof.
  intros Hd Hs. unfold calculateSizeIncreasePerVolume.
  destruct (Z.leb_spec (Go.sub32 (MaxLogicalSizeGb v) (InitialSizeGb v)) 0) as [Hle|_]; [lia|].
  pose proof (wrap32_range (MaxLogicalSizeGb v - InitialSizeGb v)) as Hrd.
  pose proof (wrap32_range (MaxCreatedVolumes v - 1)) as Hrs.
  unfold Go.sub32 in *.
  destruct (Go.wrap32 (MaxLogicalSizeGb v - InitialSizeGb v)) as [|a|a]; try lia.
  destruct (Go.wrap32 (MaxCreatedVolumes v - 1)) as [|b|b]; try lia.
  rewrite floor_quotient by lia. reflexivity.
Qed.

(** For sizes and a volume count that are [int32] values, the initial
    size not negative: the increment of the specification. *)
Lemma calculateSizeIncreasePerVolume_spec (v : Volume) :
  0 <= InitialSizeGb v -> InitialSizeGb v < MaxLogicalSizeGb v ->
  MaxLogicalSizeGb v <= 2 ^ 31 - 1 ->
  1 < MaxCreatedVolumes v -> MaxCreatedVolumes v <= 2 ^ 31 - 1 ->
  calculateSizeIncreasePerVolume w v
  = ((MaxLogicalSizeGb v - InitialSizeGb v) / (MaxCreatedVolumes v - 1), None).
Proof.
  intros Hi Hlt Hmax Hc Hcmax.
  assert (Hd : Go.sub32 (MaxLogicalSizeGb v) (InitialSizeGb v)
               = MaxLogicalSizeGb v - InitialSizeGb v)
    by (apply wrap32_small; lia).
  assert (Hs : Go.sub32 (MaxCreatedVolumes v) 1 = MaxCreatedVolumes v - 1)
    by (apply wrap32_small; lia).
  rewrite calculateSizeIncreasePerVolume_floor by lia.
  now rewrite Hd, Hs.
Qed.

(** The increments of all the further volumes fit between the initial
    size and the maximum. *)
Lemma increment_budget (v : Volume) :
  0 <= InitialSizeGb v -> InitialSizeGb v < MaxLogicalSizeGb v ->
  MaxLogicalSizeGb v <= 2 ^ 31 - 1 ->
  1 < MaxCreatedVolumes v -> MaxCreatedVolumes v <= 2 ^ 31 - 1 ->
  0 <= fst (calculateSizeIncreasePerVolume w v)
  /\ InitialSizeGb v + (MaxCreatedVolumes v - 1) * fst (calculateSizeIncreasePerVolume w v)
     <= MaxLogicalSizeGb v.
Proof.
  intros Hi Hlt Hmax Hc Hcmax.
  rewrite calculateSizeIncreasePerVolume_spec by assumption. cbn [fst].
  split.
  - apply Z.div_pos; lia.
  - pose proof (Z.mul_div_le (MaxLogicalSizeGb v - InitialSizeGb v) (MaxCreatedVolumes v - 1)
                  ltac:(lia)). lia.
Qed.

(** The same at the far end of [int32], by evaluation. *)
Example calculateSizeIncreasePerVolume_floor_far :
  forallb
    (fun difference =>
       forallb
         (fun slots =>
            let v := mkVolume Scenario.host Scenario.fs "" "gp3" None None
                       0 difference 16 (slots + 1) [] in
            fst (calculateSizeIncreasePerVolume w v) =? difference / slots)
         [1; 2; 3; 7; 1000; 65535; 2 ^ 31 - 2])
    [2 ^ 31 - 1; 2 ^ 31 - 2; 2 ^ 30 + 1; 1000000007; 16384]
  = true.
Proof. vm_compute. reflexivity. Qed.

(** With a non-positive number of further volumes the quotient is negative. *)
Example calculateSizeIncreasePerVolume_no_slot :
  calculateSizeIncreasePerVolume w (Scenario.volume 0 []) = (-150, None).
Proof. vm_compute. reflexivity. Qed.

(** Whatever the sizes, with a positive difference and
    [MaxCreatedVolumes = 1] the quotient is not a finite number, no error
    is returned, and the value is the platform's. *)
Lemma calculateSizeIncreasePerVolume_one_volume (v : Volume) :
  Go.sub32 (MaxLogicalSizeGb v) (InitialSizeGb v) > 0 ->
  MaxCreatedVolumes v = 1 ->
  exists quotient,
    calculateSizeIncreasePerVolume w v = (int32OfUnrepresentable w quotient, None)
    /\ (quotient = S754_nan \/ exists s, quotient = S754_infinity s).
Proof.
  intros Hd Hone. unfold calculateSizeIncreasePerVolume. rewrite Hone.
  destruct (Z.leb_spec (Go.sub32 (MaxLogicalSizeGb v) (InitialSizeGb v)) 0) as [Hle|_]; [lia|].
  change (float64.of_int32 (Go.sub32 1 1)) with (S754_zero false).
  destruct (float64.of_int32 (Go.sub32 (MaxLogicalSizeGb v) (InitialSizeGb v))) as [s|s| |s m e];
    (eexists; split; [reflexivity|]);
    [ left; reflexivity | right; eexists; reflexivity
    | left; reflexivity | right; eexists; reflexivity ].
Qed.

(** C3. With [InitialSizeGb = 50], [MaxLogicalSizeGb = 200] and
    [MaxCreatedVolumes = 1] (the case "Only one volume created" of the
    package's test, which expects an error and the value 0),
    [calculateSizeIncreasePerVolume] returns no error: the only guard is
    on the difference of the sizes, the division is by zero in [float64],
    and the value returned is whatever the platform makes of
    [int32(+Inf)]. *)
Theorem C3_one_volume_returns_no_error :
  calculateSizeIncreasePerVolume w (Scenario.volume 1 [])
  = (int32OfUnrepresentable w (S754_infinity false), None).
Proof. vm_compute. reflexivity. Qed.

End Increment.

(** ** Usage percentage *)

(** The cases of [TestTotalUsagePercent], in binary32 arithmetic. *)
Example TotalUsagePercent_half :
  TotalUsagePercent (Scenario.volume 3 []) [] = (float32.const 50, None, [FsStat]).
Proof. vm_compute. reflexivity. Qed.

Example TotalUsagePercent_full :
  fst (TotalUsagePercent
         (mkVolume Scenario.host (Scenario.mockFS 200 200 0 None) "" "" None None 0 0 0 0 []) [])
  = (float32.const 100, None).
Proof. vm_compute. reflexivity. Qed.

Example TotalUsagePercent_empty :
  fst (TotalUsagePercent
         (mkVolume Scenario.host (Scenario.mockFS 200 0 200 None) "" "" None None 0 0 0 0 []) [])
  = (float32.zero, None).
Proof. vm_compute. reflexivity. Qed.

Example TotalUsagePercent_fs_error :
  fst (TotalUsagePercent
         (mkVolume Scenario.host (Scenario.mockFS 200 0 200 (Some (ExternalError "mock error")))
            "" "" None None 0 0 0 0 []) [])
  = (float32.zero, Some (ExternalError "mock error")).
Proof. vm_compute. reflexivity. Qed.

(** A third of the space used: the quotient is rounded to binary32 before
    it is scaled. *)
Example TotalUsagePercent_third :
  fst (TotalUsagePercent
         (mkVolume Scenario.host (Scenario.mockFS 3 1 2 None) "" "" None None 0 0 0 0 []) [])
  = (S754_finite false 8738134 (-18), None).
Proof. vm_compute. reflexivity. Qed.

(** C9. [TotalUsagePercent] stats the filesystem once. When [Stat] returns
    an error, the error is returned with the percentage 0; when the total
    is 0, the percentage is 0 and there is no error; otherwise the
    percentage is [float32(used) / float32(total) * 100] in binary32
    arithmetic, without error. *)
Theorem C9_TotalUsagePercent (v : Volume) (t : trace) (total used free : Z) (err : option error) :
  filesystem.Stat (Fs v) t = (total, used, free, err) ->
  snd (TotalUsagePercent v t) = t ++ [FsStat]
  /\ (forall e, err = Some e ->
        fst (TotalUsagePercent v t) = (float32.zero, Some e))
  /\ (err = None -> total = 0 ->
        fst (TotalUsagePercent v t) = (float32.zero, None))
  /\ (err = None -> total <> 0 ->
        fst (TotalUsagePercent v t)
        = (float32.mul (float32.div (float32.of_uint64 used) (float32.of_uint64 total))
                       (float32.const 100), None)).
Proof.
  intros Hstat.
  unfold TotalUsagePercent, bind, perform, ret. rewrite Hstat.
  destruct err as [e|]; simpl.
  - repeat split; intros; try discriminate. congruence.
  - destruct (Z.eqb_spec total 0) as [E|E]; simpl;
      repeat split; intros; try discriminate; try reflexivity; contradiction.
Qed.

Lemma C9_TotalUsagePercent_witness :
  snd (TotalUsagePercent (Scenario.volume 3 []) []) = [] ++ [FsStat]
  /\ fst (TotalUsagePercent (Scenario.volume 3 []) [])
     = (float32.mul (float32.div (float32.of_uint64 100) (float32.of_uint64 200))
                    (float32.const 100), None).
Proof.
  destruct (C9_TotalUsagePercent (Scenario.volume 3 []) [] 200 100 100 None eq_refl)
    as (Ht & _ & _ & Hv).
  split; [exact Ht | apply Hv; [reflexivity | discriminate]].
Defined.

(** ** Tag builder *)

Lemma appendHostTags_filter (hostTags volumeTags : list types.Tag) :
  Forall keyed hostTags ->
  appendHostTags volumeTags hostTags
  = Some (volumeTags ++ filter (fun t => negb (reservedKey t)) hostTags).
Proof.
  revert volumeTags.
  induction hostTags as [|t rest IH]; intros volumeTags Hk; simpl.
  - now rewrite app_nil_r.
  - inversion Hk as [|? ? Ht Hrest]; subst.
    unfold keyed in Ht. unfold reservedKey.
    destruct (types.Key t) as [key|]; [|contradiction].
    destruct (Go.HasPrefix key "aws:"); simpl.
    + now apply IH.
    + rewrite IH by assumption. now rewrite <- app_assoc.
Qed.

(** C8. For every host whose tags carry a key, every id and every clock,
    [buildVolumeTags] returns the four synthetic tags ([source-instance] =
    the instance id, [source-instance-arn] = the ARN, [ebs-autoscale-id] =
    the id, [ebs-autoscale-creation-time] = the rendering of the clock's
    time), followed by the host tags whose key does not begin with "aws:",
    in their order; no tag of the result has a key beginning with "aws:";
    the result is a function of the host, the id and the clock's time. *)
Theorem C8_buildVolumeTags (v : Volume) (now : unit -> Time) :
  Forall keyed (Tags (Host v)) ->
  let synthetic :=
    [ types.mkTag (Some "source-instance"%string) (Some (InstanceId (Host v)));
      types.mkTag (Some "source-instance-arn"%string) (Some (InstanceArn (Host v)));
      types.mkTag (Some "ebs-autoscale-id"%string) (Some (Id v));
      types.mkTag (Some "ebs-autoscale-creation-time"%string) (Some (TimeString (now tt))) ] in
  let built := synthetic ++ filter (fun t => negb (reservedKey t)) (Tags (Host v)) in
  buildVolumeTags v now = Some built
  /\ Forall (fun t => reservedKey t = false) built
  /\ (forall t, In t (Tags (Host v)) -> reservedKey t = true -> ~ In t built)
  /\ (forall v' now', Host v' = Host v -> Id v' = Id v -> now' tt = now tt ->
        buildVolumeTags v' now' = buildVolumeTags v now).
Proof.
  intros Hk synthetic built.
  assert (Hbuilt : Forall (fun t => reservedKey t = false) built).
  { unfold built, synthetic. apply Forall_app. split.
    - repeat constructor.
    - apply Forall_forall. intros t Ht. apply filter_In in Ht.
      destruct Ht as [_ Ht]. now destruct (reservedKey t). }
  repeat split.
  - unfold buildVolumeTags. now rewrite appendHostTags_filter.
  - exact Hbuilt.
  - intros t _ Hres Hin. rewrite Forall_forall in Hbuilt.
    specialize (Hbuilt t Hin). congruence.
  - intros v' now' HH HI HN. unfold buildVolumeTags. now rewrite HH, HI, HN.
Qed.

Lemma C8_buildVolumeTags_witness :
  buildVolumeTags (Scenario.volume 3 []) (fun _ => mkTime "now")
  = Some [ types.mkTag (Some "source-instance"%string) (Some "bob"%string);
           types.mkTag (Some "source-instance-arn"%string) (Some "arn:bob"%string);
           types.mkTag (Some "ebs-autoscale-id"%string) (Some "vol_id"%string);
           types.mkTag (Some "ebs-autoscale-creation-time"%string) (Some "now"%string);
           types.mkTag (Some "HostName"%string) (Some "Mock Host Name 1"%string);
           types.mkTag (Some "HostLabel"%string) (Some "Mock Host label 1"%string) ].
Proof.
  refine (proj1 (C8_buildVolumeTags (Scenario.volume 3 []) (fun _ => mkTime "now") _)).
  repeat constructor; discriminate.
Defined.

(** ** Device allocator *)

Section Allocator.

Variable w : World.
Variable probe : string -> option error.
Hypothesis stable : forall t path, osStat w t path = probe path.

Lemma isAvailable_exists (path : string) (t : trace) :
  nodeExists probe path -> fst (isAvailable w path t) = (false, None).
Proof.
  unfold nodeExists, isAvailable, bind, perform, ret. intros H.
  now rewrite stable, H.
Qed.

Lemma isAvailable_absent (path : string) (t : trace) :
  nodeAbsent probe path -> fst (isAvailable w path t) = (true, None).
Proof.
  unfold isAvailable, bind, perform, ret. intros (e & H & He).
  now rewrite stable, H, He.
Qed.

Lemma isAvailable_true (path : string) (t : trace) :
  fst (isAvailable w path t) = (true, None) -> nodeAbsent probe path.
Proof.
  unfold nodeAbsent, isAvailable, bind, perform, ret. rewrite stable.
  destruct (probe path) as [e|]; simpl; [|discriminate].
  destruct (errors.IsNotExist e) eqn:He; simpl; [|discriminate].
  intros _. now exists e.
Qed.

Lemma scanDevices_step (i : ascii) (rest : list ascii) (t : trace) :
  fst (scanDevices w (i :: rest) t)
  = match fst (isAvailable w (devicePath i) t) with
    | (_, Some e) => Err e
    | (true, None) => Ok (devicePath i)
    | (false, None) => fst (scanDevices w rest (snd (isAvailable w (devicePath i) t)))
    end.
Proof.
  simpl. unfold bind at 1.
  destruct (isAvailable w (devicePath i) t) as [[b err] t']; simpl.
  destruct err, b; reflexivity.
Qed.

Lemma scanDevices_first (pre : list ascii) (i : ascii) (post : list ascii) (t : trace) :
  (forall j, In j pre -> nodeExists probe (devicePath j)) ->
  nodeAbsent probe (devicePath i) ->
  fst (scanDevices w (pre ++ i :: post) t) = Ok (devicePath i).
Proof.
  revert t. induction pre as [|j pre IH]; intros t Hpre Hi.
  - simpl app. rewrite scanDevices_step. now rewrite isAvailable_absent.
  - simpl app. rewrite scanDevices_step.
    rewrite isAvailable_exists by (apply Hpre; now left).
    apply IH; [|assumption]. intros k Hk. apply Hpre. now right.
Qed.

Lemma scanDevices_exhausted (letters : list ascii) (t : trace) :
  (forall j, In j letters -> nodeExists probe (devicePath j)) ->
  fst (scanDevices w letters t) = Err ErrNoLogicalDevice.
Proof.
  revert t. induction letters as [|j rest IH]; intros t H.
  - reflexivity.
  - rewrite scanDevices_step.
    rewrite isAvailable_exists by (apply H; now left).
    apply IH. intros k Hk. apply H. now right.
Qed.

Lemma scanDevices_sound (letters : list ascii) (t : trace) (device : string) :
  fst (scanDevices w letters t) = Ok device ->
  exists pre i post,
    letters = pre ++ i :: post /\ device = devicePath i
    /\ (forall j, In j pre -> ~ nodeAbsent probe (devicePath j))
    /\ nodeAbsent probe device.
Proof.
  revert t. induction letters as [|j rest IH]; intros t H.
  - discriminate.
  - rewrite scanDevices_step in H.
    destruct (fst (isAvailable w (devicePath j) t)) as [b [e|]] eqn:E;
      [destruct b; discriminate|].
    destruct b.
    + inversion H; subst. exists [], j, rest. repeat split.
      * intros k [].
      * now apply isAvailable_true with t.
    + destruct (IH _ H) as (pre & i & post & -> & -> & Hpre & Hi).
      exists (j :: pre), i, post. repeat split; [|assumption].
      intros k [<-|Hk]; [|now apply Hpre].
      intros Habs. rewrite (isAvailable_absent _ t Habs) in E. discriminate.
Qed.

Lemma isAvailable_failure (path : string) (t : trace) (e : error) :
  probe path = Some e -> errors.IsNotExist e = false ->
  fst (isAvailable w path t) = (false, Some (ErrUnexpectedStat e)).
Proof.
  unfold isAvailable, bind, perform, ret. intros H He.
  now rewrite stable, H, He.
Qed.

(** A probe that fails otherwise than by "does not exist" ends the scan
    with its error, whatever the later candidates. *)
Lemma scanDevices_probe_failure (pre : list ascii) (i : ascii) (post : list ascii)
      (t : trace) (e : error) :
  (forall j, In j pre -> nodeExists probe (devicePath j)) ->
  probe (devicePath i) = Some e -> errors.IsNotExist e = false ->
  fst (scanDevices w (pre ++ i :: post) t) = Err (ErrUnexpectedStat e).
Proof.
  revert t. induction pre as [|j pre IH]; intros t Hpre Hi He.
  - simpl app. rewrite scanDevices_step. now rewrite (isAvailable_failure _ _ e).
  - simpl app. rewrite scanDevices_step.
    rewrite isAvailable_exists by (apply Hpre; now left).
    apply IH; try assumption. intros k Hk. apply Hpre. now right.
Qed.

(** C7. On a /dev that does not change during the scan, the allocator
    goes through /dev/xvdba .. /dev/xvdbz in this order and returns the
    first path that has no node: when every earlier candidate exists and
    this one does not, it is the result. When all 26 candidates exist the
    allocator fails with the error "Could not determine the next logical
    device". A path it returns never has a node, and no candidate before
    it is free. *)
Theorem C7_getNextLogicalDevice (v : Volume) (t : trace) :
  map devicePath deviceLetters = candidates
  /\ List.length candidates = 26%nat
  /\ (forall pre device post,
        candidates = pre ++ device :: post ->
        (forall p, In p pre -> nodeExists probe p) ->
        nodeAbsent probe device ->
        fst (getNextLogicalDevice w v t) = Ok device)
  /\ ((forall p, In p candidates -> nodeExists probe p) ->
        fst (getNextLogicalDevice w v t) = Err ErrNoLogicalDevice
        /\ errorKind ErrNoLogicalDevice = NoDeviceAvailable)
  /\ (forall device,
        fst (getNextLogicalDevice w v t) = Ok device ->
        ~ nodeExists probe device
        /\ exists pre post,
             candidates = pre ++ device :: post
             /\ forall p, In p pre -> ~ nodeAbsent probe p).
Proof.
  assert (Hc : map devicePath deviceLetters = candidates) by reflexivity.
  split; [exact Hc|]. split; [reflexivity|]. unfold getNextLogicalDevice.
  split; [|split].
  - intros pre device post Hsplit Hpre Habs.
    rewrite <- Hc in Hsplit.
    apply map_eq_app in Hsplit. destruct Hsplit as (lpre & l2 & Hl & <- & H2).
    apply map_eq_cons in H2. destruct H2 as (i & lpost & -> & <- & <-).
    rewrite Hl. apply scanDevices_first; [|assumption].
    intros j Hj. apply Hpre. now apply in_map.
  - intros Hall. split; [|reflexivity].
    apply scanDevices_exhausted. intros j Hj. apply Hall.
    rewrite <- Hc. now apply in_map.
  - intros device Hok.
    destruct (scanDevices_sound _ _ _ Hok) as (pre & i & post & Hl & -> & Hpre & Hi).
    split.
    + destruct Hi as (e & He & _). unfold nodeExists. congruence.
    + exists (map devicePath pre), (map devicePath post). split.
      * rewrite <- Hc, Hl, map_app. reflexivity.
      * intros p Hp. apply in_map_iff in Hp. destruct Hp as (j & <- & Hj).
        now apply Hpre.
Qed.

End Allocator.

Lemma C7_getNextLogicalDevice_witness :
  fst (getNextLogicalDevice
         (Scenario.quiet ["/dev/xvdba"; "/dev/xvdbb"; "/dev/xvdbc"; "/dev/xvdbd"; "/dev/xvdbe"]%string)
         (Scenario.volume 3 []) [])
  = Ok "/dev/xvdbf"%string.
Proof.
  pose (nodes := ["/dev/xvdba"; "/dev/xvdbb"; "/dev/xvdbc"; "/dev/xvdbd"; "/dev/xvdbe"]%string).
  destruct (C7_getNextLogicalDevice (Scenario.quiet nodes) (Scenario.devProbe nodes)
              (fun _ _ => eq_refl) (Scenario.volume 3 []) [])
    as (_ & _ & Hfirst & _).
  apply (Hfirst nodes "/dev/xvdbf"%string (skipn 6 candidates)).
  - reflexivity.
  - intros p Hp. simpl in Hp.
    repeat (destruct Hp as [<-|Hp]; [reflexivity|]). destruct Hp.
  - eexists. split; reflexivity.
Defined.

(** ** Discovery *)

Lemma hasAutoscaleTag_existsb (id : string) (tags : list types.Tag) :
  Forall populated tags ->
  hasAutoscaleTag id tags = Some (existsb (isIdTag id) tags).
Proof.
  induction tags as [|t rest IH]; intros H; simpl.
  - reflexivity.
  - inversion H as [|? ? [Hk Hv] Hrest]; subst.
    rewrite (IH Hrest). destruct t as [k x]; simpl in *.
    destruct k as [key|]; [|contradiction].
    destruct x as [value|]; [|contradiction].
    unfold isIdTag; simpl.
    destruct (String.eqb key "ebs-autoscale-id"); [|reflexivity].
    destruct (String.eqb value id); reflexivity.
Qed.

Lemma findManaged_filter (id : string) (attached managed : list types.Volume) :
  Forall (fun vol => Forall populated (types.Tags vol)) attached ->
  findManaged id managed attached = Some (managed ++ filter (carriesId id) attached).
Proof.
  revert managed. induction attached as [|vol rest IH]; intros managed H; simpl.
  - now rewrite app_nil_r.
  - inversion H as [|? ? Hvol Hrest]; subst.
    rewrite hasAutoscaleTag_existsb by assumption.
    fold (carriesId id vol).
    destruct (carriesId id vol).
    + rewrite IH by assumption. now rewrite <- app_assoc.
    + now apply IH.
Qed.

(** C10. When the configuration loads and the provider answers with the
    volumes [attached] (their tags populated), [NewVolume] succeeds and its
    [ManagedVolumes] are exactly the attached volumes that carry the tag
    [ebs-autoscale-id] = MD5 of the mount point, in the provider's order,
    whatever the ceilings of the configuration; and there is an answer of
    the provider for which the state so rebuilt has more records than
    [MaxCreatedVolumes] and a total size above [MaxLogicalSizeGb]. *)
Theorem C10_NewVolume_discovery :
  (forall (w : World) (host : Ec2Host) (fs : filesystem.FileSystem) (cfg : VolumeCfg)
          (t : trace) (attached : list types.Volume),
      loadDefaultConfig w t (Region host) = None ->
      describeVolumes w (t ++ [LoadDefaultConfig (Region host)]) (InstanceId host)
        = inl attached ->
      Forall (fun vol => Forall populated (types.Tags vol)) attached ->
      exists v,
        NewVolume w host fs cfg t
          = (Ok v, t ++ [LoadDefaultConfig (Region host); DescribeVolumes (InstanceId host)])
        /\ Id v = Md5String (filesystem.GetMountPoint fs)
        /\ ManagedVolumes v = filter (carriesId (Md5String (filesystem.GetMountPoint fs))) attached
        /\ MaxCreatedVolumes v = EbsMaxCreatedVolumes cfg
        /\ MaxLogicalSizeGb v = MaxSizeGb cfg)
  /\ (exists (w : World) (v : Volume) (t : trace) (total : Z),
        NewVolume w Scenario.host Scenario.fs Scenario.cfg [] = (Ok v, t)
        /\ Go.len32 (ManagedVolumes v) > MaxCreatedVolumes v
        /\ managedVolumeSizeGb v = Some total
        /\ total > MaxLogicalSizeGb v).
Proof.
  split.
  - intros w host fs cfg t attached Hload Hdescribe Htags.
    unfold NewVolume, bind, perform, ret.
    rewrite Hload, Hdescribe, findManaged_filter by assumption.
    eexists. split.
    + rewrite <- app_assoc. reflexivity.
    + simpl. repeat split.
  - exists (Scenario.world Scenario.leftovers [] None).
    eexists. eexists. exists 300.
    split; [vm_compute; reflexivity|].
    split; [vm_compute; reflexivity|].
    split; vm_compute; reflexivity.
Qed.

Lemma C10_NewVolume_discovery_witness :
  exists v,
    fst (NewVolume (Scenario.world Scenario.leftovers [] None)
           Scenario.host Scenario.fs Scenario.cfg []) = Ok v
    /\ ManagedVolumes v = skipn 1 Scenario.leftovers.
Proof.
  destruct (proj1 C10_NewVolume_discovery (Scenario.world Scenario.leftovers [] None)
              Scenario.host Scenario.fs Scenario.cfg [] Scenario.leftovers
              eq_refl eq_refl) as (v & Hrun & _ & Hmanaged & _).
  - repeat constructor; discriminate.
  - exists v. rewrite Hrun. split; [reflexivity|]. rewrite Hmanaged.
    vm_compute. reflexivity.
Defined.

(** ** Rollback and the runs of the protocol *)

Section Protocol.

Variable w : World.

Lemma removeVolume_run (v : Volume) (volumeId : string) (t : trace) :
  removeVolume w v volumeId t
  = (errors.Join
       [ detachVolume w t volumeId;
         waitVolumeAvailable w (t ++ [DetachVolume volumeId]) volumeId 20;
         deleteVolume w (t ++ [DetachVolume volumeId; WaitVolumeAvailable volumeId 20]) volumeId ],
     t ++ [DetachVolume volumeId; WaitVolumeAvailable volumeId 20; DeleteVolume volumeId]).
Proof.
  unfold removeVolume, bind, perform, ret.
  replace ((t ++ [DetachVolume volumeId]) ++ [WaitVolumeAvailable volumeId 20])
    with (t ++ [DetachVolume volumeId; WaitVolumeAvailable volumeId 20])
    by (now rewrite <- app_assoc).
  replace ((t ++ [DetachVolume volumeId; WaitVolumeAvailable volumeId 20]) ++ [DeleteVolume volumeId])
    with (t ++ [DetachVolume volumeId; WaitVolumeAvailable volumeId 20; DeleteVolume volumeId])
    by (now rewrite <- app_assoc).
  destruct (detachVolume w t volumeId),
           (waitVolumeAvailable w (t ++ [DetachVolume volumeId]) volumeId 20),
           (deleteVolume w (t ++ [DetachVolume volumeId; WaitVolumeAvailable volumeId 20]) volumeId);
    reflexivity.
Qed.

Lemma scan_trace (letters : list ascii) (t : trace) :
  exists paths, snd (scanDevices w letters t) = t ++ map OsStat paths.
Proof.
  revert t. induction letters as [|j rest IH]; intros t.
  - exists []. simpl. now rewrite app_nil_r.
  - simpl. unfold bind at 1, isAvailable, bind, perform, ret.
    destruct (osStat w t (devicePath j)) as [e|]; simpl.
    + destruct (errors.IsNotExist e); simpl; exists [devicePath j]; reflexivity.
    + destruct (IH (t ++ [OsStat (devicePath j)])) as (paths & ->).
      exists (devicePath j :: paths). now rewrite <- app_assoc.
Qed.

Lemma awaitDevice_trace (ticks : nat) (device : string) (t : trace) :
  exists probes, snd (awaitDevice w ticks device t) = t ++ map OsStat probes.
Proof.
  revert t. induction ticks as [|n IH]; intros t.
  - exists []. simpl. now rewrite app_nil_r.
  - simpl. unfold bind at 1, isAvailable, bind, perform, ret.
    destruct (osStat w t device) as [e|]; simpl.
    + destruct (errors.IsNotExist e); simpl.
      * destruct (IH (t ++ [OsStat device])) as (probes & ->).
        exists (device :: probes). now rewrite <- app_assoc.
      * exists [device]. reflexivity.
    + exists [device]. reflexivity.
Qed.

Lemma awaitDevice_result (ticks : nat) (device : string) (t : trace) :
  fst (awaitDevice w ticks device t) = None \/ exists e, fst (awaitDevice w ticks device t) = Some e.
Proof. destruct (fst (awaitDevice w ticks device t)); eauto. Qed.


Ltac leaf := let H := fresh in intros H; injection H as <- <- <-.
Ltac rollback_leaf e rollback :=
  destruct rollback as [?e2|]; cbv iota beta; leaf;
  [ match goal with |- attempt _ _ _ _ (Err (JoinError [e; ?e2])) _ _ =>
      change (JoinError [e; e2]) with (withRollback e (Some e2)) end
  | change (@Err string e) with (@Err string (withRollback e None)) ].
Ltac succeeded :=
  cbn [allSucceed stepError]; rewrite <- ?app_assoc; cbn [app]; auto.
Ltac not_ok := let a := fresh in intros a; discriminate.

Lemma createAndAttach_attempt (v : Volume) (sizeGb : Z) (t : trace) r v' t' :
  createAndAttachEbsVolume w v sizeGb t = (r, v', t') ->
  attempt w v sizeGb t r v' t'.
Proof.
  unfold createAndAttachEbsVolume.
  destruct (managedVolumeSizeGb v) as [volSize|];
    [|leaf; apply attempt_refused; not_ok].
  destruct (volSize >? MaxLogicalSizeGb v);
    [leaf; apply attempt_refused; not_ok|].
  destruct (Go.len32 (ManagedVolumes v) =? MaxCreatedVolumes v);
    [leaf; apply attempt_refused; not_ok|].
  unfold bind at 1. unfold instanceHasCapacity, bind, perform, ret.
  destruct (describeVolumes w t (InstanceId (Host v))) as [volumes|err] eqn:Hd;
    [|leaf; apply (attempt_not_created w v sizeGb t _ [] []); [not_ok | now left]].
  destruct (Go.wrap32 (Z.of_nat (List.length volumes)) >? MaxAttachedVolumes v) eqn:Hc; cbn [negb];
    [leaf; apply (attempt_not_created w v sizeGb t _ [] []); [not_ok | now left]|].
  assert (Hp : probePassed w v t).
  { exists volumes. split; [assumption|]. rewrite Z.gtb_ltb in Hc. now apply Z.ltb_ge in Hc. }
  clear Hd Hc.
  unfold getNextLogicalDevice.
  destruct (scan_trace deviceLetters (t ++ [DescribeVolumes (InstanceId (Host v))])) as (paths & Ht2).
  destruct (scanDevices w deviceLetters (t ++ [DescribeVolumes (InstanceId (Host v))])) as [dev t2].
  cbn [snd] in Ht2.
  assert (Hscan : t2 = t ++ probeCall v :: map OsStat paths ++ []).
  { rewrite Ht2, app_nil_r, <- app_assoc. reflexivity. }
  assert (Hclock : t2 ++ [TimeNow] = atCreate v t paths).
  { unfold atCreate. rewrite Ht2, <- !app_assoc. reflexivity. }
  clear Ht2.
  destruct dev as [device|e|];
    [|leaf; rewrite Hscan; apply attempt_not_created; [not_ok | now left]
     |leaf; rewrite Hscan; apply attempt_not_created; [not_ok | now left]].
  destruct (mapIndex volumeTypes (EbsType v)) as [volumeType|];
    [|leaf; rewrite Hscan; apply attempt_not_created; [not_ok | now left]].
  assert (Hnc : t2 ++ [TimeNow] = t ++ probeCall v :: map OsStat paths ++ [TimeNow])
    by exact Hclock.
  destruct (buildVolumeTags v (fun _ => timeNow w t2)) as [tags|];
    [|leaf; rewrite Hnc; apply attempt_not_created; [not_ok | now right]].
  clear Hnc Hscan. rewrite Hclock. clear Hclock t2.
  set (tc := atCreate v t paths).
  match goal with |- context [createVolume w tc ?i] => set (input := i) end.
  assert (Hsize : ec2.Size input = Some sizeGb) by reflexivity.
  clearbody input.
  destruct (createVolume w tc input) as [vol|e] eqn:Hcreate.
  2:{ leaf. apply attempt_create_failed; [assumption..|]. fold tc. now rewrite Hcreate. }
  destruct (ec2.oVolumeId vol) as [volumeId|] eqn:Hid.
  2:{ leaf. apply attempt_create_failed; [assumption..|]. fold tc. rewrite Hcreate. now split. }
  destruct (waitVolumeAvailable w (tc ++ [CreateVolumeCall input]) volumeId 20) as [e|] eqn:Hwait.
  { destruct (removeVolume w v volumeId ((tc ++ [CreateVolumeCall input]) ++ [WaitVolumeAvailable volumeId 20]))
      as [rollback t''] eqn:Hrb.
    rewrite <- app_assoc in Hrb.
    rollback_leaf e rollback;
    (eapply (attempt_rolled_back w v sizeGb t paths input vol device volumeId []);
      [assumption..|constructor|exact I|exact Hwait|exact Hrb]). }
  rewrite <- app_assoc. cbn [app].
  destruct (attachVolume w (tc ++ [CreateVolumeCall input; WaitVolumeAvailable volumeId 20])
              device (InstanceId (Host v)) volumeId) as [e|] eqn:Hattach.
  { match goal with |- context [removeVolume w v volumeId ?tr] =>
      destruct (removeVolume w v volumeId tr) as [rollback t''] eqn:Hrb end.
    rewrite <- app_assoc in Hrb.
    rollback_leaf e rollback;
    (eapply (attempt_rolled_back w v sizeGb t paths input vol device volumeId
              [WaitVolumeAvailable volumeId 20]);
      [assumption..|constructor|succeeded|exact Hattach|exact Hrb]). }
  rewrite <- app_assoc. cbn [app].
  change (Host (setManagedVolumes v (ManagedVolumes v ++ [createVolumeOutputToVolume vol])))
    with (Host v).
  fold (appended v vol).
  destruct (modifyInstanceAttribute w
              (tc ++ [CreateVolumeCall input; WaitVolumeAvailable volumeId 20;
                      AttachVolume device (InstanceId (Host v)) volumeId])
              (InstanceId (Host v)) device true volumeId) as [e|] eqn:Hmark.
  { match goal with |- context [removeVolume w ?x volumeId ?tr] =>
      destruct (removeVolume w x volumeId tr) as [rollback t''] eqn:Hrb end.
    rewrite <- app_assoc in Hrb.
    rollback_leaf e rollback;
    (eapply (attempt_rolled_back w v sizeGb t paths input vol device volumeId
              [WaitVolumeAvailable volumeId 20; AttachVolume device (InstanceId (Host v)) volumeId]);
      [assumption..|constructor|succeeded|exact Hmark|exact Hrb]). }
  rewrite <- app_assoc. cbn [app].
  unfold localVolAvailabilityWaiter.
  match goal with |- context [awaitDevice w ?n device ?tr] =>
    destruct (awaitDevice_trace n device tr) as (probes & Hprobes);
    destruct (awaitDevice w n device tr) as [err t''] end.
  cbn [snd] in Hprobes. subst t''.
  destruct err as [e|]; leaf; rewrite <- app_assoc;
    apply (attempt_attached w v sizeGb t _ paths input vol device volumeId probes);
    eauto; succeeded.
Qed.

End Protocol.

(** ** Totals and ceilings *)

Lemma sumSizes_range (mvs : list types.Volume) (acc total : Z) :
  - 2 ^ 31 <= acc <= 2 ^ 31 - 1 ->
  sumSizes acc mvs = Some total ->
  - 2 ^ 31 <= total <= 2 ^ 31 - 1.
Proof.
  revert acc. induction mvs as [|mv rest IH]; intros acc Hacc H; simpl in H.
  - now inversion H; subst.
  - destruct (types.Size mv) as [size|]; [|discriminate].
    eapply IH; [|exact H]. apply wrap32_range.
Qed.

Lemma sumSizes_app (mvs : list types.Volume) (mv : types.Volume) (acc total size : Z) :
  sumSizes acc mvs = Some total ->
  types.Size mv = Some size ->
  sumSizes acc (mvs ++ [mv]) = Some (Go.add32 total size).
Proof.
  revert acc. induction mvs as [|x rest IH]; intros acc H Hs; simpl in *.
  - inversion H; subst. now rewrite Hs.
  - destruct (types.Size x); [|discriminate]. now apply IH.
Qed.

(** The total after the record of a created volume has been appended. *)
Lemma managedVolumeSizeGb_appended (v : Volume) (vol : ec2.CreateVolumeOutput) (total size : Z) :
  managedVolumeSizeGb v = Some total ->
  ec2.oSize vol = Some size ->
  0 <= size ->
  total + size <= MaxLogicalSizeGb v ->
  exists total',
    managedVolumeSizeGb (appended v vol) = Some total'
    /\ total' <= MaxLogicalSizeGb (appended v vol).
Proof.
  intros Ht Hs Hpos Hmax.
  exists (Go.add32 total size). split.
  - unfold managedVolumeSizeGb, appended. simpl. now apply sumSizes_app.
  - cbn [appended setManagedVolumes MaxLogicalSizeGb].
    assert (Hr : - 2 ^ 31 <= total <= 2 ^ 31 - 1)
      by (eapply sumSizes_range; [|exact Ht]; lia).
    unfold Go.add32.
    destruct (Z_le_gt_dec (total + size) (2 ^ 31 - 1)) as [Hle|Hgt].
    + rewrite wrap32_small; lia.
    + pose proof (wrap32_range (total + size)). lia.
Qed.

Section Ceilings.

Variable w : World.

(** The receiver after an attempt: as before, or with one more record,
    the one of a volume the provider created for the requested size. *)
Lemma createAndAttach_receiver (v : Volume) (sizeGb : Z) (t : trace) :
  snd (fst (createAndAttachEbsVolume w v sizeGb t)) = v
  \/ exists t1 input vol,
       createVolume w t1 input = inl vol
       /\ ec2.Size input = Some sizeGb
       /\ snd (fst (createAndAttachEbsVolume w v sizeGb t)) = appended v vol.
Proof.
  destruct (createAndAttachEbsVolume w v sizeGb t) as [[r v'] t'] eqn:Hrun.
  apply createAndAttach_attempt in Hrun. simpl.
  destruct Hrun; eauto 8.
  match goal with H : protocolStep _ _ _ _ _ _ _ |- _ => destruct H end; eauto 8.
Qed.

(** The record is appended only once the volume has been created, has
    become available and has been attached; an attempt that fails at one of
    these three steps leaves the receiver as it was. *)
Lemma createAndAttach_commit_point (v : Volume) (sizeGb : Z) (t : trace) r v' t' :
  createAndAttachEbsVolume w v sizeGb t = (r, v', t') ->
  v' = v
  \/ exists paths input vol device volumeId,
       createVolume w (atCreate v t paths) input = inl vol
       /\ ec2.oVolumeId vol = Some volumeId
       /\ waitVolumeAvailable w (atCreate v t paths ++ [CreateVolumeCall input]) volumeId 20
          = None
       /\ attachVolume w
            (atCreate v t paths ++ [CreateVolumeCall input; WaitVolumeAvailable volumeId 20])
            device (InstanceId (Host v)) volumeId = None
       /\ v' = appended v vol.
Proof.
  intros Hrun. apply createAndAttach_attempt in Hrun.
  destruct Hrun as [ r Hr
                   | r paths clock Hr Hclock
                   | r paths input Hp Hs Hc
                   | paths input vol device volumeId made step v' e rollback t' Hp Hs Hc Hid Hstep Hmade He Hrb
                   | r paths input vol device volumeId probes Hp Hs Hc Hid Hmade Hr ];
    try (now left).
  - destruct Hstep; try (now left).
    right. exists paths, input, vol, device, volumeId.
    cbn [allSucceed stepError] in Hmade. rewrite <- app_assoc in Hmade.
    destruct Hmade as (Hwait & Hattach & _). repeat split; assumption.
  - right. exists paths, input, vol, device, volumeId.
    cbn [allSucceed stepError] in Hmade. rewrite <- !app_assoc in Hmade.
    destruct Hmade as (Hwait & Hattach & _). repeat split; assumption.
Qed.

Lemma CreateVolume_receiver (v : Volume) (t : trace) :
  snd (fst (CreateVolume w v t))
  = snd (fst (createAndAttachEbsVolume w v (InitialSizeGb v) t)).
Proof.
  unfold CreateVolume, bind, perform, ret.
  destruct (createAndAttachEbsVolume w v (InitialSizeGb v) t) as [[[device|e|] v'] t']; simpl;
    try reflexivity.
  now destruct (filesystem.CreateFileSystem (Fs v') t' device).
Qed.

Lemma GrowVolume_receiver (v : Volume) (t : trace) :
  snd (fst (GrowVolume w v t)) = v
  \/ snd (calculateSizeIncreasePerVolume w v) = None
     /\ snd (fst (GrowVolume w v t))
        = snd (fst (createAndAttachEbsVolume w v (fst (calculateSizeIncreasePerVolume w v)) t)).
Proof.
  unfold GrowVolume, bind, perform, ret.
  destruct (calculateSizeIncreasePerVolume w v) as [size [e|]]; simpl; [now left|right].
  split; [reflexivity|].
  destruct (createAndAttachEbsVolume w v size t) as [[[device|e|] v'] t']; simpl;
    try reflexivity.
  now destruct (filesystem.GrowFileSystem (Fs v') t' device).
Qed.

(** The pre-checks: nothing is called when one of them refuses. *)
Lemma createAndAttach_refused (v : Volume) (sizeGb : Z) (t : trace) (total : Z) :
  managedVolumeSizeGb v = Some total ->
  total > MaxLogicalSizeGb v \/ Go.len32 (ManagedVolumes v) = MaxCreatedVolumes v ->
  exists e,
    createAndAttachEbsVolume w v sizeGb t = (Err e, v, t)
    /\ errorKind e = CapacityExceeded.
Proof.
  intros Ht H. unfold createAndAttachEbsVolume. rewrite Ht.
  destruct (Z.gtb_spec total (MaxLogicalSizeGb v)) as [Hgt|Hle].
  - eexists. split; reflexivity.
  - destruct H as [H|H]; [lia|]. rewrite H, Z.eqb_refl.
    eexists. split; reflexivity.
Qed.

(** The growth is refused, without any call, by either pre-check. *)
Lemma GrowVolume_refused (v : Volume) (t : trace) (total : Z) :
  managedVolumeSizeGb v = Some total ->
  total > MaxLogicalSizeGb v \/ Go.len32 (ManagedVolumes v) = MaxCreatedVolumes v ->
  exists e,
    GrowVolume w v t = (Err e, v, t)
    /\ (Go.sub32 (MaxLogicalSizeGb v) (InitialSizeGb v) > 0 -> errorKind e = CapacityExceeded)
    /\ (Go.sub32 (MaxLogicalSizeGb v) (InitialSizeGb v) <= 0 -> errorKind e = InvalidCapacityConfig).
Proof.
  intros Ht H. unfold GrowVolume.
  destruct (Z_le_gt_dec (Go.sub32 (MaxLogicalSizeGb v) (InitialSizeGb v)) 0) as [Hle|Hgt].
  - rewrite calculateSizeIncreasePerVolume_error by assumption.
    exists ErrCannotGrow. split; [reflexivity|]. split; [lia | reflexivity].
  - pose proof (calculateSizeIncreasePerVolume_no_error w v Hgt) as Hcalc.
    destruct (calculateSizeIncreasePerVolume w v) as [size err]. simpl in Hcalc. subst err.
    destruct (createAndAttach_refused v size t total Ht H) as (e & Hrun & Hkind).
    exists e. unfold bind. rewrite Hrun.
    split; [reflexivity|]. split; [intros _; exact Hkind | lia].
Qed.

(** A step that fails after the creation is followed by the rollback of
    the volume, and the attempt returns the error of the step, joined with
    the error of the rollback when there is one. *)
Lemma createAndAttach_rolls_back (v : Volume) (sizeGb : Z) (t : trace)
      device tc input vol volumeId made step v1 e :
  createdFor w v sizeGb t device tc input vol volumeId ->
  protocolStep v vol device volumeId made step v1 ->
  allSucceed w (tc ++ [CreateVolumeCall input]) made ->
  stepError w (tc ++ CreateVolumeCall input :: made) step = Some e ->
  createAndAttachEbsVolume w v sizeGb t
  = (Err (match fst (removeVolume w v1 volumeId
                       (tc ++ CreateVolumeCall input :: made ++ [step])) with
          | Some e2 => JoinError [e; e2]
          | None => e
          end),
     v1,
     tc ++ CreateVolumeCall input :: made
        ++ [step; DetachVolume volumeId; WaitVolumeAvailable volumeId 20; DeleteVolume volumeId]).
Proof.
  intros (total & volumes & scanned & volumeType & tags & Htotal & Hle & Hlen & Hd & Hcount
          & Hscan & Htype & Htags & -> & -> & Hcreate & Hid) Hstep Hmade He.
  unfold createAndAttachEbsVolume. rewrite Htotal.
  destruct (Z.gtb_spec total (MaxLogicalSizeGb v)) as [Hgt|_]; [lia|].
  destruct (Z.eqb_spec (Go.len32 (ManagedVolumes v)) (MaxCreatedVolumes v)) as [E|_];
    [contradiction|].
  unfold bind at 1. unfold instanceHasCapacity, bind, perform, ret. rewrite Hd.
  destruct (Z.gtb_spec (Go.wrap32 (Z.of_nat (List.length volumes))) (MaxAttachedVolumes v))
    as [Hgt|_]; [lia|].
  cbn [negb]. unfold getNextLogicalDevice. unfold probeCall in Hscan. rewrite Hscan.
  rewrite Htype. cbv beta iota. rewrite Htags. cbv beta iota.
  rewrite Hcreate. cbv beta iota. rewrite Hid. cbv beta iota.
  destruct Hstep; cbn [allSucceed stepError app] in *.
  - rewrite He. cbv beta iota.
    rewrite !removeVolume_run. cbn [fst]. rewrite <- ?app_assoc. cbn [app].
    destruct (errors.Join _); reflexivity.
  - destruct Hmade as (Hwait & _). rewrite Hwait. cbv beta iota.
    rewrite <- ?app_assoc in *. cbn [app] in *. rewrite He. cbv beta iota.
    rewrite !removeVolume_run. cbn [fst]. rewrite <- ?app_assoc. cbn [app].
    destruct (errors.Join _); reflexivity.
  - destruct Hmade as (Hwait & Hattach & _). rewrite Hwait. cbv beta iota.
    rewrite <- ?app_assoc in *. cbn [app] in *. rewrite Hattach. cbv beta iota.
    change (Host (setManagedVolumes v (ManagedVolumes v ++ [createVolumeOutputToVolume vol])))
      with (Host v).
    rewrite <- ?app_assoc in *. cbn [app] in *. rewrite He. cbv beta iota.
    fold (appended v vol).
    rewrite !removeVolume_run. cbn [fst]. rewrite <- ?app_assoc. cbn [app].
    destruct (errors.Join _); reflexivity.
Qed.

End Ceilings.

(** ** The specification's statements on the protocol *)

(** C1. With create, wait and attach succeeding and the marking for
    deletion on termination refused, [createAndAttachEbsVolume] returns the
    error of the marking, after it has detached and deleted the volume, and
    leaves in [ManagedVolumes] the record of that volume: the record is
    appended before the marking, and the failure does not take it back. *)
Theorem C1_mark_failure_keeps_record :
  let w := Scenario.faulty Scenario.markFails in
  let v := Scenario.volume 3 [] in
  let run := createAndAttachEbsVolume w v 50 [] in
  ManagedVolumes v = []
  /\ fst (fst run) = Err (ExternalError "mark refused")
  /\ map types.VolumeId (ManagedVolumes (snd (fst run))) = [Some "vol-new"%string]
  /\ managedVolumeSizeGb (snd (fst run)) = Some 50
  /\ skipn 4 (snd run)
     = [ WaitVolumeAvailable "vol-new" 20;
         AttachVolume "/dev/xvdba" "bob" "vol-new";
         ModifyInstanceAttribute "bob" "/dev/xvdba" true "vol-new";
         DetachVolume "vol-new";
         WaitVolumeAvailable "vol-new" 20;
         DeleteVolume "vol-new" ].
Proof. vm_compute. repeat split. Qed.

(** The sibling failures leave [ManagedVolumes] as it was: here the
    attachment is refused. *)
Example attach_failure_keeps_managed :
  let w := Scenario.faulty Scenario.attachAndDeleteFail in
  let v := Scenario.volume 3 [] in
  let run := createAndAttachEbsVolume w v 50 [] in
  snd (fst run) = v
  /\ fst (fst run)
     = Err (JoinError [ExternalError "attach refused"; JoinError [ExternalError "delete refused"]]).
Proof. vm_compute. repeat split. Qed.

Section Statements.

Variable w : World.

(** C2 (as the code has it). With every record carrying its size,
    [GrowVolume] returns an error without any call, remote or local, and
    leaves the receiver as it is, when the managed total is above
    [MaxLogicalSizeGb] or the number of records equals [MaxCreatedVolumes].
    The error is one of the capacity errors when the increment is
    calculated (the [int32] difference of maximum and initial size is
    positive), and the error of the calculation otherwise. *)
Theorem C2_GrowVolume_refused (v : Volume) (t : trace) (total : Z) :
  managedVolumeSizeGb v = Some total ->
  total > MaxLogicalSizeGb v \/ Go.len32 (ManagedVolumes v) = MaxCreatedVolumes v ->
  exists e,
    GrowVolume w v t = (Err e, v, t)
    /\ (Go.sub32 (MaxLogicalSizeGb v) (InitialSizeGb v) > 0 -> errorKind e = CapacityExceeded)
    /\ (Go.sub32 (MaxLogicalSizeGb v) (InitialSizeGb v) <= 0 -> errorKind e = InvalidCapacityConfig).
Proof. exact (GrowVolume_refused w v t total). Qed.

(** C4 (as the code has it). With every record carrying its size:
    when the managed total is above [MaxLogicalSizeGb], [CreateVolume] and
    [GrowVolume] return an error without any call and leave the receiver
    as it is. When the total is within [MaxLogicalSizeGb], the provider
    reports the volumes it creates with the size requested, and the total
    plus the requested size (the initial size for [CreateVolume], the
    increment for [GrowVolume]) is within [MaxLogicalSizeGb], the total is
    within [MaxLogicalSizeGb] after the operation, however it ends. *)
Theorem C4_total_within_maximum (v : Volume) (t : trace) (total : Z) :
  managedVolumeSizeGb v = Some total ->
  (total > MaxLogicalSizeGb v ->
     (exists e, CreateVolume w v t = (Err e, v, t) /\ errorKind e = CapacityExceeded)
     /\ (exists e, GrowVolume w v t = (Err e, v, t)))
  /\ ((forall t1 input vol, createVolume w t1 input = inl vol -> ec2.oSize vol = ec2.Size input) ->
      (0 <= InitialSizeGb v ->
       total + InitialSizeGb v <= MaxLogicalSizeGb v ->
       exists total',
         managedVolumeSizeGb (snd (fst (CreateVolume w v t))) = Some total'
         /\ total' <= MaxLogicalSizeGb (snd (fst (CreateVolume w v t))))
      /\ (total <= MaxLogicalSizeGb v ->
          0 <= fst (calculateSizeIncreasePerVolume w v) ->
          total + fst (calculateSizeIncreasePerVolume w v) <= MaxLogicalSizeGb v ->
          exists total',
            managedVolumeSizeGb (snd (fst (GrowVolume w v t))) = Some total'
            /\ total' <= MaxLogicalSizeGb (snd (fst (GrowVolume w v t))))).
Proof.
  intros Ht. split.
  - intros Hgt. split.
    + destruct (createAndAttach_refused w v (InitialSizeGb v) t total Ht (or_introl Hgt))
        as (e & Hrun & Hkind).
      exists e. unfold CreateVolume, bind. rewrite Hrun. now split.
    + destruct (GrowVolume_refused w v t total Ht (or_introl Hgt)) as (e & Hrun & _).
      now exists e.
  - intros Hhonest.
    assert (Hkeep : forall sizeGb,
               0 <= sizeGb -> total + sizeGb <= MaxLogicalSizeGb v ->
               exists total',
                 managedVolumeSizeGb (snd (fst (createAndAttachEbsVolume w v sizeGb t))) = Some total'
                 /\ total' <= MaxLogicalSizeGb (snd (fst (createAndAttachEbsVolume w v sizeGb t)))).
    { intros sizeGb Hpos Hroom.
      destruct (createAndAttach_receiver w v sizeGb t) as [->|(t1 & input & vol & Hc & Hs & ->)].
      - exists total. split; [assumption | lia].
      - apply (managedVolumeSizeGb_appended v vol total sizeGb); try assumption.
        rewrite (Hhonest _ _ _ Hc). exact Hs. }
    split.
    + intros Hpos Hroom. rewrite CreateVolume_receiver. now apply Hkeep.
    + intros Hle Hpos Hroom.
      destruct (GrowVolume_receiver w v t) as [->|[_ ->]].
      * exists total. split; assumption.
      * now apply Hkeep.
Qed.

(** C5. [removeVolume] issues its three calls (detach, wait until
    available, delete) in this order whatever each of them answers, and
    returns the join of the errors answered, nil when there is none. An
    attempt of [createAndAttachEbsVolume] either issues no detach and no
    delete, or it ends by the rollback that follows a failed step (the
    availability wait, the attachment or the marking): it then returns the
    error [e] of that step when the rollback returns nil, and the join of
    [e] and the rollback's error when it returns one. And whenever, the
    volume having been created, the availability wait, the attachment or
    the marking fails with [e], the earlier steps having succeeded, the
    attempt goes on with the three calls of [removeVolume] on that volume
    and nothing else, and returns [e] when the rollback returns nil, the
    join of [e] and the rollback's error, in this order, when it returns
    one: the error of the rollback is never returned in place of [e]. *)
Theorem C5_rollback :
  (forall (v : Volume) (volumeId : string) (t : trace),
      removeVolume w v volumeId t
      = (errors.Join
           [ detachVolume w t volumeId;
             waitVolumeAvailable w (t ++ [DetachVolume volumeId]) volumeId 20;
             deleteVolume w (t ++ [DetachVolume volumeId; WaitVolumeAvailable volumeId 20])
               volumeId ],
         t ++ [DetachVolume volumeId; WaitVolumeAvailable volumeId 20; DeleteVolume volumeId]))
  /\ (forall e1 e2 e3,
        errors.Join [Some e1; Some e2; Some e3] = Some (JoinError [e1; e2; e3])
        /\ errors.Join [Some e1; None; Some e3] = Some (JoinError [e1; e3])
        /\ errors.Join [None; None; Some e3] = Some (JoinError [e3])
        /\ errors.Join [None; None; None] = None)
  /\ (forall (v : Volume) (sizeGb : Z) (t : trace) r v' t',
        createAndAttachEbsVolume w v sizeGb t = (r, v', t') ->
        exists new,
          t' = t ++ new
          /\ (Forall (fun c => isCompensation c = false) new
              \/ exists vol device volumeId made step before e rollback,
                   protocolStep v vol device volumeId made step v'
                   /\ stepError w before step = Some e
                   /\ removeVolume w v' volumeId (before ++ [step]) = (rollback, t')
                   /\ r = Err (match rollback with
                               | Some e2 => JoinError [e; e2]
                               | None => e
                               end)))
  /\ (forall (v : Volume) (sizeGb : Z) (t : trace) device tc input vol volumeId made step v1 e,
        createdFor w v sizeGb t device tc input vol volumeId ->
        protocolStep v vol device volumeId made step v1 ->
        allSucceed w (tc ++ [CreateVolumeCall input]) made ->
        stepError w (tc ++ CreateVolumeCall input :: made) step = Some e ->
        createAndAttachEbsVolume w v sizeGb t
        = (Err (match fst (removeVolume w v1 volumeId
                             (tc ++ CreateVolumeCall input :: made ++ [step])) with
                | Some e2 => JoinError [e; e2]
                | None => e
                end),
           v1,
           tc ++ CreateVolumeCall input :: made
              ++ [ step; DetachVolume volumeId; WaitVolumeAvailable volumeId 20;
                   DeleteVolume volumeId ])).
Proof.
  split; [exact (removeVolume_run w)|]. split; [repeat split|].
  split; [|exact (createAndAttach_rolls_back w)].
  intros v sizeGb t r v' t' Hrun.
  apply createAndAttach_attempt in Hrun.
  destruct Hrun as [ r Hr
                   | r paths clock Hr Hclock
                   | r paths input Hp Hs Hc
                   | paths input vol device volumeId made step v' e rollback t' Hp Hs Hc Hid Hstep Hmade He Hrb
                   | r paths input vol device volumeId probes Hp Hs Hc Hid Hmade Hr ].
  - exists []. split; [now rewrite app_nil_r | now left].
  - eexists. split; [reflexivity|]. left.
    constructor; [reflexivity|]. apply Forall_app. split.
    + apply Forall_forall. intros c Hin. apply in_map_iff in Hin.
      destruct Hin as (p & <- & _). reflexivity.
    + destruct Hclock as [->| ->]; repeat constructor.
  - unfold atCreate. eexists. split; [rewrite <- app_assoc; reflexivity|]. left.
    cbn [app]. constructor; [reflexivity|]. rewrite <- app_assoc.
    apply Forall_app. split.
    + apply Forall_forall. intros c Hin. apply in_map_iff in Hin.
      destruct Hin as (p & <- & _). reflexivity.
    + repeat constructor.
  - pose proof Hrb as Hrb'. rewrite removeVolume_run in Hrb'.
    injection Hrb' as _ Ht'.
    exists ((probeCall v :: map OsStat paths ++ [TimeNow])
            ++ (CreateVolumeCall input :: made ++ [step])
            ++ [DetachVolume volumeId; WaitVolumeAvailable volumeId 20; DeleteVolume volumeId]).
    split.
    + rewrite <- Ht'. unfold atCreate. now rewrite <- !app_assoc.
    + right. exists vol, device, volumeId, made, step.
      exists (atCreate v t paths ++ CreateVolumeCall input :: made), e, rollback.
      repeat split; try assumption.
      rewrite <- Hrb. f_equal. now rewrite <- app_assoc.
  - unfold atCreate. eexists. split; [rewrite <- !app_assoc; reflexivity|]. left.
    cbn [app]. constructor; [reflexivity|]. rewrite <- app_assoc.
    apply Forall_app. split.
    + apply Forall_forall. intros c Hin. apply in_map_iff in Hin.
      destruct Hin as (p & <- & _). reflexivity.
    + cbn [app]. repeat (constructor; [reflexivity|]).
      apply Forall_forall. intros c Hin. apply in_map_iff in Hin.
      destruct Hin as (p & <- & _). reflexivity.
Qed.

(** C6. An attempt that passes the pre-checks first asks the provider for
    the volumes attached to the instance, whatever their tags. When the
    count of the answer, as an [int32], is above [MaxAttachedVolumes], the
    attempt returns the error "MaxAttachedVolumes exceeded" with this
    count, and the probe is the only call it has made. In every attempt
    that issues a create call, the probe is the first call of the attempt
    and its count was within [MaxAttachedVolumes]. *)
Theorem C6_fresh_capacity_probe (v : Volume) (sizeGb : Z) (t : trace) :
  (forall total volumes,
      managedVolumeSizeGb v = Some total ->
      total <= MaxLogicalSizeGb v ->
      Go.len32 (ManagedVolumes v) <> MaxCreatedVolumes v ->
      describeVolumes w t (InstanceId (Host v)) = inl volumes ->
      Go.wrap32 (Z.of_nat (List.length volumes)) > MaxAttachedVolumes v ->
      createAndAttachEbsVolume w v sizeGb t
      = (Err (ErrMaxAttachedVolumesExceeded (MaxAttachedVolumes v)
                (Z.of_nat (List.length volumes))),
         v, t ++ [DescribeVolumes (InstanceId (Host v))])
      /\ errorKind (ErrMaxAttachedVolumesExceeded (MaxAttachedVolumes v)
                      (Z.of_nat (List.length volumes))) = CapacityExceeded)
  /\ (forall r v' t',
        createAndAttachEbsVolume w v sizeGb t = (r, v', t') ->
        exists new,
          t' = t ++ new
          /\ forall input, In (CreateVolumeCall input) new ->
               (exists rest, new = DescribeVolumes (InstanceId (Host v)) :: rest)
               /\ exists volumes,
                    describeVolumes w t (InstanceId (Host v)) = inl volumes
                    /\ Go.wrap32 (Z.of_nat (List.length volumes)) <= MaxAttachedVolumes v).
Proof.
  split.
  - intros total volumes Ht Hle Hlen Hd Hc.
    split; [|reflexivity].
    unfold createAndAttachEbsVolume. rewrite Ht.
    destruct (Z.gtb_spec total (MaxLogicalSizeGb v)) as [Hgt|_]; [lia|].
    destruct (Z.eqb_spec (Go.len32 (ManagedVolumes v)) (MaxCreatedVolumes v)) as [E|_];
      [contradiction|].
    unfold bind at 1. unfold instanceHasCapacity, bind, perform, ret. rewrite Hd.
    destruct (Z.gtb_spec (Go.wrap32 (Z.of_nat (List.length volumes))) (MaxAttachedVolumes v))
      as [_|Hn]; [reflexivity | lia].
  - intros r v' t' Hrun.
    apply createAndAttach_attempt in Hrun.
    destruct Hrun as [ r Hr
                     | r paths clock Hr Hclock
                     | r paths input Hp Hs Hc
                     | paths input vol device volumeId made step v' e rollback t' Hp Hs Hc Hid Hstep Hmade He Hrb
                     | r paths input vol device volumeId probes Hp Hs Hc Hid Hmade Hr ].
    + exists []. split; [now rewrite app_nil_r|]. intros input [].
    + eexists. split; [reflexivity|]. intros input Hin. exfalso.
      destruct Hin as [Hin|Hin]; [discriminate|].
      apply in_app_or in Hin. destruct Hin as [Hin|Hin].
      * apply in_map_iff in Hin. destruct Hin as (p & Hp & _). discriminate.
      * destruct Hclock as [->| ->]; simpl in Hin; [contradiction|].
        destruct Hin as [Hin|[]]. discriminate.
    + unfold atCreate. eexists. split; [rewrite <- app_assoc; reflexivity|].
      intros input' _. split; [eexists; reflexivity | exact Hp].
    + rewrite removeVolume_run in Hrb. injection Hrb as _ <-.
      unfold atCreate. eexists. split; [rewrite <- !app_assoc; reflexivity|].
      intros input' _. split; [eexists; reflexivity | exact Hp].
    + unfold atCreate. eexists. split; [rewrite <- !app_assoc; reflexivity|].
      intros input' _. split; [eexists; reflexivity | exact Hp].
Qed.

End Statements.

(** ** The statements at concrete inputs *)

(** With three records for at most three volumes, the growth is refused. *)
Lemma C2_GrowVolume_refused_witness :
  exists e,
    GrowVolume (Scenario.world [] [] None) (Scenario.volume 3 Scenario.grown) []
    = (Err e, Scenario.volume 3 Scenario.grown, [])
    /\ errorKind e = CapacityExceeded.
Proof.
  destruct (C2_GrowVolume_refused (Scenario.world [] [] None)
              (Scenario.volume 3 Scenario.grown) [] 200 eq_refl (or_intror eq_refl))
    as (e & Hrun & Hkind & _).
  exists e. split; [exact Hrun | apply Hkind; reflexivity].
Defined.

(** The same 200 Gb, out of 200, once five volumes are allowed: the growth
    goes to the provider, succeeds, and the total is 237 Gb. *)
Example GrowVolume_at_maximum :
  let run := GrowVolume (Scenario.world [] [] None) (Scenario.volume 5 Scenario.grown) [] in
  managedVolumeSizeGb (Scenario.volume 5 Scenario.grown) = Some 200
  /\ fst (fst run) = Ok tt
  /\ managedVolumeSizeGb (snd (fst run)) = Some 237
  /\ existsb isRemote (snd run) = true.
Proof. vm_compute. repeat split. Qed.

(** C2 as the specification states it does not hold: a total
    equal to the maximum does not stop the growth. *)
Lemma C2_counterexample :
  ~ (forall (w : World) (v : Volume) (t : trace),
        managedVolumeSizeGb v = Some (MaxLogicalSizeGb v)
        \/ Go.len32 (ManagedVolumes v) = MaxCreatedVolumes v ->
        exists e, GrowVolume w v t = (Err e, v, t) /\ errorKind e = CapacityExceeded).
Proof.
  intros H.
  destruct (H (Scenario.world [] [] None) (Scenario.volume 5 Scenario.grown) []
              (or_introl eq_refl)) as (e & Hrun & _).
  vm_compute in Hrun. discriminate.
Qed.

(** With the initial volume of 50 Gb in place, one more volume of 50 Gb,
    or a growth of 75 Gb, keeps the total within the 200 Gb allowed. *)
Lemma C4_total_within_maximum_witness :
  let w := Scenario.world [] [] None in
  let v := Scenario.volume 3 [Scenario.ebsVolume "vol-1" 50 []] in
  (exists total',
      managedVolumeSizeGb (snd (fst (CreateVolume w v []))) = Some total' /\ total' <= 200)
  /\ (exists total',
        managedVolumeSizeGb (snd (fst (GrowVolume w v []))) = Some total' /\ total' <= 200).
Proof.
  intros w v.
  destruct (C4_total_within_maximum w v [] 50 eq_refl) as (_ & Hkeep).
  assert (Hhonest : forall t1 input vol,
             createVolume w t1 input = inl vol -> ec2.oSize vol = ec2.Size input)
    by (intros t1 input vol H; simpl in H; injection H as <-; reflexivity).
  destruct (Hkeep Hhonest) as (Hcreate & Hgrow).
  split.
  - apply Hcreate; vm_compute; discriminate.
  - apply Hgrow; vm_compute; discriminate.
Defined.

(** C4 as the specification states it does not hold: from two
    records of 75 Gb (150 Gb out of 200) a growth of 75 Gb is made, and
    the total is 225 Gb. *)
Lemma C4_counterexample :
  ~ (forall (w : World) (v : Volume) (t : trace) (total : Z),
        managedVolumeSizeGb v = Some total ->
        total <= MaxLogicalSizeGb v ->
        exists total',
          managedVolumeSizeGb (snd (fst (GrowVolume w v t))) = Some total'
          /\ total' <= MaxLogicalSizeGb v).
Proof.
  intros H.
  destruct (H (Scenario.world [] [] None)
              (Scenario.volume 3 [Scenario.ebsVolume "vol-1" 75 []; Scenario.ebsVolume "vol-2" 75 []])
              [] 150 eq_refl ltac:(vm_compute; discriminate)) as (total' & Htotal & Hle).
  vm_compute in Htotal. injection Htotal as <-. vm_compute in Hle. now apply Hle.
Qed.

(** The attachment is refused and the deletion of the rollback too: the
    volume is rolled back, and both errors are in the result, the error of
    the attachment first. *)
Lemma C5_rollback_witness :
  createAndAttachEbsVolume (Scenario.faulty Scenario.attachAndDeleteFail)
    (Scenario.volume 3 []) 50 []
  = (Err (JoinError [ExternalError "attach refused"; JoinError [ExternalError "delete refused"]]),
     Scenario.volume 3 [],
     [ DescribeVolumes "bob"; OsStat "/dev/xvdba"; TimeNow;
       CreateVolumeCall
         (ec2.mkCreateVolumeInput (Some "eu-west-1a"%string) "gp3"%string (Some 50) None None None
            [ types.mkTag (Some "source-instance"%string) (Some "bob"%string);
              types.mkTag (Some "source-instance-arn"%string) (Some "arn:bob"%string);
              types.mkTag (Some "ebs-autoscale-id"%string) (Some "vol_id"%string);
              types.mkTag (Some "ebs-autoscale-creation-time"%string)
                (Some "2024-01-01 00:00:00 +0000 UTC"%string);
              types.mkTag (Some "HostName"%string) (Some "Mock Host Name 1"%string);
              types.mkTag (Some "HostLabel"%string) (Some "Mock Host label 1"%string) ]);
       WaitVolumeAvailable "vol-new" 20;
       AttachVolume "/dev/xvdba" "bob" "vol-new";
       DetachVolume "vol-new";
       WaitVolumeAvailable "vol-new" 20;
       DeleteVolume "vol-new" ]).
Proof.
  pose (w := Scenario.faulty Scenario.attachAndDeleteFail).
  pose (v := Scenario.volume 3 []).
  eassert (Hcreated : createdFor w v 50 [] "/dev/xvdba" _ _ _ "vol-new").
  { unfold createdFor.
    exists 0, [], [DescribeVolumes "bob"; OsStat "/dev/xvdba"], "gp3"%string. eexists.
    split; [reflexivity|]. split; [vm_compute; discriminate|].
    split; [vm_compute; discriminate|]. split; [reflexivity|].
    split; [vm_compute; discriminate|]. split; [reflexivity|].
    split; [reflexivity|]. split; [reflexivity|]. split; [reflexivity|].
    split; [reflexivity|]. split; reflexivity. }
  refine (eq_trans
            (proj2 (proj2 (proj2 (C5_rollback w)))
               v 50 [] "/dev/xvdba"%string _ _ _ "vol-new"%string
               [WaitVolumeAvailable "vol-new" 20]
               (AttachVolume "/dev/xvdba" (InstanceId (Host v)) "vol-new") v
               (ExternalError "attach refused")
               Hcreated (stepAttach v _ "/dev/xvdba" "vol-new") _ _) _).
  - split; [reflexivity | exact I].
  - reflexivity.
  - reflexivity.
Defined.

(** Sixteen volumes attached, sixteen allowed: the attempt goes on and
    attaches one more. *)
Example probe_at_maximum_passes :
  let run := createAndAttachEbsVolume (Scenario.world (firstn 16 Scenario.crowded) [] None)
               (Scenario.volume 3 []) 50 [] in
  fst (fst run) = Ok "/dev/xvdba"%string
  /\ existsb (fun c => match c with AttachVolume _ _ _ => true | _ => false end) (snd run) = true.
Proof. vm_compute. repeat split. Qed.

(** Seventeen volumes attached, sixteen allowed: the attempt stops at the probe. *)
Lemma C6_fresh_capacity_probe_witness :
  createAndAttachEbsVolume (Scenario.world Scenario.crowded [] None) (Scenario.volume 3 []) 50 []
  = (Err (ErrMaxAttachedVolumesExceeded 16 17), Scenario.volume 3 [], [DescribeVolumes "bob"]).
Proof.
  refine (proj1 (proj1 (C6_fresh_capacity_probe (Scenario.world Scenario.crowded [] None)
                          (Scenario.volume 3 []) 50 [])
                   0 Scenario.crowded eq_refl _ _ eq_refl _)).
  - vm_compute. discriminate.
  - vm_compute. discriminate.
  - vm_compute. reflexivity.
Defined.

(** * Further properties *)

(** ** The engine *)

Lemma wrap32_add_l (a b : Z) : Go.wrap32 (Go.wrap32 a + b) = Go.wrap32 (a + b).
Proof.
  unfold Go.wrap32. f_equal.
  replace ((a + 2 ^ 31) mod 2 ^ 32 - 2 ^ 31 + b + 2 ^ 31)
    with ((a + 2 ^ 31) mod 2 ^ 32 + b) by lia.
  rewrite Zplus_mod_idemp_l. f_equal. lia.
Qed.

Lemma sumSizes_wraps (mvs : list types.Volume) (acc : Z) :
  sumSizes (Go.wrap32 acc) mvs
  = option_map (fun sizes => Go.wrap32 (acc + sumZ sizes)) (recordedSizes mvs).
Proof.
  revert acc. induction mvs as [|mv rest IH]; intros acc; simpl.
  - now rewrite Z.add_0_r.
  - destruct (types.Size mv) as [size|]; [|reflexivity].
    unfold Go.add32. rewrite wrap32_add_l, IH.
    destruct (recordedSizes rest) as [sizes|]; simpl; [|reflexivity].
    now rewrite Z.add_assoc.
Qed.

(** X1. [managedVolumeSizeGb] returns the sum of the sizes of the records
    reduced to an [int32]: the sum itself when it fits 32 bits, its
    wrap-around otherwise. It dereferences nil exactly when a record
    carries no size. *)
Theorem X1_managedVolumeSizeGb_sum (v : Volume) :
  managedVolumeSizeGb v
  = option_map (fun sizes => Go.wrap32 (sumZ sizes)) (recordedSizes (ManagedVolumes v))
  /\ (forall sizes,
        recordedSizes (ManagedVolumes v) = Some sizes ->
        - 2 ^ 31 <= sumZ sizes <= 2 ^ 31 - 1 ->
        managedVolumeSizeGb v = Some (sumZ sizes))
  /\ (managedVolumeSizeGb v = None
      <-> exists mv, In mv (ManagedVolumes v) /\ types.Size mv = None).
Proof.
  assert (H : managedVolumeSizeGb v
              = option_map (fun sizes => Go.wrap32 (sumZ sizes))
                  (recordedSizes (ManagedVolumes v))).
  { unfold managedVolumeSizeGb.
    change 0 with (Go.wrap32 0) at 1. now rewrite sumSizes_wraps. }
  split; [exact H|]. split.
  - intros sizes Hs Hr. rewrite H, Hs. simpl. now rewrite wrap32_small.
  - rewrite H. clear H. induction (ManagedVolumes v) as [|mv rest IH]; simpl.
    + split; [discriminate | intros (mv & [] & _)].
    + destruct (types.Size mv) as [size|] eqn:Hsize.
      * destruct (recordedSizes rest) as [sizes|]; simpl in *.
        -- split; [discriminate|]. intros (x & [<-|Hin] & Hx); [congruence|].
           assert (Hn : Some (Go.wrap32 (sumZ sizes)) = None) by (apply IH; now exists x).
           discriminate.
        -- split; [|reflexivity]. intros _.
           destruct (proj1 IH eq_refl) as (x & Hin & Hx). exists x. split; [now right|assumption].
      * split; [|reflexivity]. intros _. exists mv. split; [now left|assumption].
Qed.

(** Two records of 2^30 Gb: the total wraps to -2^31, which is not above
    any maximum. *)
Example managedVolumeSizeGb_wraps :
  managedVolumeSizeGb
    (Scenario.volume 3 [Scenario.ebsVolume "vol-1" (2 ^ 30) []; Scenario.ebsVolume "vol-2" (2 ^ 30) []])
  = Some (- 2 ^ 31).
Proof. vm_compute. reflexivity. Qed.

Section Waiter.

Variable w : World.

Lemma afterProbes_S (t : trace) (device : string) (k : nat) :
  afterProbes (t ++ [OsStat device]) device k = afterProbes t device (S k).
Proof. unfold afterProbes. simpl. now rewrite <- app_assoc. Qed.

Lemma foundNoNode_S (t : trace) (device : string) (k : nat) (e : error) :
  osStat w t device = Some e -> errors.IsNotExist e = true ->
  foundNoNode w (t ++ [OsStat device]) device k ->
  foundNoNode w t device (S k).
Proof.
  intros H He Hk [|j] Hj.
  - exists e. unfold afterProbes. simpl. rewrite app_nil_r. now split.
  - rewrite <- afterProbes_S. apply Hk. lia.
Qed.

Lemma awaitDevice_run (ticks : nat) (device : string) (t : trace) :
  match fst (awaitDevice w ticks device t) with
  | None =>
      exists k, (k < ticks)%nat /\ foundNoNode w t device k
        /\ osStat w (afterProbes t device k) device = None
        /\ snd (awaitDevice w ticks device t) = afterProbes t device (S k)
  | Some e =>
      (e = ErrLocalWaitTimeout device /\ foundNoNode w t device ticks
       /\ snd (awaitDevice w ticks device t) = afterProbes t device ticks)
      \/ exists k inner, (k < ticks)%nat /\ foundNoNode w t device k
           /\ osStat w (afterProbes t device k) device = Some inner
           /\ errors.IsNotExist inner = false
           /\ e = ErrUnexpectedStat inner
           /\ snd (awaitDevice w ticks device t) = afterProbes t device (S k)
  end.
Proof.
  revert t. induction ticks as [|n IH]; intros t.
  - simpl. left. split; [reflexivity|]. split.
    + intros j Hj. lia.
    + unfold afterProbes. simpl. now rewrite app_nil_r.
  - simpl. unfold bind at 1, isAvailable, bind, perform, ret.
    assert (H0 : afterProbes t device 0 = t) by (unfold afterProbes; simpl; now rewrite app_nil_r).
    destruct (osStat w t device) as [e|] eqn:Hstat; simpl.
    + destruct (errors.IsNotExist e) eqn:He; simpl.
      * specialize (IH (t ++ [OsStat device])).
        destruct (awaitDevice w n device (t ++ [OsStat device])) as [[e'|] t']; simpl in *.
        -- destruct IH as [(-> & Hk & ->)|(k & inner & Hlt & Hk & Hs & Hi & -> & ->)].
           ++ left. split; [reflexivity|]. split; [now apply foundNoNode_S with e|].
              apply afterProbes_S.
           ++ right. exists (S k), inner. rewrite afterProbes_S in Hs.
              repeat split; try assumption; [lia | now apply foundNoNode_S with e |].
              apply afterProbes_S.
        -- destruct IH as (k & Hlt & Hk & Hs & ->). exists (S k).
           rewrite afterProbes_S in Hs.
           repeat split; try assumption; [lia | now apply foundNoNode_S with e |].
           apply afterProbes_S.
      * right. exists 0%nat, e. rewrite H0.
        repeat split; try assumption; [lia | intros j Hj; lia].
    + exists 0%nat. rewrite H0. repeat split; try assumption; [lia | intros j Hj; lia].
Qed.

(** X2. [localVolAvailabilityWaiter] probes the device node at every tick
    and makes no other call. It returns nil at the first probe that finds
    the node, which is one of the ticks received before the time limit. It
    returns the time-out error when every tick received has been answered
    by "does not exist" (at once, without a probe, when no tick is
    received). It returns the error of [isAvailable] at the first probe
    that fails otherwise. *)
Theorem X2_localVolAvailabilityWaiter_run (device : string) (timeoutSec : Z) (t : trace) :
  let ticks := ticksBeforeTimeout w t timeoutSec in
  let run := localVolAvailabilityWaiter w device timeoutSec t in
  match fst run with
  | None =>
      exists k, (k < ticks)%nat /\ foundNoNode w t device k
        /\ osStat w (afterProbes t device k) device = None
        /\ snd run = afterProbes t device (S k)
  | Some e =>
      (e = ErrLocalWaitTimeout device /\ foundNoNode w t device ticks
       /\ snd run = afterProbes t device ticks)
      \/ exists k inner, (k < ticks)%nat /\ foundNoNode w t device k
           /\ osStat w (afterProbes t device k) device = Some inner
           /\ errors.IsNotExist inner = false
           /\ e = ErrUnexpectedStat inner
           /\ snd run = afterProbes t device (S k)
  end.
Proof. intros ticks run. apply awaitDevice_run. Qed.

End Waiter.

(** On a /dev where the node never appears, the waiter gives up after the
    last of its 1000 ticks. *)
Example localVolAvailabilityWaiter_times_out :
  localVolAvailabilityWaiter (Scenario.quiet []) "/dev/xvdba" 50 []
  = (Some (ErrLocalWaitTimeout "/dev/xvdba"), repeat (OsStat "/dev/xvdba") 1000).
Proof. vm_compute. reflexivity. Qed.

Section Success.

Variable w : World.

Lemma scanDevices_candidate (letters : list ascii) (t : trace) (device : string) :
  fst (scanDevices w letters t) = Ok device -> In device (map devicePath letters).
Proof.
  revert t. induction letters as [|i rest IH]; intros t; simpl.
  - discriminate.
  - unfold bind at 1, isAvailable, bind, perform, ret.
    destruct (osStat w t (devicePath i)) as [e|]; simpl.
    + destruct (errors.IsNotExist e); simpl; [|discriminate].
      intros H. injection H as <-. now left.
    + intros H. right. now apply IH with (t ++ [OsStat (devicePath i)]).
Qed.

Lemma createAndAttach_ok (v : Volume) (sizeGb : Z) (t : trace) device v' t' :
  createAndAttachEbsVolume w v sizeGb t = (Ok device, v', t') ->
  In device candidates
  /\ exists paths volumeType tags vol volumeId k,
       let input :=
         ec2.mkCreateVolumeInput (Some (AvailabilityZone (Host v))) volumeType
           (Some sizeGb) (Iops v) (ThroughPut v) None tags in
       let attached :=
         atCreate v t paths
           ++ [ CreateVolumeCall input;
                WaitVolumeAvailable volumeId 20;
                AttachVolume device (InstanceId (Host v)) volumeId;
                ModifyInstanceAttribute (InstanceId (Host v)) device true volumeId ] in
       mapIndex volumeTypes (EbsType v) = Some volumeType
       /\ buildVolumeTags v (fun _ => timeNow w (t ++ probeCall v :: map OsStat paths)) = Some tags
       /\ createVolume w (atCreate v t paths) input = inl vol
       /\ ec2.oVolumeId vol = Some volumeId
       /\ v' = appended v vol
       /\ foundNoNode w attached device k
       /\ osStat w (afterProbes attached device k) device = None
       /\ t' = afterProbes attached device (S k).
Proof.
  unfold createAndAttachEbsVolume.
  destruct (managedVolumeSizeGb v) as [volSize|]; [|discriminate].
  destruct (volSize >? MaxLogicalSizeGb v); [discriminate|].
  destruct (Go.len32 (ManagedVolumes v) =? MaxCreatedVolumes v); [discriminate|].
  unfold bind at 1. unfold instanceHasCapacity, bind, perform, ret.
  destruct (describeVolumes w t (InstanceId (Host v))) as [volumes|err]; [|discriminate].
  destruct (Go.wrap32 (Z.of_nat (List.length volumes)) >? MaxAttachedVolumes v); cbn [negb];
    [discriminate|].
  unfold getNextLogicalDevice.
  destruct (scan_trace w deviceLetters (t ++ [DescribeVolumes (InstanceId (Host v))]))
    as (paths & Ht2).
  pose proof (scanDevices_candidate deviceLetters (t ++ [DescribeVolumes (InstanceId (Host v))]))
    as Hcand.
  destruct (scanDevices w deviceLetters (t ++ [DescribeVolumes (InstanceId (Host v))])) as [dev t2].
  cbn [fst snd] in Ht2, Hcand.
  assert (Hscan : t2 = t ++ probeCall v :: map OsStat paths).
  { rewrite Ht2, <- app_assoc. reflexivity. }
  assert (Hclock : t2 ++ [TimeNow] = atCreate v t paths).
  { unfold atCreate. rewrite Ht2, <- !app_assoc. reflexivity. }
  clear Ht2.
  destruct dev as [dev|e|]; [|discriminate..].
  specialize (Hcand dev eq_refl).
  destruct (mapIndex volumeTypes (EbsType v)) as [volumeType|]; [|discriminate].
  destruct (buildVolumeTags v (fun _ => timeNow w t2)) as [tags|] eqn:Htags; [|discriminate].
  rewrite Hclock. rewrite Hscan in Htags. clear Hclock Hscan t2.
  set (tc := atCreate v t paths).
  match goal with |- context [createVolume w tc ?i] => set (input := i) end.
  destruct (createVolume w tc input) as [vol|e] eqn:Hcreate; [|discriminate].
  destruct (ec2.oVolumeId vol) as [volumeId|] eqn:Hid; [|discriminate].
  destruct (waitVolumeAvailable w (tc ++ [CreateVolumeCall input]) volumeId 20) as [e|].
  { destruct (removeVolume w v volumeId _) as [[?|] ?]; discriminate. }
  rewrite <- app_assoc. cbn [app].
  destruct (attachVolume w _ dev (InstanceId (Host v)) volumeId) as [e|].
  { destruct (removeVolume w v volumeId _) as [[?|] ?]; discriminate. }
  rewrite <- app_assoc. cbn [app].
  change (Host (setManagedVolumes v (ManagedVolumes v ++ [createVolumeOutputToVolume vol])))
    with (Host v).
  fold (appended v vol).
  destruct (modifyInstanceAttribute w _ (InstanceId (Host v)) dev true volumeId) as [e|].
  { destruct (removeVolume w _ volumeId _) as [[?|] ?]; discriminate. }
  rewrite <- app_assoc. cbn [app].
  unfold localVolAvailabilityWaiter.
  match goal with |- context [awaitDevice w ?n dev ?tr] =>
    pose proof (awaitDevice_run w n dev tr) as Hwait;
    destruct (awaitDevice w n dev tr) as [err t''] end.
  cbn [fst snd] in Hwait.
  destruct err as [e|]; [discriminate|].
  intros H. injection H as <- <- <-.
  destruct Hwait as (k & _ & Hk & Hseen & ->).
  split; [exact Hcand|].
  exists paths, volumeType, tags, vol, volumeId, k.
  repeat split; assumption.
Qed.

(** X3. When [createAndAttachEbsVolume] returns a device, the device is
    one of the 26 candidates; one volume has been created, in the
    availability zone of the host, with the type, size, IOPS and throughput
    of the receiver and the tags of [buildVolumeTags]; the calls made are
    the capacity probe, the scan of /dev, the reading of the clock, the
    create call, the availability wait, the attachment to that device, the
    marking for deletion on termination and the probes of the device node,
    of which the last one found the node; and the receiver has gained the
    record of the created volume, and nothing else. *)
Theorem X3_createAndAttach_success (v : Volume) (sizeGb : Z) (t : trace) device v' t' :
  createAndAttachEbsVolume w v sizeGb t = (Ok device, v', t') ->
  In device candidates
  /\ exists paths volumeType tags vol volumeId k,
       let input :=
         ec2.mkCreateVolumeInput (Some (AvailabilityZone (Host v))) volumeType
           (Some sizeGb) (Iops v) (ThroughPut v) None tags in
       let attached :=
         atCreate v t paths
           ++ [ CreateVolumeCall input;
                WaitVolumeAvailable volumeId 20;
                AttachVolume device (InstanceId (Host v)) volumeId;
                ModifyInstanceAttribute (InstanceId (Host v)) device true volumeId ] in
       mapIndex volumeTypes (EbsType v) = Some volumeType
       /\ buildVolumeTags v (fun _ => timeNow w (t ++ probeCall v :: map OsStat paths)) = Some tags
       /\ createVolume w (atCreate v t paths) input = inl vol
       /\ ec2.oVolumeId vol = Some volumeId
       /\ v' = appended v vol
       /\ foundNoNode w attached device k
       /\ osStat w (afterProbes attached device k) device = None
       /\ t' = afterProbes attached device (S k).
Proof. exact (createAndAttach_ok v sizeGb t device v' t'). Qed.

End Success.

Lemma X3_createAndAttach_success_witness :
  exists v' t',
    createAndAttachEbsVolume (Scenario.world [] [] None) (Scenario.volume 3 []) 50 []
    = (Ok "/dev/xvdba"%string, v', t')
    /\ In "/dev/xvdba"%string candidates
    /\ List.length (ManagedVolumes v') = 1%nat.
Proof.
  destruct (createAndAttachEbsVolume (Scenario.world [] [] None) (Scenario.volume 3 []) 50 [])
    as [[r v'] t'] eqn:Hrun.
  assert (Hr : r = Ok "/dev/xvdba"%string) by (vm_compute in Hrun; now injection Hrun as <- _ _).
  subst r. exists v', t'. split; [reflexivity|].
  destruct (X3_createAndAttach_success _ _ _ _ _ _ _ Hrun)
    as (Hcand & paths & volumeType & tags & vol & volumeId & k & _ & _ & _ & _ & Hv & _).
  split; [exact Hcand|]. rewrite Hv. reflexivity.
Defined.

Section AppendOnly.

Variable w : World.

Lemma extendedBy_nil (v : Volume) : extendedBy v [] v.
Proof. unfold extendedBy. rewrite app_nil_r. now destruct v. Qed.

Lemma createAndAttach_extends (v : Volume) (sizeGb : Z) (t : trace) :
  exists new,
    extendedBy v new (snd (fst (createAndAttachEbsVolume w v sizeGb t)))
    /\ (List.length new <= 1)%nat.
Proof.
  destruct (createAndAttach_receiver w v sizeGb t) as [->|(t1 & input & vol & _ & _ & ->)].
  - exists []. split; [apply extendedBy_nil | simpl; lia].
  - exists [createVolumeOutputToVolume vol]. split; [reflexivity | simpl; lia].
Qed.

Lemma CreateVolume_extends (v : Volume) (t : trace) :
  exists new,
    extendedBy v new (snd (fst (CreateVolume w v t))) /\ (List.length new <= 1)%nat.
Proof. rewrite CreateVolume_receiver. apply createAndAttach_extends. Qed.

Lemma GrowVolume_extends (v : Volume) (t : trace) :
  exists new,
    extendedBy v new (snd (fst (GrowVolume w v t))) /\ (List.length new <= 1)%nat.
Proof.
  destruct (GrowVolume_receiver w v t) as [->|[_ ->]].
  - exists []. split; [apply extendedBy_nil | simpl; lia].
  - apply createAndAttach_extends.
Qed.

(** X4. [createAndAttachEbsVolume], [CreateVolume] and [GrowVolume] change
    nothing of the receiver but [ManagedVolumes], which they leave as it is
    or extend by one record at its end, however they end. *)
Theorem X4_operations_append_only (v : Volume) (t : trace) :
  (forall sizeGb, exists new,
      extendedBy v new (snd (fst (createAndAttachEbsVolume w v sizeGb t)))
      /\ (List.length new <= 1)%nat)
  /\ (exists new,
        extendedBy v new (snd (fst (CreateVolume w v t))) /\ (List.length new <= 1)%nat)
  /\ (exists new,
        extendedBy v new (snd (fst (GrowVolume w v t))) /\ (List.length new <= 1)%nat).
Proof.
  split; [intros sizeGb; apply createAndAttach_extends|]. split.
  - apply CreateVolume_extends.
  - apply GrowVolume_extends.
Qed.

Lemma createAndAttach_at_ceiling (v : Volume) (sizeGb : Z) (t : trace) :
  Go.len32 (ManagedVolumes v) = MaxCreatedVolumes v ->
  snd (fst (createAndAttachEbsVolume w v sizeGb t)) = v.
Proof.
  intros H. unfold createAndAttachEbsVolume.
  destruct (managedVolumeSizeGb v) as [volSize|]; [|reflexivity].
  destruct (volSize >? MaxLogicalSizeGb v); [reflexivity|].
  rewrite H, Z.eqb_refl. reflexivity.
Qed.

Lemma createAndAttach_count (v : Volume) (sizeGb : Z) (t : trace) :
  Z.of_nat (List.length (ManagedVolumes v)) <= MaxCreatedVolumes v <= 2 ^ 31 - 1 ->
  Z.of_nat (List.length (ManagedVolumes (snd (fst (createAndAttachEbsVolume w v sizeGb t)))))
  <= MaxCreatedVolumes v.
Proof.
  intros H.
  destruct (Z.eq_dec (Z.of_nat (List.length (ManagedVolumes v))) (MaxCreatedVolumes v)) as [E|N].
  - rewrite createAndAttach_at_ceiling; [lia|].
    unfold Go.len32. rewrite wrap32_small; lia.
  - destruct (createAndAttach_extends v sizeGb t) as (new & -> & Hlen).
    simpl. rewrite length_app. lia.
Qed.

(** X5. When the number of records is within [MaxCreatedVolumes] before
    [CreateVolume] or [GrowVolume], it is within it afterwards, however the
    operation ends. *)
Theorem X5_created_volumes_ceiling (v : Volume) (t : trace) :
  Z.of_nat (List.length (ManagedVolumes v)) <= MaxCreatedVolumes v <= 2 ^ 31 - 1 ->
  Z.of_nat (List.length (ManagedVolumes (snd (fst (CreateVolume w v t)))))
    <= MaxCreatedVolumes (snd (fst (CreateVolume w v t)))
  /\ Z.of_nat (List.length (ManagedVolumes (snd (fst (GrowVolume w v t)))))
    <= MaxCreatedVolumes (snd (fst (GrowVolume w v t))).
Proof.
  intros H.
  destruct (CreateVolume_extends v t) as (n1 & E1 & _).
  destruct (GrowVolume_extends v t) as (n2 & E2 & _).
  split.
  - replace (MaxCreatedVolumes (snd (fst (CreateVolume w v t)))) with (MaxCreatedVolumes v)
      by now rewrite E1.
    rewrite CreateVolume_receiver. now apply createAndAttach_count.
  - replace (MaxCreatedVolumes (snd (fst (GrowVolume w v t)))) with (MaxCreatedVolumes v)
      by now rewrite E2.
    destruct (GrowVolume_receiver w v t) as [->|[_ ->]]; [lia|].
    now apply createAndAttach_count.
Qed.

End AppendOnly.

(** Three records for at most three volumes, and a growth asked for. *)
Lemma X5_created_volumes_ceiling_witness :
  Z.of_nat (List.length (ManagedVolumes
     (snd (fst (GrowVolume (Scenario.world [] [] None) (Scenario.volume 3 Scenario.grown) [])))))
  <= 3.
Proof.
  refine (proj2 (X5_created_volumes_ceiling (Scenario.world [] [] None)
                   (Scenario.volume 3 Scenario.grown) [] _)).
  vm_compute. split; discriminate.
Defined.

Section RoundTrip.

Lemma appendHostTags_extends (hostTags volumeTags tags : list types.Tag) :
  appendHostTags volumeTags hostTags = Some tags ->
  exists rest, tags = volumeTags ++ rest.
Proof.
  revert volumeTags. induction hostTags as [|t rest IH]; intros volumeTags; simpl.
  - intros H. injection H as <-. exists []. now rewrite app_nil_r.
  - destruct (types.Key t) as [key|]; [|discriminate].
    destruct (negb (Go.HasPrefix key "aws:")).
    + intros H. destruct (IH _ H) as (r & ->). exists (t :: r). now rewrite <- app_assoc.
    + apply IH.
Qed.

(** X6. The tags that [buildVolumeTags] gives to a new volume are
    recognised by the discovery of [NewVolume] under the id of the
    receiver, whatever the tags of the host: a volume that carries them is
    taken as managed. *)
Theorem X6_built_tags_are_discovered (v : Volume) (now : unit -> Time) (tags : list types.Tag) :
  buildVolumeTags v now = Some tags ->
  hasAutoscaleTag (Id v) tags = Some true
  /\ forall (vol : types.Volume) (managed : list types.Volume),
       types.Tags vol = tags ->
       findManaged (Id v) managed [vol] = Some (managed ++ [vol]).
Proof.
  unfold buildVolumeTags. intros H.
  apply appendHostTags_extends in H. destruct H as (rest & ->).
  assert (Hid : hasAutoscaleTag (Id v)
                  ([ types.mkTag (Some "source-instance"%string) (Some (InstanceId (Host v)));
                     types.mkTag (Some "source-instance-arn"%string) (Some (InstanceArn (Host v)));
                     types.mkTag (Some "ebs-autoscale-id"%string) (Some (Id v));
                     types.mkTag (Some "ebs-autoscale-creation-time"%string)
                       (Some (TimeString (now tt))) ] ++ rest) = Some true).
  { cbn. now rewrite String.eqb_refl. }
  split; [exact Hid|].
  intros vol managed Htags. simpl. now rewrite Htags, Hid.
Qed.

End RoundTrip.

Lemma X6_built_tags_are_discovered_witness :
  exists tags,
    buildVolumeTags (Scenario.volume 3 []) (fun _ => mkTime "now") = Some tags
    /\ hasAutoscaleTag "vol_id" tags = Some true.
Proof.
  eexists. split; [reflexivity|].
  exact (proj1 (X6_built_tags_are_discovered (Scenario.volume 3 []) (fun _ => mkTime "now")
                  _ eq_refl)).
Defined.

Section FilesystemStep.

Variable w : World.

Lemma Forall_OsStat (P : Call -> bool) (paths : list string) :
  (forall p, P (OsStat p) = true) ->
  Forall (fun c => P c = true) (map OsStat paths).
Proof.
  intros H. apply Forall_forall. intros c Hin. apply in_map_iff in Hin.
  destruct Hin as (p & <- & _). apply H.
Qed.

Lemma createAndAttach_no_fs_change (v : Volume) (sizeGb : Z) (t : trace) r v' t' :
  createAndAttachEbsVolume w v sizeGb t = (r, v', t') ->
  exists new, t' = t ++ new /\ Forall (fun c => negb (isFsChange c) = true) new.
Proof.
  intros Hrun. apply createAndAttach_attempt in Hrun.
  destruct Hrun as [ r Hr
                   | r paths clock Hr Hclock
                   | r paths input Hp Hs Hc
                   | paths input vol device volumeId made step v' e rollback t' Hp Hs Hc Hid Hstep Hmade He Hrb
                   | r paths input vol device volumeId probes Hp Hs Hc Hid Hmade Hr ].
  - exists []. split; [now rewrite app_nil_r | constructor].
  - eexists. split; [reflexivity|].
    constructor; [reflexivity|]. apply Forall_app. split.
    + now apply Forall_OsStat.
    + destruct Hclock as [->| ->]; repeat constructor.
  - unfold atCreate. eexists. split; [rewrite <- app_assoc; reflexivity|].
    cbn [app]. constructor; [reflexivity|]. rewrite <- app_assoc.
    apply Forall_app. split; [now apply Forall_OsStat | repeat constructor].
  - rewrite removeVolume_run in Hrb. injection Hrb as _ <-.
    unfold atCreate. eexists. split; [rewrite <- !app_assoc; reflexivity|].
    cbn [app]. constructor; [reflexivity|]. rewrite <- app_assoc.
    apply Forall_app. split; [now apply Forall_OsStat|].
    cbn [app]. repeat (constructor; [reflexivity|]).
    apply Forall_app. split; [destruct Hstep; repeat constructor|].
    cbn [app]. destruct Hstep; repeat constructor.
  - unfold atCreate. eexists. split; [rewrite <- !app_assoc; reflexivity|].
    cbn [app]. constructor; [reflexivity|]. rewrite <- app_assoc.
    apply Forall_app. split; [now apply Forall_OsStat|].
    cbn [app]. repeat (constructor; [reflexivity|]). now apply Forall_OsStat.
Qed.

Lemma createAndAttach_ok_calls (v : Volume) (sizeGb : Z) (t : trace) device v' t' :
  createAndAttachEbsVolume w v sizeGb t = (Ok device, v', t') ->
  In device candidates
  /\ (exists vol, v' = appended v vol)
  /\ exists made, t' = t ++ made /\ Forall (fun c => quietCall c = true) made.
Proof.
  intros Hrun. apply createAndAttach_ok in Hrun.
  destruct Hrun as (Hcand & paths & volumeType & tags & vol & volumeId & k
                    & _ & _ & _ & _ & -> & _ & _ & ->).
  split; [exact Hcand|]. split; [now exists vol|].
  unfold afterProbes, atCreate. eexists. split; [rewrite <- !app_assoc; reflexivity|].
  cbn [app]. constructor; [reflexivity|]. rewrite <- app_assoc.
  apply Forall_app. split; [now apply Forall_OsStat|].
  cbn [app]. repeat (constructor; [reflexivity|]).
  apply Forall_forall. intros c Hin. apply repeat_spec in Hin. now subst.
Qed.

Lemma filesystem_step (grow : bool) (v : Volume) (sizeGb : Z) (t : trace) r v' t' :
  (' (device, v) <- createAndAttachEbsVolume w v sizeGb ;;
   match device with
   | Err e => ret (Err e, v)
   | Panic => ret (Panic, v)
   | Ok device =>
       err <- (if grow
               then perform (FsGrowFileSystem device)
                      (fun t => filesystem.GrowFileSystem (Fs v) t device)
               else perform (FsCreateFileSystem device)
                      (fun t => filesystem.CreateFileSystem (Fs v) t device)) ;;
       match err with
       | Some e => ret (Err e, v)
       | None => ret (Ok tt, v)
       end
   end) t = (r, v', t') ->
  exists new, t' = t ++ new
    /\ ((notOk r /\ Forall (fun c => negb (isFsChange c) = true) new
         /\ exists attempt,
              createAndAttachEbsVolume w v sizeGb t = (attempt, v', t ++ new)
              /\ sameFailure attempt r)
        \/ exists device vol made,
             new = made ++ [if grow then FsGrowFileSystem device else FsCreateFileSystem device]
             /\ createAndAttachEbsVolume w v sizeGb t = (Ok device, v', t ++ made)
             /\ Forall (fun c => quietCall c = true) made
             /\ In device candidates
             /\ v' = appended v vol
             /\ r = match (if grow then filesystem.GrowFileSystem (Fs v) (t ++ made) device
                          else filesystem.CreateFileSystem (Fs v) (t ++ made) device) with
                    | Some e => Err e
                    | None => Ok tt
                    end).
Proof.
  unfold bind at 1.
  destruct (createAndAttachEbsVolume w v sizeGb t) as [[[device|e|] v1] t1] eqn:Hrun.
  - destruct (createAndAttach_ok_calls _ _ _ _ _ _ Hrun) as (Hcand & (vol & ->) & made & -> & Hmade).
    change (Fs (appended v vol)) with (Fs v).
    intros H. exists (made ++ [if grow then FsGrowFileSystem device else FsCreateFileSystem device]).
    split.
    + destruct grow; unfold bind, perform, ret in H;
        [destruct (filesystem.GrowFileSystem (Fs v) (t ++ made) device)
        |destruct (filesystem.CreateFileSystem (Fs v) (t ++ made) device)];
        injection H as _ _ <-; now rewrite <- app_assoc.
    + right. exists device, vol, made. split; [reflexivity|].
      assert (Hv : v' = appended v vol).
      { destruct grow; unfold bind, perform, ret in H;
          [destruct (filesystem.GrowFileSystem (Fs v) (t ++ made) device)
          |destruct (filesystem.CreateFileSystem (Fs v) (t ++ made) device)];
          injection H as _ <- _; reflexivity. }
      subst v'. split; [reflexivity|]. split; [assumption|].
      split; [assumption|]. split; [reflexivity|].
      destruct grow; unfold bind, perform, ret in H;
        [destruct (filesystem.GrowFileSystem (Fs v) (t ++ made) device)
        |destruct (filesystem.CreateFileSystem (Fs v) (t ++ made) device)];
        injection H as <- _; reflexivity.
  - unfold ret. intros H. injection H as <- <- <-.
    destruct (createAndAttach_no_fs_change _ _ _ _ _ _ Hrun) as (new & -> & Hnew).
    exists new. split; [reflexivity|]. left. split; [intros a; discriminate|].
    split; [assumption|]. exists (Err e). split; [reflexivity|]. left. now exists e.
  - unfold ret. intros H. injection H as <- <- <-.
    destruct (createAndAttach_no_fs_change _ _ _ _ _ _ Hrun) as (new & -> & Hnew).
    exists new. split; [reflexivity|]. left. split; [intros a; discriminate|].
    split; [assumption|]. exists Panic. split; [reflexivity|]. now right.
Qed.

(** X7. [CreateVolume] and [GrowVolume] touch the filesystem only after
    [createAndAttachEbsVolume] has returned a device, and they do when it
    has: the call to the backend ([CreateFileSystem], [GrowFileSystem]) is
    then their last call, it follows the calls of the attempt, it is made
    on the device the attempt returned, one of the 26 candidates, and their
    result is the result of the backend. When the backend fails, its error
    is returned, the record of the volume stays in [ManagedVolumes], and no
    detach or delete call is made. In every other case the attempt has
    returned an error or panicked ([GrowVolume] may also have failed to
    calculate the increment, before any call): they end as it did, with
    its calls and its receiver, without a call that changes the
    filesystem. *)
Theorem X7_filesystem_step_after_attach (v : Volume) (t : trace) :
  (forall r v' t',
      CreateVolume w v t = (r, v', t') ->
      exists new, t' = t ++ new
        /\ ((notOk r /\ Forall (fun c => negb (isFsChange c) = true) new
             /\ exists attempt,
                  createAndAttachEbsVolume w v (InitialSizeGb v) t = (attempt, v', t ++ new)
                  /\ sameFailure attempt r)
            \/ exists device vol made,
                 new = made ++ [FsCreateFileSystem device]
                 /\ createAndAttachEbsVolume w v (InitialSizeGb v) t = (Ok device, v', t ++ made)
                 /\ Forall (fun c => quietCall c = true) made
                 /\ In device candidates
                 /\ v' = appended v vol
                 /\ r = match filesystem.CreateFileSystem (Fs v) (t ++ made) device with
                        | Some e => Err e
                        | None => Ok tt
                        end))
  /\ (forall r v' t',
        GrowVolume w v t = (r, v', t') ->
        exists new, t' = t ++ new
          /\ ((notOk r /\ Forall (fun c => negb (isFsChange c) = true) new
               /\ ((exists e, snd (calculateSizeIncreasePerVolume w v) = Some e
                              /\ r = Err e /\ v' = v /\ new = [])
                   \/ (snd (calculateSizeIncreasePerVolume w v) = None
                       /\ exists attempt,
                            createAndAttachEbsVolume w v
                              (fst (calculateSizeIncreasePerVolume w v)) t
                            = (attempt, v', t ++ new)
                            /\ sameFailure attempt r)))
              \/ exists device vol made,
                   new = made ++ [FsGrowFileSystem device]
                   /\ snd (calculateSizeIncreasePerVolume w v) = None
                   /\ createAndAttachEbsVolume w v (fst (calculateSizeIncreasePerVolume w v)) t
                      = (Ok device, v', t ++ made)
                   /\ Forall (fun c => quietCall c = true) made
                   /\ In device candidates
                   /\ v' = appended v vol
                   /\ r = match filesystem.GrowFileSystem (Fs v) (t ++ made) device with
                          | Some e => Err e
                          | None => Ok tt
                          end)).
Proof.
  split; intros r v' t'.
  - exact (filesystem_step false v (InitialSizeGb v) t r v' t').
  - unfold GrowVolume.
    destruct (calculateSizeIncreasePerVolume w v) as [size [e|]]; cbn [fst snd].
    + unfold ret. intros H. injection H as <- <- <-.
      exists []. split; [now rewrite app_nil_r|]. left.
      split; [intros a; discriminate|]. split; [constructor|].
      left. now exists e.
    + intros H.
      destruct (filesystem_step true v size t r v' t' H)
        as (new & -> & [(Hr & Hnew & Hattempt)|(device & vol & made & -> & Hrun & Hrest)]).
      * exists new. split; [reflexivity|]. left. split; [assumption|].
        split; [assumption|]. right. now split.
      * eexists. split; [reflexivity|]. right. exists device, vol, made.
        split; [reflexivity|]. split; [reflexivity|]. split; assumption.
Qed.

End FilesystemStep.

(** The backend fails to grow the filesystem: the volume stays attached
    and recorded. *)
Example GrowFileSystem_failure_keeps_volume :
  let v := mkVolume Scenario.host (Scenario.mockFS 200 100 100 (Some (ExternalError "btrfs")))
             "vol_id" "gp3" None None 50 200 16 3 [Scenario.ebsVolume "vol-1" 50 []] in
  let run := GrowVolume (Scenario.world [] [] None) v [] in
  fst (fst run) = Err (ExternalError "btrfs")
  /\ List.length (ManagedVolumes (snd (fst run))) = 2%nat
  /\ existsb isCompensation (snd run) = false.
Proof. vm_compute. repeat split. Qed.

Section Restart.

Variable w : World.

(** The record an attempt appends is that of a volume created with the
    tags of [buildVolumeTags]. *)
Lemma createAndAttach_record (v : Volume) (sizeGb : Z) (t : trace) r v' t' :
  createAndAttachEbsVolume w v sizeGb t = (r, v', t') ->
  v' = v
  \/ exists t1 input vol now tags,
       createVolume w t1 input = inl vol
       /\ buildVolumeTags v now = Some tags
       /\ ec2.TagSpecifications input = tags
       /\ v' = appended v vol.
Proof.
  unfold createAndAttachEbsVolume.
  destruct (managedVolumeSizeGb v) as [volSize|]; [|intros H; injection H as _ <- _; now left].
  destruct (volSize >? MaxLogicalSizeGb v); [intros H; injection H as _ <- _; now left|].
  destruct (Go.len32 (ManagedVolumes v) =? MaxCreatedVolumes v);
    [intros H; injection H as _ <- _; now left|].
  unfold bind at 1. unfold instanceHasCapacity, bind, perform, ret.
  destruct (describeVolumes w t (InstanceId (Host v))) as [volumes|err];
    [|intros H; injection H as _ <- _; now left].
  destruct (Go.wrap32 (Z.of_nat (List.length volumes)) >? MaxAttachedVolumes v); cbn [negb];
    [intros H; injection H as _ <- _; now left|].
  unfold getNextLogicalDevice.
  destruct (scanDevices w deviceLetters (t ++ [DescribeVolumes (InstanceId (Host v))])) as [dev t2].
  destruct dev as [dev|e|]; [|intros H; injection H as _ <- _; now left..].
  destruct (mapIndex volumeTypes (EbsType v)) as [volumeType|];
    [|intros H; injection H as _ <- _; now left].
  destruct (buildVolumeTags v (fun _ => timeNow w t2)) as [tags|] eqn:Htags;
    [|intros H; injection H as _ <- _; now left].
  match goal with |- context [createVolume w ?tc ?i] =>
    destruct (createVolume w tc i) as [vol|e] eqn:Hcreate end;
    [|intros H; injection H as _ <- _; now left].
  destruct (ec2.oVolumeId vol) as [volumeId|]; [|intros H; injection H as _ <- _; now left].
  destruct (waitVolumeAvailable w _ volumeId 20) as [e|].
  { destruct (removeVolume w v volumeId _) as [[?|] ?]; intros H; injection H as _ <- _; now left. }
  destruct (attachVolume w _ dev (InstanceId (Host v)) volumeId) as [e|].
  { destruct (removeVolume w v volumeId _) as [[?|] ?]; intros H; injection H as _ <- _; now left. }
  assert (Hright : exists t1 input vol0 now tags0,
             createVolume w t1 input = inl vol0
             /\ buildVolumeTags v now = Some tags0
             /\ ec2.TagSpecifications input = tags0
             /\ appended v vol = appended v vol0).
  { do 2 eexists. exists vol, (fun _ => timeNow w t2), tags.
    split; [exact Hcreate|]. split; [exact Htags|]. split; reflexivity. }
  fold (appended v vol).
  destruct (modifyInstanceAttribute w _ _ dev true volumeId) as [e|].
  { destruct (removeVolume w _ volumeId _) as [[?|] ?]; intros H; injection H as _ <- _;
      right; exact Hright. }
  destruct (localVolAvailabilityWaiter w dev 50 _) as [[e|] t3];
    intros H; injection H as _ <- _; right; exact Hright.
Qed.

Lemma findManaged_all (id : string) (attached managed : list types.Volume) :
  Forall (fun vol => hasAutoscaleTag id (types.Tags vol) = Some true) attached ->
  findManaged id managed attached = Some (managed ++ attached).
Proof.
  revert managed. induction attached as [|vol rest IH]; intros managed H; simpl.
  - now rewrite app_nil_r.
  - inversion H as [|? ? Hvol Hrest]; subst. rewrite Hvol, IH by assumption.
    now rewrite <- app_assoc.
Qed.

Lemma createAndAttach_discoverable (v : Volume) (sizeGb : Z) (t : trace) :
  echoesTags w -> allDiscoverable v ->
  allDiscoverable (snd (fst (createAndAttachEbsVolume w v sizeGb t))).
Proof.
  intros Hecho Hall.
  destruct (createAndAttachEbsVolume w v sizeGb t) as [[r v'] t'] eqn:Hrun. cbn [fst snd].
  destruct (createAndAttach_record _ _ _ _ _ _ Hrun)
    as [->|(t1 & input & vol & now & tags & Hc & Hb & Ht & ->)]; [assumption|].
  unfold allDiscoverable, appended. cbn [ManagedVolumes Id setManagedVolumes].
  apply Forall_app. split; [exact Hall|]. constructor; [|constructor].
  cbn [createVolumeOutputToVolume types.Tags].
  rewrite (Hecho _ _ _ Hc), Ht.
  unfold buildVolumeTags in Hb. apply appendHostTags_extends in Hb. destruct Hb as (rest & ->).
  cbn. now rewrite String.eqb_refl.
Qed.

(** X8. When the provider reports the volumes it creates with the tags it
    was given, and every record of the receiver is recognised by the
    discovery under the receiver's id, every record is still recognised
    after [CreateVolume] and after [GrowVolume], however they end: the
    discovery of [NewVolume], run on the records, finds them all, in their
    order. *)
Theorem X8_records_survive_restart (v : Volume) (t : trace) :
  echoesTags w -> allDiscoverable v ->
  (allDiscoverable (snd (fst (CreateVolume w v t)))
   /\ findManaged (Id v) [] (ManagedVolumes (snd (fst (CreateVolume w v t))))
      = Some (ManagedVolumes (snd (fst (CreateVolume w v t)))))
  /\ (allDiscoverable (snd (fst (GrowVolume w v t)))
      /\ findManaged (Id v) [] (ManagedVolumes (snd (fst (GrowVolume w v t))))
         = Some (ManagedVolumes (snd (fst (GrowVolume w v t))))).
Proof.
  intros Hecho Hall.
  assert (Hfind : forall v', Id v' = Id v -> allDiscoverable v' ->
            findManaged (Id v) [] (ManagedVolumes v') = Some (ManagedVolumes v')).
  { intros v' Hid H. unfold allDiscoverable in H. rewrite Hid in H.
    now rewrite findManaged_all. }
  assert (Hattempt : forall sizeGb,
            allDiscoverable (snd (fst (createAndAttachEbsVolume w v sizeGb t)))
            /\ Id (snd (fst (createAndAttachEbsVolume w v sizeGb t))) = Id v).
  { intros sizeGb. split; [now apply createAndAttach_discoverable|].
    destruct (createAndAttach_receiver w v sizeGb t) as [->|(t1 & input & vol & _ & _ & ->)];
      reflexivity. }
  split.
  - rewrite CreateVolume_receiver. destruct (Hattempt (InitialSizeGb v)) as [H1 H2].
    split; [exact H1 | now apply Hfind].
  - destruct (GrowVolume_receiver w v t) as [->|[_ ->]].
    + split; [exact Hall | now apply Hfind].
    + destruct (Hattempt (fst (calculateSizeIncreasePerVolume w v))) as [H1 H2].
      split; [exact H1 | now apply Hfind].
Qed.

End Restart.

Lemma X8_records_survive_restart_witness :
  let v' := snd (fst (GrowVolume (Scenario.world [] [] None) (Scenario.volume 3 []) [])) in
  List.length (ManagedVolumes v') = 1%nat
  /\ findManaged "vol_id" [] (ManagedVolumes v') = Some (ManagedVolumes v').
Proof.
  intros v'. split; [vm_compute; reflexivity|].
  assert (Hecho : echoesTags (Scenario.world [] [] None)).
  { intros t input vol H. simpl in H. injection H as <-. reflexivity. }
  exact (proj2 (proj2 (X8_records_survive_restart (Scenario.world [] [] None)
                         (Scenario.volume 3 []) [] Hecho (Forall_nil _)))).
Defined.

(** ** The monitor *)

Section MonitorRuns.

Variable w : World.

Lemma monitorLoop_stops (m : MonitorVolume) (wakes : list Wake) (t : trace) r t' :
  monitorLoop w m wakes t = (Some r, t') ->
  (r = Ok tt /\ exists n rest, wakes = repeat TickerC n ++ CtxDone :: rest)
  \/ (r <> Ok tt
      /\ exists n rest t1,
           wakes = repeat TickerC n ++ TickerC :: rest
           /\ assessAndGrow w m t1 = (r, t')).
Proof.
  revert t. induction wakes as [|k rest IH]; intros t; simpl.
  - discriminate.
  - destruct k.
    + unfold bind at 1.
      destruct (assessAndGrow w m t) as [[[]|e|] t1] eqn:Hstep.
      * intros H. destruct (IH _ H) as [(-> & n & rest' & ->)|(Hr & n & rest' & t2 & -> & Hlast)].
        -- left. split; [reflexivity|]. now exists (S n), rest'.
        -- right. split; [assumption|]. now exists (S n), rest', t2.
      * unfold ret. intros H. injection H as <- <-.
        right. split; [discriminate|]. now exists 0%nat, rest, t.
      * unfold ret. intros H. injection H as <- <-.
        right. split; [discriminate|]. now exists 0%nat, rest, t.
    + unfold ret. intros H. injection H as <- <-.
      left. split; [reflexivity|]. now exists 0%nat, rest.
Qed.

Lemma monitorLoop_waiting (m : MonitorVolume) (wakes : list Wake) (t t' : trace) :
  monitorLoop w m wakes t = (None, t') ->
  wakes = repeat TickerC (List.length wakes).
Proof.
  revert t. induction wakes as [|k rest IH]; intros t; simpl.
  - reflexivity.
  - destruct k.
    + unfold bind at 1.
      destruct (assessAndGrow w m t) as [[[]|e|] t1]; [|discriminate..].
      intros H. f_equal. now apply IH with t1.
    + discriminate.
Qed.

(** X10. [Run] panics, before any call, when the poll interval is not
    positive. Otherwise it returns nil only when the end of the context is
    received, after ticks only; it returns an error (or panics) only as
    the result of [assessAndGrow] on a tick, and makes no call after it;
    and it goes on only when it has received nothing but ticks. *)
Theorem X10_Run_returns (m : MonitorVolume) (wakes : list Wake) (t : trace) :
  (PollIntervalSec m <= 0 -> Run w m wakes t = (Some Panic, t))
  /\ (0 < PollIntervalSec m ->
      forall r t',
        Run w m wakes t = (r, t') ->
        match r with
        | None => wakes = repeat TickerC (List.length wakes)
        | Some (Ok _) => exists n rest, wakes = repeat TickerC n ++ CtxDone :: rest
        | Some r' =>
            exists n rest t1,
              wakes = repeat TickerC n ++ TickerC :: rest
              /\ assessAndGrow w m t1 = (r', t')
        end).
Proof.
  unfold Run. split.
  - intros H. apply Z.leb_le in H. now rewrite H.
  - intros H r t' Hrun.
    destruct (Z.leb_spec (PollIntervalSec m) 0) as [Hle|_]; [lia|].
    destruct r as [r|].
    + destruct (monitorLoop_stops _ _ _ _ _ Hrun) as [(-> & Hw)|(Hr & Hw)].
      * exact Hw.
      * destruct r as [[]|e|]; [contradiction|exact Hw..].
    + exact (monitorLoop_waiting m wakes t t' Hrun).
Qed.

End MonitorRuns.

Lemma createCalls_app (a b : trace) : createCalls (a ++ b) = createCalls a ++ createCalls b.
Proof.
  induction a as [|c a IH]; simpl; [reflexivity|].
  destruct c; simpl; now rewrite IH.
Qed.

Lemma createCalls_OsStat (paths : list string) : createCalls (map OsStat paths) = [].
Proof. induction paths; simpl; auto. Qed.

Section MonitorGrowth.

Variable w : World.

Lemma createAndAttach_creates (v : Volume) (sizeGb : Z) (t : trace) r v' t' :
  createAndAttachEbsVolume w v sizeGb t = (r, v', t') ->
  exists inputs,
    createCalls t' = createCalls t ++ inputs
    /\ (List.length inputs <= 1)%nat
    /\ Forall (fun input => ec2.Size input = Some sizeGb) inputs
    /\ (forall device, r = Ok device -> List.length inputs = 1%nat).
Proof.
  intros Hrun. apply createAndAttach_attempt in Hrun.
  destruct Hrun as [ r Hr
                   | r paths clock Hr Hclock
                   | r paths input Hp Hs Hc
                   | paths input vol device volumeId made step v' e rollback t' Hp Hs Hc Hid Hstep Hmade He Hrb
                   | r paths input vol device volumeId probes Hp Hs Hc Hid Hmade Hr ].
  - exists []. rewrite app_nil_r. repeat split; auto.
    intros device ->. now destruct (Hr device).
  - exists []. rewrite createCalls_app. simpl. rewrite createCalls_app, createCalls_OsStat.
    repeat split; auto.
    + destruct Hclock as [->| ->]; reflexivity.
    + intros device ->. now destruct (Hr device).
  - exists [input]. unfold atCreate. rewrite !createCalls_app. simpl.
    rewrite createCalls_app, createCalls_OsStat. simpl. rewrite app_nil_r.
    repeat split; auto.
  - rewrite removeVolume_run in Hrb. injection Hrb as _ <-.
    exists [input]. unfold atCreate.
    split; [|repeat split; auto].
    destruct Hstep; rewrite !createCalls_app; simpl;
      rewrite createCalls_app, createCalls_OsStat; simpl; now rewrite !app_nil_r.
  - exists [input]. unfold atCreate. rewrite !createCalls_app. simpl.
    rewrite createCalls_app, !createCalls_OsStat. simpl. rewrite app_nil_r.
    repeat split; auto.
Qed.

Lemma GrowVolume_creates (v : Volume) (t : trace) r v' t' :
  GrowVolume w v t = (r, v', t') ->
  exists inputs,
    createCalls t' = createCalls t ++ inputs
    /\ (List.length inputs <= 1)%nat
    /\ Forall (fun input => ec2.Size input = Some (fst (calculateSizeIncreasePerVolume w v))) inputs
    /\ (r = Ok tt -> List.length inputs = 1%nat).
Proof.
  unfold GrowVolume.
  destruct (calculateSizeIncreasePerVolume w v) as [size [e|]]; cbn [fst].
  - unfold ret. intros H. injection H as <- <- <-.
    exists []. rewrite app_nil_r. repeat split; auto. discriminate.
  - unfold bind at 1.
    destruct (createAndAttachEbsVolume w v size t) as [[dev v1] t1] eqn:Hrun.
    destruct (createAndAttach_creates _ _ _ _ _ _ Hrun) as (inputs & Hc & Hlen & Hsize & Hok).
    destruct dev as [device|e|].
    + unfold bind, perform, ret.
      destruct (filesystem.GrowFileSystem (Fs v1) t1 device);
        intros H; injection H as <- <- <-;
        exists inputs; rewrite createCalls_app, Hc; simpl; rewrite app_nil_r;
        repeat split; auto; intros _; now apply Hok with device.
    + unfold ret. intros H. injection H as <- <- <-.
      exists inputs. repeat split; auto. discriminate.
    + unfold ret. intros H. injection H as <- <- <-.
      exists inputs. repeat split; auto. discriminate.
Qed.

Lemma CreateVolume_creates (v : Volume) (t : trace) r v' t' :
  CreateVolume w v t = (r, v', t') ->
  exists inputs,
    createCalls t' = createCalls t ++ inputs
    /\ (List.length inputs <= 1)%nat
    /\ Forall (fun input => ec2.Size input = Some (InitialSizeGb v)) inputs
    /\ (r = Ok tt -> List.length inputs = 1%nat).
Proof.
  unfold CreateVolume. unfold bind at 1.
  destruct (createAndAttachEbsVolume w v (InitialSizeGb v) t) as [[dev v1] t1] eqn:Hrun.
  destruct (createAndAttach_creates _ _ _ _ _ _ Hrun) as (inputs & Hc & Hlen & Hsize & Hok).
  destruct dev as [device|e|].
  - unfold bind, perform, ret.
    destruct (filesystem.CreateFileSystem (Fs v1) t1 device);
      intros H; injection H as <- <- <-;
      exists inputs; rewrite createCalls_app, Hc; simpl; rewrite app_nil_r;
      repeat split; auto; intros _; now apply Hok with device.
  - unfold ret. intros H. injection H as <- <- <-.
    exists inputs. repeat split; auto. discriminate.
  - unfold ret. intros H. injection H as <- <- <-.
    exists inputs. repeat split; auto. discriminate.
Qed.

(** X9. [CreateVolume] and [GrowVolume] issue one create call at most,
    for the initial size and for the calculated increment respectively,
    and exactly one when they return nil. *)
Theorem X9_one_volume_per_operation (v : Volume) (t : trace) :
  (forall r v' t',
      CreateVolume w v t = (r, v', t') ->
      exists inputs,
        createCalls t' = createCalls t ++ inputs
        /\ (List.length inputs <= 1)%nat
        /\ Forall (fun input => ec2.Size input = Some (InitialSizeGb v)) inputs
        /\ (r = Ok tt -> List.length inputs = 1%nat))
  /\ (forall r v' t',
        GrowVolume w v t = (r, v', t') ->
        exists inputs,
          createCalls t' = createCalls t ++ inputs
          /\ (List.length inputs <= 1)%nat
          /\ Forall (fun input =>
                       ec2.Size input = Some (fst (calculateSizeIncreasePerVolume w v))) inputs
          /\ (r = Ok tt -> List.length inputs = 1%nat)).
Proof.
  split; intros r v' t'; [apply CreateVolume_creates | apply GrowVolume_creates].
Qed.

Lemma assessAndGrow_creates (m : MonitorVolume) (t : trace) r t' :
  assessAndGrow w m t = (r, t') ->
  exists inputs,
    createCalls t' = createCalls t ++ inputs
    /\ (List.length inputs <= 1)%nat
    /\ Forall (fun input =>
                 ec2.Size input = Some (fst (calculateSizeIncreasePerVolume w (Volume_ m)))) inputs
    /\ (alwaysFull m -> r = Ok tt -> List.length inputs = 1%nat).
Proof.
  unfold assessAndGrow. unfold bind at 1. intros H.
  assert (Hstat : snd (TotalUsagePercent (Volume_ m) t) = t ++ [FsStat]).
  { unfold TotalUsagePercent, bind, perform, ret.
    destruct (filesystem.Stat (Fs (Volume_ m)) t) as [[[total used] free] [e|]]; simpl;
      [reflexivity|]. now destruct (total =? 0). }
  pose proof (fun Hfull : alwaysFull m => Hfull t) as Hfull.
  destruct (TotalUsagePercent (Volume_ m) t) as [[usage err] t1]. cbn [fst snd] in *. subst t1.
  assert (H0 : createCalls (t ++ [FsStat]) = createCalls t ++ [])
    by (rewrite createCalls_app; reflexivity).
  destruct err as [e|].
  - unfold ret in H. injection H as <- <-. exists []. repeat split; auto.
    intros Hf. destruct (Hfull Hf) as (u & Hu & _). discriminate.
  - destruct (geFloat32 usage (PercentageFull m)) eqn:Hge.
    + unfold bind in H.
      destruct (GrowVolume w (Volume_ m) (t ++ [FsStat])) as [[r1 v1] t1] eqn:Hgrow.
      destruct (GrowVolume_creates _ _ _ _ _ Hgrow) as (inputs & Hc & Hlen & Hsize & Hok).
      rewrite H0, app_nil_r in Hc.
      exists inputs.
      destruct r1 as [[]|e|]; unfold ret in H; injection H as <- <-;
        repeat split; auto; try discriminate.
    + unfold ret in H. injection H as <- <-. exists []. repeat split; auto.
      intros Hf. destruct (Hfull Hf) as (u & Hu & Hge'). injection Hu as <-. congruence.
Qed.

Lemma monitorLoop_creates (m : MonitorVolume) (wakes : list Wake) (t : trace) r t' :
  monitorLoop w m wakes t = (r, t') ->
  exists inputs,
    createCalls t' = createCalls t ++ inputs
    /\ (List.length inputs <= ticksOf wakes)%nat
    /\ Forall (fun input =>
                 ec2.Size input = Some (fst (calculateSizeIncreasePerVolume w (Volume_ m)))) inputs
    /\ (alwaysFull m -> r = None -> List.length inputs = List.length wakes).
Proof.
  revert t. induction wakes as [|k rest IH]; intros t; simpl.
  - unfold ret. intros H. injection H as <- <-. exists []. rewrite app_nil_r. repeat split; auto.
  - destruct k.
    + unfold bind at 1.
      destruct (assessAndGrow w m t) as [r1 t1] eqn:Hstep.
      destruct (assessAndGrow_creates _ _ _ _ Hstep) as (i1 & Hc1 & Hl1 & Hs1 & Hok1).
      unfold ticksOf in *. simpl.
      destruct r1 as [[]|e|].
      * intros H. destruct (IH _ H) as (i2 & Hc2 & Hl2 & Hs2 & Hok2).
        exists (i1 ++ i2). rewrite Hc2, Hc1, <- app_assoc, length_app.
        repeat split; [lia | now apply Forall_app |].
        intros Hf Hr. rewrite (Hok1 Hf eq_refl), (Hok2 Hf Hr). reflexivity.
      * unfold ret. intros H. injection H as <- <-. exists i1.
        repeat split; auto; [lia | discriminate].
      * unfold ret. intros H. injection H as <- <-. exists i1.
        repeat split; auto; [lia | discriminate].
    + unfold ret. intros H. injection H as <- <-. exists []. rewrite app_nil_r.
      repeat split; auto; [simpl; lia | discriminate].
Qed.

(** X11. In every run of [Run], every create call asks for the increment
    calculated from the volume the monitor was built with, and there is one
    at most per tick. When, besides, the usage is at or above the threshold
    at every poll, a monitor that goes on after its ticks has created one
    volume per tick: [assessAndGrow] grows a copy of the volume, so that
    the records appended at a tick are not counted at the next one, and the
    number of volumes created in a run is not limited by
    [MaxCreatedVolumes]. *)
Theorem X11_Run_creates_one_volume_per_tick (m : MonitorVolume) (wakes : list Wake) (t : trace) r t' :
  Run w m wakes t = (r, t') ->
  exists inputs,
    createCalls t' = createCalls t ++ inputs
    /\ (List.length inputs <= ticksOf wakes)%nat
    /\ Forall (fun input =>
                 ec2.Size input = Some (fst (calculateSizeIncreasePerVolume w (Volume_ m)))) inputs
    /\ (alwaysFull m -> r = None -> List.length inputs = List.length wakes).
Proof.
  unfold Run.
  destruct (PollIntervalSec m <=? 0).
  - unfold ret. intros H. injection H as <- <-. exists []. rewrite app_nil_r.
    repeat split; auto; [simpl; lia | discriminate].
  - intros H. exact (monitorLoop_creates _ _ _ _ _ H).
Qed.

End MonitorGrowth.

(** Four ticks on a monitor allowed three volumes, which starts with one:
    every tick creates a volume of 75 Gb, and the monitor goes on. *)
Lemma X11_Run_creates_one_volume_per_tick_witness :
  exists inputs t',
    Run (Scenario.world [] [] None) MonitorScenario.monitor (repeat TickerC 4) [] = (None, t')
    /\ createCalls t' = inputs
    /\ List.length inputs = 4%nat
    /\ map ec2.Size inputs = [Some 75; Some 75; Some 75; Some 75]
    /\ MaxCreatedVolumes (Volume_ MonitorScenario.monitor) = 3.
Proof.
  assert (Hfull : alwaysFull MonitorScenario.monitor).
  { intros t. eexists. split; vm_compute; reflexivity. }
  destruct (Run (Scenario.world [] [] None) MonitorScenario.monitor (repeat TickerC 4) [])
    as [r t'] eqn:Hrun.
  destruct (X11_Run_creates_one_volume_per_tick (Scenario.world [] [] None)
              MonitorScenario.monitor (repeat TickerC 4) [] r t' Hrun)
    as (inputs & Hc & Hl & Hs & Hok).
  specialize (Hok Hfull).
  assert (Hr : r = None) by (vm_compute in Hrun; now injection Hrun as <- _).
  subst r. exists inputs, t'. simpl in Hc. subst inputs.
  split; [reflexivity|]. split; [reflexivity|]. split; [now apply Hok|].
  split; [|reflexivity].
  vm_compute in Hrun. injection Hrun as <-. vm_compute. reflexivity.
Defined.

(** ** The identifier of a mount point *)

Lemma le_bytes_length (n : nat) (z : Z) : List.length (md5.le_bytes n z) = n.
Proof. revert z. induction n as [|n IH]; intros z; simpl; [reflexivity | now rewrite IH]. Qed.

Lemma le_bytes_range (n : nat) (z : Z) : Forall (fun b => 0 <= b < 256) (md5.le_bytes n z).
Proof.
  revert z. induction n as [|n IH]; intros z; simpl; constructor.
  - apply Z.mod_pos_bound. lia.
  - apply IH.
Qed.

Lemma Sum_length (data : list Z) : List.length (md5.Sum data) = 16%nat.
Proof. unfold md5.Sum. rewrite !length_app, !le_bytes_length. reflexivity. Qed.

Lemma Sum_range (data : list Z) : Forall (fun b => 0 <= b < 256) (md5.Sum data).
Proof. unfold md5.Sum. repeat (apply Forall_app; split); apply le_bytes_range. Qed.

Lemma digit_hex (z : Z) : 0 <= z < 16 -> isLowerHex (hex.digit z) = true.
Proof.
  intros H.
  assert (E : z = 0 \/ z = 1 \/ z = 2 \/ z = 3 \/ z = 4 \/ z = 5 \/ z = 6 \/ z = 7
              \/ z = 8 \/ z = 9 \/ z = 10 \/ z = 11 \/ z = 12 \/ z = 13 \/ z = 14 \/ z = 15)
    by lia.
  repeat (destruct E as [->|E]; [reflexivity|]). subst z. reflexivity.
Qed.

Lemma EncodeToString_length (bs : list Z) :
  String.length (hex.EncodeToString bs) = (2 * List.length bs)%nat.
Proof. induction bs as [|b rest IH]; simpl; [reflexivity | rewrite IH; lia]. Qed.

Lemma EncodeToString_hex (bs : list Z) :
  Forall (fun b => 0 <= b < 256) bs ->
  forallb isLowerHex (list_ascii_of_string (hex.EncodeToString bs)) = true.
Proof.
  induction 1 as [|b rest Hb _ IH]; [reflexivity|].
  cbn [hex.EncodeToString list_ascii_of_string forallb].
  rewrite IH, !digit_hex; [reflexivity| |].
  - apply Z.mod_pos_bound. lia.
  - split; [apply Z.div_pos; lia | apply Z.div_lt_upper_bound; lia].
Qed.

(** X12. [Md5String] returns 32 characters, each of them a digit of the
    lower-case hexadecimal notation, whatever the string. *)
Theorem X12_Md5String_format (s : string) :
  String.length (Md5String s) = 32%nat
  /\ forallb isLowerHex (list_ascii_of_string (Md5String s)) = true.
Proof.
  unfold Md5String. split.
  - now rewrite EncodeToString_length, Sum_length.
  - apply EncodeToString_hex, Sum_range.
Qed.

(** ** The log writer *)

Lemma ReadBytes_spec (delim : ascii) (r : list ascii) :
  let '(b, r', eof) := ReadBytes delim r in
  r = b ++ r'
  /\ (if eof then r' = [] /\ ~ In delim b
      else exists body, b = body ++ [delim] /\ ~ In delim body).
Proof.
  induction r as [|c rest IH]; simpl.
  - split; [reflexivity|]. split; [reflexivity|]. intros [].
  - destruct (Ascii.eqb_spec c delim) as [->|Hne].
    + split; [reflexivity|]. exists []. split; [reflexivity|]. intros [].
    + destruct (ReadBytes delim rest) as [[b r'] eof].
      destruct IH as (-> & IH). split; [reflexivity|].
      destruct eof.
      * destruct IH as (-> & Hn). split; [reflexivity|].
        intros [E|Hin]; [congruence | contradiction].
      * destruct IH as (body & -> & Hn). exists (c :: body). split; [reflexivity|].
        intros [E|Hin]; [congruence | contradiction].
Qed.

Lemma line_first (body body' rest rest' : list ascii) :
  ~ In LF body -> ~ In LF body' ->
  body ++ LF :: rest = body' ++ LF :: rest' ->
  body = body' /\ rest = rest'.
Proof.
  revert body'. induction body as [|c body IH]; intros body' Hn Hn' H.
  - destruct body' as [|c' body']; simpl in H.
    + injection H as <-. now split.
    + injection H as <- _. exfalso. apply Hn'. now left.
  - destruct body' as [|c' body']; simpl in H.
    + injection H as -> _. exfalso. apply Hn. now left.
    + injection H as <- H. destruct (IH body') as (-> & ->); try assumption.
      * intros Hin. apply Hn. now right.
      * intros Hin. apply Hn'. now right.
      * now split.
Qed.

(** The cut of an input into lines and a rest is unique. *)
Lemma linesThenTail_unique (p q : list (list ascii)) :
  linesThenTail p -> linesThenTail q ->
  List.concat p = List.concat q ->
  p = q.
Proof.
  intros (lines & rest & -> & Hl & Hrest) (lines' & rest' & -> & Hl' & Hrest').
  revert lines' Hl'. induction Hl as [|l lines (body & -> & Hn) Hl IH]; intros lines' Hl' H.
  - destruct Hl' as [|l' lines' (body' & -> & Hn') Hl']; simpl in *.
    + destruct Hrest as [->|(l & -> & Hne & Hn)], Hrest' as [->|(l' & -> & Hne' & Hn')];
        simpl in *; rewrite ?app_nil_r in H; subst; try reflexivity; contradiction.
    + exfalso. destruct Hrest as [->|(l & -> & Hne & Hn)]; simpl in H.
      * destruct body'; discriminate.
      * rewrite app_nil_r in H. apply Hn. rewrite H, <- app_assoc.
        apply in_or_app. right. now left.
  - destruct Hl' as [|l' lines' (body' & -> & Hn') Hl']; simpl in *.
    + exfalso. destruct Hrest' as [->|(l' & -> & Hne' & Hn')]; simpl in H.
      * destruct body; discriminate.
      * rewrite app_nil_r in H. apply Hn'. rewrite <- H, <- app_assoc.
        apply in_or_app. right. now left.
    + rewrite <- !app_assoc in H. simpl in H.
      destruct (line_first _ _ _ _ Hn Hn' H) as (-> & Htail).
      f_equal. now apply IH.
Qed.

Section LogWriterFacts.

Variable w : LogWorld.

Lemma bufferLoop_spec (fuel : nat) (r : list ascii) (evs : eventsBuffer) (n : Z) (t : list LogCall) :
  (List.length r < fuel)%nat ->
  exists new,
    bufferLoop w fuel r evs n t
    = (mkEventsBuffer (events evs ++ new), n + Z.of_nat (List.length r),
       t ++ repeat ClockNow (List.length new))
    /\ List.concat (map messageBytes new) = r
    /\ linesThenTail (map messageBytes new)
    /\ stampedFrom w t new.
Proof.
  revert r evs n t. induction fuel as [|fuel IH]; intros r evs n t Hlen; [lia|].
  simpl. pose proof (ReadBytes_spec LF r) as Hread.
  destruct (ReadBytes LF r) as [[b r'] eof]. destruct Hread as (-> & Hread).
  rewrite length_app in Hlen.
  destruct b as [|c b].
  - destruct eof.
    + destruct Hread as (-> & _). exists []. simpl.
      rewrite !app_nil_r, Z.add_0_r. destruct evs. split; [reflexivity|].
      split; [reflexivity|]. split.
      * exists [], []. split; [reflexivity|]. split; [constructor | now left].
      * intros [|i] e H; discriminate.
    + destruct Hread as ([|? ?] & Hb & _); discriminate.
  - unfold bindT, performT.
    set (ev := mkInputLogEvent (Some (string_of_list_ascii (c :: b)))
                 (Some (Z.quot (unixNano w t) 1000000))).
    assert (Hmsg : messageBytes ev = c :: b).
    { unfold messageBytes, ev. cbn [Message]. apply list_ascii_of_string_of_list_ascii. }
    assert (Hstamp : Timestamp ev = Some (Z.quot (unixNano w (t ++ repeat ClockNow 0)) 1000000)).
    { cbn [repeat]. now rewrite app_nil_r. }
    destruct eof.
    + destruct Hread as (-> & Hn). exists [ev]. unfold retT, add.
      cbn [map List.concat List.length repeat]. rewrite !app_nil_r, Hmsg.
      split; [reflexivity|]. split; [reflexivity|]. split.
      * exists [], [c :: b]. split; [reflexivity|]. split; [constructor|].
        right. exists (c :: b). split; [reflexivity|]. split; [discriminate | exact Hn].
      * intros [|i] e H.
        -- injection H as <-. exact Hstamp.
        -- destruct i; discriminate.
    + destruct Hread as (body & Hb & Hn).
      destruct (IH r' (add evs ev) (n + Z.of_nat (List.length (c :: b))) (t ++ [ClockNow]))
        as (new & Hrun & Hcat & Hlines & Hclock); [simpl in *; lia|].
      exists (ev :: new). rewrite Hrun. unfold add. cbn [events].
      split; [|split; [|split]].
      * rewrite <- !app_assoc. cbn [app List.length repeat].
        rewrite length_app. f_equal. f_equal. cbn [List.length]. lia.
      * cbn [map List.concat]. now rewrite Hmsg, Hcat.
      * destruct Hlines as (lines & rest & Hsplit & Hl & Hrest).
        exists ((c :: b) :: lines), rest. cbn [map]. rewrite Hmsg, Hsplit.
        split; [reflexivity|]. split; [|exact Hrest].
        constructor; [|exact Hl]. rewrite Hb. now exists body.
      * intros [|i] e H.
        -- injection H as <-. exact Hstamp.
        -- cbn [nth_error] in H. rewrite (Hclock i e H).
           cbn [repeat]. now rewrite <- app_assoc.
Qed.

Lemma buffer_run (b : list ascii) (evs : eventsBuffer) (t : list LogCall) :
  exists new,
    buffer w b evs t
    = (mkEventsBuffer (events evs ++ new), Z.of_nat (List.length b),
       t ++ repeat ClockNow (List.length new))
    /\ List.concat (map messageBytes new) = b
    /\ linesThenTail (map messageBytes new)
    /\ stampedFrom w t new.
Proof.
  unfold buffer. apply (bufferLoop_spec (S (List.length b)) b evs 0 t). lia.
Qed.

(** X13. [buffer] returns the length of its input and appends to the
    buffer, after the events already there, one event per line of the
    input: the messages of the new events, put end to end, are the input;
    they are lines, each with its line feed at the end and no other,
    followed, when the input does not end with a line feed, by one event
    for the non-empty rest after the last line feed, so that the cut is
    the one at the line feeds and no other; the clock is read once per
    event, and the event carries this reading in milliseconds. *)
Theorem X13_buffer_splits_lines (b : list ascii) (evs : eventsBuffer) (t : list LogCall) :
  exists new,
    buffer w b evs t
    = (mkEventsBuffer (events evs ++ new), Z.of_nat (List.length b),
       t ++ repeat ClockNow (List.length new))
    /\ List.concat (map messageBytes new) = b
    /\ linesThenTail (map messageBytes new)
    /\ stampedFrom w t new
    /\ (forall pieces,
          List.concat pieces = b -> linesThenTail pieces -> pieces = map messageBytes new).
Proof.
  destruct (buffer_run b evs t) as (new & Hrun & Hcat & Hlines & Hstamp).
  exists new. repeat (split; [assumption|]).
  intros pieces Hp Hl. apply linesThenTail_unique; [assumption.. | congruence].
Qed.


Lemma putBytes_app (a b : list LogCall) : putBytes (a ++ b) = putBytes a ++ putBytes b.
Proof.
  induction a as [|c a IH]; simpl; [reflexivity|].
  destruct c; simpl; rewrite IH; now rewrite ?app_assoc.
Qed.

Lemma putBytes_clock (k : nat) : putBytes (repeat ClockNow k) = [].
Proof. induction k; simpl; auto. Qed.

Lemma oneStream_app (name : string) (a b : list LogCall) :
  oneStream name a -> oneStream (nameAfter name a) b -> oneStream name (a ++ b).
Proof.
  revert name. induction a as [|c a IH]; intros name Ha Hb; simpl in *; [assumption|].
  destruct c; simpl in *; auto.
  - destruct Ha as (Hn & Hc & Ha). auto.
  - destruct Ha as (Hs & Hn & Hl & Ha). auto.
Qed.

Lemma nameAfter_app (name : string) (a b : list LogCall) :
  nameAfter name (a ++ b) = nameAfter (nameAfter name a) b.
Proof.
  revert name. induction a as [|c a IH]; intros name; simpl; [reflexivity|].
  destruct c; simpl; apply IH.
Qed.

Lemma oneStream_clock (name : string) (k : nat) :
  oneStream name (repeat ClockNow k) /\ nameAfter name (repeat ClockNow k) = name.
Proof. induction k; simpl; auto. Qed.

Lemma oneStream_creates (name : string) (t : list LogCall) :
  oneStream name t ->
  (List.length (filter isCreateLogStream t) <= if String.eqb name "" then 1 else 0)%nat.
Proof.
  revert name. induction t as [|c t IH]; intros name H; simpl in *.
  - destruct (String.eqb name ""); lia.
  - destruct c; simpl in *; try (now apply IH).
    destruct H as (-> & Hc & H). specialize (IH _ H).
    destruct (String.eqb_spec logStreamName ""); [contradiction|]. simpl. lia.
Qed.

Lemma bytesOf_app (a b : list Received) : bytesOf (a ++ b) = bytesOf a ++ bytesOf b.
Proof.
  induction a as [|r a IH]; simpl; [reflexivity|].
  destruct r; simpl; rewrite IH; now rewrite ?app_assoc.
Qed.

Lemma batchBytes_app (a b : list InputLogEvent) :
  batchBytes (a ++ b) = batchBytes a ++ batchBytes b.
Proof. unfold batchBytes. now rewrite map_app, concat_app. Qed.

Lemma gather_spec (c : CwLogWriter) (batch : eventsBuffer) (received : list Received)
      (t : list LogCall) :
  exists k,
    snd (gather w c batch received t) = t ++ repeat ClockNow k
    /\ match fst (gather w c batch received t) with
       | None => forallb goesOn received = true
       | Some (batch', mainProcessLoop, rest) =>
           exists consumed last,
             received = consumed ++ last :: rest
             /\ forallb goesOn consumed = true
             /\ terminates last = negb mainProcessLoop
             /\ batchBytes (events batch')
                = batchBytes (events batch) ++ bytesOf (consumed ++ [last])
       end.
Proof.
  revert batch t. induction received as [|r rest IH]; intros batch t.
  - exists 0%nat. simpl. now rewrite app_nil_r.
  - destruct r.
    + exists 0%nat. simpl. rewrite app_nil_r. split; [reflexivity|].
      exists [], Expire. simpl. now rewrite app_nil_r.
    + exists 0%nat. simpl. rewrite app_nil_r. split; [reflexivity|].
      exists [], Done. simpl. now rewrite app_nil_r.
    + cbn [gather]. unfold bindT.
      destruct (buffer_run logLine batch t) as (new & -> & Hcat & _).
      destruct (size {| events := events batch ++ new |} mod 2 ^ 32 =? MaxBatchSize c).
      * exists (List.length new). unfold retT. cbn [fst snd]. split; [reflexivity|].
        exists [], (LogLine logLine). cbn [events]. repeat split.
        rewrite batchBytes_app. unfold batchBytes at 2. rewrite Hcat.
        simpl. now rewrite app_nil_r.
      * destruct (IH {| events := events batch ++ new |} (t ++ repeat ClockNow (List.length new)))
          as (k & Htrace & Hres).
        exists (List.length new + k)%nat. split.
        -- rewrite Htrace, repeat_app, app_assoc. reflexivity.
        -- destruct (fst (gather w c {| events := events batch ++ new |} rest
                            (t ++ repeat ClockNow (List.length new))))
             as [[[batch' main] rest']|].
           ++ destruct Hres as (consumed & last & -> & Hgo & Hlast & Hbytes).
              exists (LogLine logLine :: consumed), last. repeat split; try assumption.
              rewrite Hbytes. cbn [events]. rewrite batchBytes_app. unfold batchBytes at 2.
              rewrite Hcat. simpl. now rewrite <- app_assoc.
           ++ exact Hres.
    + cbn [gather]. unfold bindT.
      destruct (buffer_run [] batch t) as (new & -> & Hcat & _).
      exists (List.length new). unfold retT. cbn [fst snd]. split; [reflexivity|].
      exists [], Closed. cbn [events]. repeat split.
      rewrite batchBytes_app. unfold batchBytes at 2. rewrite Hcat. reflexivity.
Qed.

Lemma gather_shorter (c : CwLogWriter) (batch : eventsBuffer) (received : list Received)
      (t : list LogCall) batch' main rest :
  fst (gather w c batch received t) = Some (batch', main, rest) ->
  (List.length rest < List.length received)%nat.
Proof.
  intros H. destruct (gather_spec c batch received t) as (k & _ & Hres).
  rewrite H in Hres. destruct Hres as (consumed & last & -> & _).
  rewrite length_app. simpl. lia.
Qed.

Lemma writeLogs_spec (c : CwLogWriter) (logs : list InputLogEvent) (name : string)
      (t : list LogCall) :
  logs <> [] ->
  exists new,
    snd (writeLogs w c logs name t) = t ++ new
    /\ oneStream name new
    /\ nameAfter name new = fst (fst (writeLogs w c logs name t))
    /\ fst (fst (writeLogs w c logs name t)) <> ""%string
    /\ ((forall t1 g n, createLogStreamAnswer w t1 g n = None) -> putBytes new = batchBytes logs).
Proof.
  intros Hlogs. unfold writeLogs, bindT.
  destruct (String.eqb_spec name "") as [->|Hname].
  - unfold createLogStream, bindT, performT, retT.
    set (created := ("ebs-autoscale-" ++ uuidString w t)%string).
    assert (Hc : created <> ""%string) by discriminate.
    destruct (createLogStreamAnswer w (t ++ [UuidNew]) (LogGroupName c) created) as [e|] eqn:Hcreate.
    + exists [UuidNew; CreateLogStream (LogGroupName c) created]. cbn [fst snd].
      rewrite <- app_assoc. repeat split; simpl; auto.
      intros Hnever. rewrite Hnever in Hcreate. discriminate.
    + exists [UuidNew; CreateLogStream (LogGroupName c) created;
              PutLogEvents logs (LogGroupName c) created].
      destruct (putLogEventsAnswer w _ logs (LogGroupName c) created); cbn [fst snd];
        rewrite <- !app_assoc; repeat split; simpl; auto; now rewrite app_nil_r.
  - unfold performT, retT.
    exists [PutLogEvents logs (LogGroupName c) name].
    destruct (putLogEventsAnswer w t logs (LogGroupName c) name); cbn [fst snd];
      repeat split; simpl; auto; now rewrite app_nil_r.
Qed.

(** The submission of the batch gathered, as [processLogs] makes it. *)
Lemma flush_spec (c : CwLogWriter) (batch : eventsBuffer) (name : string) (t : list LogCall) :
  exists new,
    snd ((if size batch >? 0 then
            bindT (writeLogs w c (events batch) name)
              (fun x => let '(l, err) := x in
                 bindT match err with
                       | Some e => performT (ErrChannelSend e) (fun _ => tt)
                       | None => retT tt
                       end
                       (fun _ => retT l))
          else retT name) t) = t ++ new
    /\ oneStream name new
    /\ nameAfter name new
       = fst ((if size batch >? 0 then
                 bindT (writeLogs w c (events batch) name)
                   (fun x => let '(l, err) := x in
                      bindT match err with
                            | Some e => performT (ErrChannelSend e) (fun _ => tt)
                            | None => retT tt
                            end
                            (fun _ => retT l))
               else retT name) t)
    /\ ((forall t1 g n, createLogStreamAnswer w t1 g n = None) ->
        putBytes new = batchBytes (events batch)).
Proof.
  unfold size. destruct (events batch) as [|ev evs] eqn:Hev.
  - exists []. simpl. rewrite app_nil_r. repeat split.
  - replace (Z.of_nat (List.length (ev :: evs)) >? 0) with true
      by (symmetry; apply Z.gtb_lt; simpl; lia).
    destruct (writeLogs_spec c (ev :: evs) name t ltac:(discriminate))
      as (new & Htrace & Hone & Hname & _ & Hbytes).
    unfold bindT at 1. unfold bindT at 2.
    destruct (writeLogs w c (ev :: evs) name t) as [[l err] t1]. cbn [fst snd] in *. subst t1.
    destruct err as [e|].
    + exists (new ++ [ErrChannelSend e]). unfold bindT, performT, retT. cbn [fst snd].
      rewrite app_assoc. repeat split.
      * apply oneStream_app; simpl; auto.
      * rewrite nameAfter_app. simpl. assumption.
      * intros Hnever. rewrite putBytes_app, Hbytes by assumption. simpl. now rewrite app_nil_r.
    + exists new. unfold bindT, retT. cbn [fst snd]. repeat split; auto.
Qed.

Lemma processLoop_stream (fuel : nat) (c : CwLogWriter) (name : string)
      (received : list Received) (t : list LogCall) :
  exists new,
    snd (processLoop w fuel c name received t) = t ++ new /\ oneStream name new.
Proof.
  revert name received t. induction fuel as [|fuel IH]; intros name received t.
  - exists []. simpl. now rewrite app_nil_r.
  - cbn [processLoop]. unfold bindT at 1.
    destruct (gather_spec c (mkEventsBuffer []) received t) as (k & Htrace & _).
    destruct (gather w c (mkEventsBuffer []) received t) as [g t1]. cbn [snd] in Htrace. subst t1.
    destruct (oneStream_clock name k) as (Hk1 & Hk2).
    destruct g as [[[batch main] rest]|].
    + unfold bindT at 1.
      destruct (flush_spec c batch name (t ++ repeat ClockNow k)) as (new & Hnew & Hone & Hname & _).
      match goal with |- context [?f (t ++ repeat ClockNow k)] =>
        match f with
        | (if _ then _ else _) => destruct (f (t ++ repeat ClockNow k)) as [l t2]
        end
      end.
      cbn [fst snd] in *. subst t2 l.
      destruct main.
      * destruct (IH (nameAfter name new) rest ((t ++ repeat ClockNow k) ++ new))
          as (new' & -> & Hone').
        exists (repeat ClockNow k ++ new ++ new'). rewrite <- !app_assoc. split; [reflexivity|].
        apply oneStream_app; [assumption|]. rewrite Hk2.
        now apply oneStream_app.
      * exists (repeat ClockNow k ++ new). unfold retT. cbn [snd].
        rewrite <- app_assoc. split; [reflexivity|].
        apply oneStream_app; [assumption | now rewrite Hk2].
    + exists (repeat ClockNow k). unfold retT. now cbn [snd].
Qed.

Lemma processLoop_waiting (fuel : nat) (c : CwLogWriter) (name : string)
      (received : list Received) (t : list LogCall) :
  (List.length received < fuel)%nat ->
  fst (processLoop w fuel c name received t) = None ->
  forallb goesOn received = true.
Proof.
  revert name received t. induction fuel as [|fuel IH]; intros name received t Hlen; [lia|].
  cbn [processLoop]. unfold bindT at 1.
  destruct (gather_spec c (mkEventsBuffer []) received t) as (k & _ & Hres).
  destruct (gather w c (mkEventsBuffer []) received t) as [g t1]. cbn [fst] in Hres.
  destruct g as [[[batch main] rest]|]; [|intros _; exact Hres].
  destruct Hres as (consumed & last & -> & Hgo & Hlast & _).
  unfold bindT at 1.
  match goal with |- context [?f t1] =>
    match f with
    | (if _ then _ else _) => destruct (f t1) as [l t2]
    end
  end.
  destruct main; [|discriminate].
  intros H. apply IH in H; [|rewrite length_app in Hlen; simpl in Hlen; lia].
  rewrite forallb_app, Hgo. simpl. rewrite H.
  unfold goesOn. rewrite Hlast. reflexivity.
Qed.

Lemma processLoop_returns (fuel : nat) (c : CwLogWriter) (name : string)
      (received : list Received) (t t' : list LogCall) :
  (forall t1 g n, createLogStreamAnswer w t1 g n = None) ->
  processLoop w fuel c name received t = (Some tt, t') ->
  exists new pre last rest,
    t' = t ++ new
    /\ received = pre ++ last :: rest
    /\ forallb goesOn pre = true
    /\ terminates last = true
    /\ putBytes new = bytesOf pre.
Proof.
  intros Hnever. revert name received t.
  induction fuel as [|fuel IH]; intros name received t; [discriminate|].
  cbn [processLoop]. unfold bindT at 1.
  destruct (gather_spec c (mkEventsBuffer []) received t) as (k & Htrace & Hres).
  destruct (gather w c (mkEventsBuffer []) received t) as [g t1].
  cbn [fst snd] in Htrace, Hres. subst t1.
  destruct g as [[[batch main] rest]|]; [|discriminate].
  destruct Hres as (consumed & last & -> & Hgo & Hlast & Hbytes).
  unfold bindT at 1.
  destruct (flush_spec c batch name (t ++ repeat ClockNow k)) as (new & Hnew & _ & _ & Hput).
  specialize (Hput Hnever).
  match goal with |- context [?f (t ++ repeat ClockNow k)] =>
    match f with
    | (if _ then _ else _) => destruct (f (t ++ repeat ClockNow k)) as [l t2]
    end
  end.
  cbn [snd] in Hnew. subst t2.
  simpl in Hbytes.
  destruct main; simpl in Hlast.
  - intros H. destruct (IH _ _ _ H) as (new' & pre & last' & rest' & -> & -> & Hgo' & Hlast' & Hput').
    exists (repeat ClockNow k ++ new ++ new'), (consumed ++ last :: pre), last', rest'.
    rewrite <- !app_assoc. repeat split; try assumption.
    + rewrite forallb_app, Hgo. simpl. unfold goesOn at 1. now rewrite Hlast.
    + rewrite !putBytes_app, putBytes_clock, Hput, Hput', Hbytes. simpl.
      rewrite <- bytesOf_app, <- app_assoc. reflexivity.
  - unfold retT. intros H. injection H as <-.
    exists (repeat ClockNow k ++ new), consumed, last, rest.
    rewrite <- app_assoc. repeat split; try assumption.
    rewrite putBytes_app, putBytes_clock, Hput, Hbytes. simpl.
    rewrite bytesOf_app. destruct last; try discriminate; simpl; now rewrite app_nil_r.
Qed.

(** X14. In a run of [processLogs] a log stream is created only while no
    stream name is known, and a name is known from the first creation on,
    whether the creation succeeded or failed: one creation at most is
    attempted, every batch is put to the stream of that creation, and no
    batch is empty. *)
Theorem X14_processLogs_one_stream (c : CwLogWriter) (received : list Received) (t : list LogCall) :
  exists new,
    snd (processLogs w c received t) = t ++ new
    /\ oneStream "" new
    /\ (List.length (filter isCreateLogStream new) <= 1)%nat.
Proof.
  destruct (processLoop_stream (S (List.length received)) c "" received t) as (new & Hnew & Hone).
  exists new. split; [exact Hnew|]. split; [exact Hone|].
  exact (oneStream_creates "" new Hone).
Qed.

(** X15. When the creation of the log stream does not fail,
    [processLogs] returns only once the end of the context or the closing
    of the input channel has been received, and the bytes of the batches
    it has put to the log service by then, put end to end, are the bytes
    of the log lines received before, in the order received: no line is
    lost, repeated or moved. Without such a reception it goes on. *)
Theorem X15_processLogs_submits_what_it_received
        (c : CwLogWriter) (received : list Received) (t : list LogCall) :
  (forall t1 g n, createLogStreamAnswer w t1 g n = None) ->
  (fst (processLogs w c received t) = None -> forallb goesOn received = true)
  /\ (forall t',
        processLogs w c received t = (Some tt, t') ->
        exists new pre last rest,
          t' = t ++ new
          /\ received = pre ++ last :: rest
          /\ forallb goesOn pre = true
          /\ terminates last = true
          /\ putBytes new = bytesOf pre).
Proof.
  intros Hnever. split.
  - apply processLoop_waiting. lia.
  - intros t'. now apply processLoop_returns.
Qed.
End LogWriterFacts.

(** A line and a rest: two events, the line with its line feed, one
    millisecond apart on the clock of the scenario. *)
Example buffer_line_and_rest :
  buffer LogScenario.world (LogScenario.bytes "ab" ++ [LF] ++ LogScenario.bytes "c")
    (mkEventsBuffer []) []
  = (mkEventsBuffer
       [ mkInputLogEvent (Some (string_of_list_ascii (LogScenario.bytes "ab" ++ [LF])))
           (Some 1700000000000);
         mkInputLogEvent (Some "c"%string) (Some 1700000000001) ],
     4, [ClockNow; ClockNow]).
Proof. vm_compute. reflexivity. Qed.

(** The three lines received before the end of the context are submitted,
    in two batches, to the stream created for the first. *)
Lemma X15_processLogs_submits_what_it_received_witness :
  exists new,
    processLogs LogScenario.world (LogScenario.writer 100) LogScenario.received [] = (Some tt, new)
    /\ putBytes new
       = LogScenario.bytes "one" ++ [LF] ++ LogScenario.bytes "two" ++ [LF]
         ++ LogScenario.bytes "three".
Proof.
  destruct (processLogs LogScenario.world (LogScenario.writer 100) LogScenario.received [])
    as [r t'] eqn:Hrun.
  assert (Hr : r = Some tt) by (vm_compute in Hrun; now injection Hrun as <- _).
  subst r.
  destruct (proj2 (X15_processLogs_submits_what_it_received LogScenario.world
                     (LogScenario.writer 100) LogScenario.received []
                     (fun _ _ _ => eq_refl)) t' Hrun)
    as (new & pre & last & rest & Ht & Hsplit & Hgo & Hlast & Hput).
  exists t'. split; [reflexivity|].
  simpl in Ht. subst t'.
  vm_compute in Hrun. injection Hrun as <-. vm_compute. reflexivity.
Defined.

(** A batch is submitted when its size equals [MaxBatchSize]; a write of
    three lines takes the batch from zero to three events, past a
    [MaxBatchSize] of two, and the three are submitted together when the
    timer expires. *)
Example batch_beyond_MaxBatchSize :
  let t := snd (processLogs LogScenario.world (LogScenario.writer 2)
                  [ LogLine (LogScenario.bytes "a" ++ [LF] ++ LogScenario.bytes "b" ++ [LF]
                             ++ LogScenario.bytes "c" ++ [LF]);
                    Expire; Done ] []) in
  map (fun c => match c with
                | PutLogEvents logs _ _ => List.length logs
                | _ => 0%nat
                end) (filter (fun c => match c with PutLogEvents _ _ _ => true | _ => false end) t)
  = [3%nat].
Proof. vm_compute. reflexivity. Qed.

(** When the creation of the stream fails, the batch is dropped, the error
    is sent to the error channel, and the next batch goes to the stream
    that was not created: the creation is not tried again. *)
Example failed_stream_is_not_retried :
  snd (processLogs LogScenario.noStream (LogScenario.writer 100)
         [ LogLine (LogScenario.bytes "one" ++ [LF]); Expire;
           LogLine (LogScenario.bytes "two" ++ [LF]); Done ] [])
  = [ ClockNow;
      UuidNew;
      CreateLogStream "ebs-autoscale" "ebs-autoscale-3b1f8e0c-5a0e-4c58-9d0a-6f1f5f2f7a11";
      ErrChannelSend (ExternalError "AccessDeniedException");
      ClockNow;
      PutLogEvents
        [ mkInputLogEvent (Some (String "t" (String "w" (String "o" (String LF EmptyString)))))
            (Some 1700000000004) ]
        "ebs-autoscale" "ebs-autoscale-3b1f8e0c-5a0e-4c58-9d0a-6f1f5f2f7a11" ].
Proof. vm_compute. reflexivity. Qed.

(** ** The btrfs backend *)

(** X16. [Stat] of the btrfs backend returns three zeros with the error
    of [unix.Statfs] when it fails. Otherwise it returns three [uint64]
    with used + free = total modulo 2^64; when the block size is not
    negative, the free blocks are not more than the blocks, and the total
    fits 64 bits, they are the exact sizes in bytes: total = blocks x block
    size, free = free blocks x block size, used = total - free. *)
Theorem X16_Stat_sizes (statfs : string -> unix.Statfs_t + error) (fs : btrfs.BtrfsFileSystem) :
  (forall err,
      statfs (btrfs.MountPoint fs) = inr err ->
      btrfs.Stat statfs fs = (0, 0, 0, Some err))
  /\ (forall stat,
        statfs (btrfs.MountPoint fs) = inl stat ->
        exists total used free,
          btrfs.Stat statfs fs = (total, used, free, None)
          /\ 0 <= total < 2 ^ 64 /\ 0 <= used < 2 ^ 64 /\ 0 <= free < 2 ^ 64
          /\ (used + free) mod 2 ^ 64 = total
          /\ (0 <= unix.Bsize stat < 2 ^ 63 ->
              0 <= unix.Bfree stat <= unix.Blocks stat ->
              unix.Blocks stat * unix.Bsize stat < 2 ^ 64 ->
              total = unix.Blocks stat * unix.Bsize stat
              /\ free = unix.Bfree stat * unix.Bsize stat
              /\ used = (unix.Blocks stat - unix.Bfree stat) * unix.Bsize stat
              /\ used + free = total)).
Proof.
  unfold btrfs.Stat, btrfs.GetMountPoint. split.
  - intros err ->. reflexivity.
  - intros stat ->. do 3 eexists. split; [reflexivity|].
    unfold btrfs.sub64, btrfs.mul64, btrfs.uint64.
    set (bs := unix.Bsize stat mod 2 ^ 64).
    set (total := (unix.Blocks stat * bs) mod 2 ^ 64).
    set (free := (unix.Bfree stat * bs) mod 2 ^ 64).
    assert (H64 : 0 < 2 ^ 64) by lia.
    pose proof (Z.mod_pos_bound (unix.Blocks stat * bs) _ H64) as Ht.
    pose proof (Z.mod_pos_bound (unix.Bfree stat * bs) _ H64) as Hf.
    pose proof (Z.mod_pos_bound (total - free) _ H64) as Hu.
    fold total in Ht. fold free in Hf.
    split; [lia|]. split; [lia|]. split; [lia|]. split.
    + rewrite Zplus_mod_idemp_l. replace (total - free + free) with total by lia.
      apply Z.mod_small. lia.
    + intros Hbs Hfree Hmax.
      assert (Ebs : bs = unix.Bsize stat) by (apply Z.mod_small; lia).
      assert (Et : total = unix.Blocks stat * unix.Bsize stat)
        by (unfold total; rewrite Ebs; apply Z.mod_small; nia).
      assert (Ef : free = unix.Bfree stat * unix.Bsize stat)
        by (unfold free; rewrite Ebs; apply Z.mod_small; nia).
      assert (Eu : (total - free) mod 2 ^ 64
                   = (unix.Blocks stat - unix.Bfree stat) * unix.Bsize stat).
      { rewrite Et, Ef. rewrite Z.mod_small by nia. lia. }
      rewrite Eu. repeat split; try assumption. lia.
Qed.

(** More free blocks than blocks: the used space wraps around. *)
Example Stat_wraps :
  btrfs.Stat (fun _ => inl (unix.mkStatfs_t 4096 10 11)) (btrfs.mkBtrfsFileSystem "/mnt")
  = (40960, 2 ^ 64 - 4096, 45056, None).
Proof. vm_compute. reflexivity. Qed.

(** ** [PascalCaseString] *)

(** The cases of the repository's test. *)
Example PascalCaseString_tests :
  PascalCaseString "bob_jane-jillGray_dave" "_" = "BobJane-jillGrayDave"%string
  /\ PascalCaseString "6bob_jane-jillGray_dave" "_" = "6bobJane-jillGrayDave"%string
  /\ PascalCaseString "bob_jane-jillGray_6dave" "_" = "BobJane-jillGray6dave"%string
  /\ PascalCaseString "bob_jane-jill Gray" "_" = "BobJane-jill Gray"%string
  /\ PascalCaseString "bob_jane-jill Gray" "-" = "Bob_janeJill Gray"%string
  /\ PascalCaseString "" "_" = ""%string.
Proof. vm_compute. repeat split. Qed.

Lemma take_length (n : nat) (s : string) :
  String.length (strings.take n s) = Nat.min n (String.length s).
Proof.
  revert s. induction n as [|n IH]; intros [|c s]; simpl; auto.
Qed.

Lemma drop_length (n : nat) (s : string) :
  String.length (strings.drop n s) = (String.length s - n)%nat.
Proof.
  revert s. induction n as [|n IH]; intros [|c s]; simpl; auto.
Qed.

Lemma prefix_length (a b : string) :
  String.prefix a b = true -> (String.length a <= String.length b)%nat.
Proof.
  revert b. induction a as [|c a IH]; intros b; [simpl; lia|].
  destruct b as [|d b]; simpl; [discriminate|].
  destruct (ascii_dec c d); [|discriminate].
  intros H. apply IH in H. lia.
Qed.

Lemma Index_bound (s substr : string) (m : nat) :
  strings.Index s substr = Some m -> (m + String.length substr <= String.length s)%nat.
Proof.
  revert m. induction s as [|c s IH]; intros m; cbn [strings.Index].
  - destruct (String.prefix substr "") eqn:Hp; cbv iota; [|discriminate].
    intros H. injection H as <-. apply prefix_length in Hp. simpl in *. lia.
  - destruct (String.prefix substr (String c s)) eqn:Hp; cbv iota.
    + intros H. injection H as <-. apply prefix_length in Hp. simpl in *. lia.
    + destruct (strings.Index s substr) as [k|]; simpl; [|discriminate].
      intros H. injection H as <-. specialize (IH k eq_refl). simpl. lia.
Qed.

Lemma countLoop_bound (fuel : nat) (s substr : string) :
  (strings.countLoop fuel s substr <= fuel)%nat.
Proof.
  revert s. induction fuel as [|fuel IH]; intros s; simpl; [lia|].
  destruct (strings.Index s substr); [|lia].
  specialize (IH (strings.drop (n + String.length substr) s)). lia.
Qed.

Lemma splitLoop_words (n fuel : nat) (s sep : string) :
  sep <> EmptyString ->
  (String.length s <= fuel)%nat ->
  List.length (strings.splitLoop n s sep) = S (Nat.min n (strings.countLoop fuel s sep)).
Proof.
  intros Hsep. revert fuel s. induction n as [|n IH]; intros fuel s Hfuel; simpl; [reflexivity|].
  destruct (strings.Index s sep) as [m|] eqn:Hi.
  - pose proof (Index_bound _ _ _ Hi) as Hb.
    assert (Hl : (0 < String.length sep)%nat) by (destruct sep; [contradiction | simpl; lia]).
    destruct fuel as [|fuel]; [lia|]. simpl. rewrite Hi. simpl.
    rewrite (IH fuel); [reflexivity|]. rewrite drop_length. lia.
  - destruct fuel as [|fuel]; simpl; [reflexivity|]. now rewrite Hi.
Qed.

Lemma splitLoop_nonempty (n : nat) (s sep : string) :
  (1 <= List.length (strings.splitLoop n s sep))%nat.
Proof.
  destruct n; simpl; [lia|]. destruct (strings.Index s sep); simpl; lia.
Qed.

(** The total length of the words. *)
Lemma splitLoop_length (n : nat) (s sep : string) :
  (fold_right (fun word total => String.length word + total) 0 (strings.splitLoop n s sep)
   + (List.length (strings.splitLoop n s sep) - 1) * String.length sep
   = String.length s)%nat.
Proof.
  revert s. induction n as [|n IH]; intros s; simpl; [lia|].
  destruct (strings.Index s sep) as [m|] eqn:Hi; simpl; [|lia].
  pose proof (Index_bound _ _ _ Hi) as Hb.
  specialize (IH (strings.drop (m + String.length sep) s)).
  rewrite drop_length in IH. rewrite take_length.
  pose proof (splitLoop_nonempty n (strings.drop (m + String.length sep) s) sep) as Hw.
  destruct (List.length (strings.splitLoop n (strings.drop (m + String.length sep) s) sep))
    as [|k]; [lia|].
  simpl in IH. rewrite Nat.sub_0_r in IH. simpl. lia.
Qed.

Lemma take_chars (P : ascii -> bool) (n : nat) (s : string) :
  forallb P (list_ascii_of_string s) = true ->
  forallb P (list_ascii_of_string (strings.take n s)) = true.
Proof.
  revert s. induction n as [|n IH]; intros [|c s]; simpl; auto.
  intros H. apply andb_true_iff in H. destruct H as [-> H]. now apply IH.
Qed.

Lemma drop_chars (P : ascii -> bool) (n : nat) (s : string) :
  forallb P (list_ascii_of_string s) = true ->
  forallb P (list_ascii_of_string (strings.drop n s)) = true.
Proof.
  revert s. induction n as [|n IH]; intros [|c s]; simpl; auto.
  intros H. apply andb_true_iff in H. destruct H as [_ H]. now apply IH.
Qed.

Lemma splitLoop_chars (P : ascii -> bool) (n : nat) (s sep : string) :
  forallb P (list_ascii_of_string s) = true ->
  Forall (fun word => forallb P (list_ascii_of_string word) = true) (strings.splitLoop n s sep).
Proof.
  revert s. induction n as [|n IH]; intros s H; simpl; [now repeat constructor|].
  destruct (strings.Index s sep) as [m|]; [|now repeat constructor].
  constructor; [now apply take_chars | apply IH; now apply drop_chars].
Qed.

Lemma append_length (a b : string) :
  String.length (a ++ b) = (String.length a + String.length b)%nat.
Proof. induction a as [|c a IH]; simpl; [reflexivity | now rewrite IH]. Qed.

Lemma appendWord_length (ret word : string) :
  forallb isASCII (list_ascii_of_string word) = true ->
  String.length (appendWord ret word) = (String.length ret + String.length word)%nat.
Proof.
  destruct word as [|c rest]; simpl; [lia|].
  intros H. apply andb_true_iff in H. destruct H as [Hc _].
  unfold strings.ToUpperByte. unfold isASCII in Hc. rewrite Hc.
  rewrite append_length. now destruct (_ && _).
Qed.

Lemma fold_appendWord_length (words : list string) (ret : string) :
  Forall (fun word => forallb isASCII (list_ascii_of_string word) = true) words ->
  String.length (fold_left appendWord words ret)
  = (String.length ret
     + fold_right (fun word total => String.length word + total) 0 words)%nat.
Proof.
  revert ret. induction words as [|word words IH]; intros ret H; simpl; [lia|].
  inversion H as [|? ? Hw Hrest]; subst.
  rewrite IH, appendWord_length by assumption. lia.
Qed.

(** X17. For a non-empty separator and a string of ASCII bytes,
    [strings.Split] yields one word more than [strings.Count] counts
    separators, and [PascalCaseString] removes these separators and
    nothing else: the length of its result is the length of the string
    less the length of the separators counted. *)
Theorem X17_PascalCaseString_length (str sep : string) :
  sep <> EmptyString ->
  forallb isASCII (list_ascii_of_string str) = true ->
  List.length (strings.Split str sep) = S (strings.Count str sep)
  /\ (String.length (PascalCaseString str sep) + strings.Count str sep * String.length sep
      = String.length str)%nat.
Proof.
  intros Hsep Hascii.
  assert (Hwords : List.length (strings.Split str sep) = S (strings.Count str sep)).
  { unfold strings.Split. destruct (String.eqb_spec sep ""); [contradiction|].
    rewrite (splitLoop_words _ (String.length str)) by (assumption || lia).
    unfold strings.Count.
    pose proof (countLoop_bound (String.length str) str sep). f_equal. lia. }
  split; [exact Hwords|].
  unfold PascalCaseString. rewrite fold_appendWord_length.
  - unfold strings.Split in *. destruct (String.eqb_spec sep ""); [contradiction|].
    pose proof (splitLoop_length (Nat.min (strings.Count str sep) (String.length str)) str sep) as H.
    rewrite Hwords in H. simpl in *. lia.
  - unfold strings.Split. destruct (String.eqb_spec sep ""); [contradiction|].
    now apply splitLoop_chars.
Qed.

Lemma X17_PascalCaseString_length_witness :
  (String.length (PascalCaseString "bob_jane-jillGray_dave" "_") + 2 * 1 = 22)%nat.
Proof.
  exact (proj2 (X17_PascalCaseString_length "bob_jane-jillGray_dave" "_"
                  ltac:(discriminate) eq_refl)).
Defined.

Lemma ToUpperByte_first (c : ascii) :
  exists d rest, strings.ToUpperByte c = String d rest /\ isLowerLetter d = false.
Proof.
  unfold strings.ToUpperByte.
  destruct (nat_of_ascii c <? 128)%nat eqn:Hc.
  - destruct ((97 <=? nat_of_ascii c)%nat && (nat_of_ascii c <=? 122)%nat) eqn:Hl.
    + eexists. eexists. split; [reflexivity|].
      apply andb_true_iff in Hl. destruct Hl as [H1 H2].
      apply Nat.leb_le in H1. apply Nat.leb_le in H2.
      unfold isLowerLetter. rewrite nat_ascii_embedding by lia.
      apply andb_false_iff. left. apply Nat.leb_gt. lia.
    + eexists. eexists. split; [reflexivity|]. exact Hl.
  - eexists. eexists. split; reflexivity.
Qed.

Lemma fold_appendWord_first (words : list string) (ret : string) :
  match ret with
  | EmptyString =>
      match fold_left appendWord words ret with
      | EmptyString => True
      | String d _ => isLowerLetter d = false
      end
  | String c _ => exists rest, fold_left appendWord words ret = String c rest
  end.
Proof.
  revert ret. induction words as [|word words IH]; intros ret; simpl.
  - destruct ret; eauto.
  - specialize (IH (appendWord ret word)).
    destruct ret as [|c r].
    + destruct word as [|d w]; [exact IH|].
      destruct (ToUpperByte_first d) as (u & rest & Hu & Hlow).
      unfold appendWord in *. rewrite Hu in *. cbn [append] in *.
      destruct IH as (rest' & ->). exact Hlow.
    + destruct word as [|d w]; simpl in *; exact IH.
Qed.

(** X18. [PascalCaseString] returns the empty string on the empty string,
    whatever the separator; and for every string and separator its result,
    when not empty, does not begin with a lower-case ASCII letter. *)
Theorem X18_PascalCaseString_first (str sep : string) :
  PascalCaseString EmptyString sep = EmptyString
  /\ match PascalCaseString str sep with
     | EmptyString => True
     | String c _ => isLowerLetter c = false
     end.
Proof.
  split.
  - unfold PascalCaseString, strings.Split. now destruct (String.eqb sep "").
  - exact (fold_appendWord_first (strings.Split str sep) EmptyString).
Qed.

(** ** The host *)

Lemma take_all_but_last (s : string) :
  s <> EmptyString ->
  exists c, s = (strings.take (String.length s - 1) s ++ String c EmptyString)%string.
Proof.
  induction s as [|a s IH]; intros H; [contradiction|].
  destruct s as [|b s].
  - exists a. reflexivity.
  - destruct IH as (c & Hc); [discriminate|]. exists c.
    simpl in *. rewrite Nat.sub_0_r in *. now rewrite <- Hc.
Qed.

Lemma hostTags_map (tags : list TagDescription) :
  hostTags tags = map (fun t => types.mkTag (tdKey t) (tdValue t)) tags.
Proof.
  unfold hostTags.
  assert (H : forall acc,
             fold_left (fun volumeTags t => volumeTags ++ [types.mkTag (tdKey t) (tdValue t)])
               tags acc
             = acc ++ map (fun t => types.mkTag (tdKey t) (tdValue t)) tags).
  { induction tags as [|t rest IH]; intros acc; simpl.
    - now rewrite app_nil_r.
    - rewrite IH, <- app_assoc. reflexivity. }
  apply H.
Qed.

Section HostFacts.

Variable w : HostWorld.

Lemma GetAWSEc2Metadata_run (path : string) (t : list HostCall) :
  GetAWSEc2Metadata w path t
  = match getMetadata w t path with
    | Some e => (EmptyString, Some e, t ++ [GetMetadata path])
    | None =>
        match readAll w (t ++ [GetMetadata path]) path with
        | inr e => (EmptyString, Some e, t ++ [GetMetadata path; ReadAll path])
        | inl resp => (resp, None, t ++ [GetMetadata path; ReadAll path])
        end
    end.
Proof.
  unfold GetAWSEc2Metadata, bindT, performT, retT.
  destruct (getMetadata w t path); [reflexivity|].
  rewrite <- app_assoc. now destruct (readAll w (t ++ [GetMetadata path]) path).
Qed.

(** X19. When [NewEc2Host] returns a host, the availability zone of the
    host is its region followed by one byte; its ARN is
    arn:aws:ec2:<region>:<account>:instance/<instance id>; its tags are the
    tags described for the instance, key and value, in their order; and
    ten calls have been made: the configuration is loaded, the instance id
    is read twice and the availability zone once from the metadata service,
    the configuration is loaded for the region, the caller identity is
    asked for, and the tags of the instance are described. It panics only
    on an empty availability zone or an identity without account. *)
Theorem X19_NewEc2Host_result (t : list HostCall) :
  match fst (NewEc2Host w t) with
  | Ok host =>
      exists c account tags,
        AvailabilityZone host = (Region host ++ String c EmptyString)%string
        /\ InstanceArn host
           = ("arn:aws:ec2:" ++ Region host ++ ":" ++ account ++ ":instance/"
              ++ InstanceId host)%string
        /\ Tags host = map (fun d => types.mkTag (tdKey d) (tdValue d)) tags
        /\ snd (NewEc2Host w t)
           = t ++ [ ConfigLoad None;
                    GetMetadata "instance-id"; ReadAll "instance-id";
                    GetMetadata "instance-id"; ReadAll "instance-id";
                    GetMetadata "placement/availability-zone";
                    ReadAll "placement/availability-zone";
                    ConfigLoad (Some (Region host));
                    GetCallerIdentity;
                    DescribeTags (InstanceId host) ]
        /\ describeTags w (t ++ [ ConfigLoad None;
                                  GetMetadata "instance-id"; ReadAll "instance-id";
                                  GetMetadata "instance-id"; ReadAll "instance-id";
                                  GetMetadata "placement/availability-zone";
                                  ReadAll "placement/availability-zone";
                                  ConfigLoad (Some (Region host));
                                  GetCallerIdentity ]) (InstanceId host) = inl tags
  | Err _ => True
  | Panic =>
      (exists t1, readAll w t1 "placement/availability-zone" = inl EmptyString)
      \/ (exists t1, callerAccount w t1 = inl None)
  end.
Proof.
  destruct (NewEc2Host w t) as [r t'] eqn:Hrun. cbn [fst snd].
  unfold NewEc2Host, bindT, performT, retT in Hrun.
  destruct (configLoad w t None); [injection Hrun as <- <-; exact I|].
  rewrite GetAWSEc2Metadata_run in Hrun.
  destruct (getMetadata w _ "instance-id"); [injection Hrun as <- <-; exact I|].
  destruct (readAll w _ "instance-id") as [first|]; [|injection Hrun as <- <-; exact I].
  rewrite GetAWSEc2Metadata_run in Hrun.
  destruct (getMetadata w _ "instance-id"); [injection Hrun as <- <-; exact I|].
  destruct (readAll w _ "instance-id") as [instanceId|]; [|injection Hrun as <- <-; exact I].
  rewrite GetAWSEc2Metadata_run in Hrun.
  destruct (getMetadata w _ "placement/availability-zone"); [injection Hrun as <- <-; exact I|].
  destruct (readAll w _ "placement/availability-zone") as [zone|] eqn:Hzone;
    [|injection Hrun as <- <-; exact I].
  destruct (Nat.eqb_spec (String.length zone) 0) as [Hz|Hz].
  - injection Hrun as <- <-. left. destruct zone; [|discriminate]. eexists. exact Hzone.
  - destruct (configLoad w _ (Some _)); [injection Hrun as <- <-; exact I|].
    destruct (callerAccount w _) as [[account|]|] eqn:Hacc;
      [|injection Hrun as <- <-; right; eexists; exact Hacc|injection Hrun as <- <-; exact I].
    destruct (describeTags w _ instanceId) as [tags|] eqn:Htags;
      [|injection Hrun as <- <-; exact I].
    injection Hrun as <- <-.
    cbn [AvailabilityZone Region InstanceArn InstanceId Tags].
    destruct (take_all_but_last zone) as (c & Hc); [now destruct zone|].
    exists c, account, tags. split; [exact Hc|]. split; [reflexivity|].
    split; [apply hostTags_map|].
    repeat rewrite <- app_assoc in *. cbn [app] in *. split; [reflexivity | exact Htags].
Qed.

End HostFacts.

(** The region of an instance in the zone eu-west-1a, and the panic on a
    metadata service that answers with an empty zone. *)
Example NewEc2Host_examples :
  (exists host,
      fst (NewEc2Host (HostScenario.world "eu-west-1a") []) = Ok host
      /\ Region host = "eu-west-1"%string
      /\ InstanceArn host = "arn:aws:ec2:eu-west-1:123456789012:instance/i-0abc"%string)
  /\ fst (NewEc2Host (HostScenario.world EmptyString) []) = Panic.
Proof. split; [eexists; split; [reflexivity|split; reflexivity] | reflexivity]. Qed.
